(** * RTK Query Navigator: the lookup core of [src/extension.ts]

    A shallow embedding of the hook-name transformer, the endpoints-block
    locator, the definition matcher, the two entry points of the
    extension and its diagnostic command, with the properties of its
    specification stated over them.

    Text is a list of code units.  The embedding covers the code units
    below 256 (the Latin-1 range), held in [ascii]; on that range the
    classes [.], [\s], [\w], [\b] and [toLowerCase] are written out in
    full.  A display position is kept as its character offset: the host's
    [positionAt] is a change of coordinates that no property below
    depends on. *)

From Stdlib Require Import List Arith Bool Ascii String Lia PeanoNat ZArith.
From Stdlib Require Import Permutation DecimalString.
Import ListNotations.

Set Implicit Arguments.

Open Scope list_scope.
Open Scope nat_scope.

(* ================================================================== *)
(** ** Text *)

Definition text := list ascii.

(** [T "abc"] is the text of a literal. *)
Definition T (s : string) : text := list_ascii_of_string s.

Definition code (c : ascii) : nat := nat_of_ascii c.

Definition ascii_eqb (a b : ascii) : bool := Ascii.eqb a b.

Definition in_range (lo hi : nat) (c : ascii) : bool :=
  (lo <=? code c) && (code c <=? hi).

(** [\w]: the letters, the digits and the underscore, ASCII only. *)
Definition is_word (c : ascii) : bool :=
  in_range 97 122 c || in_range 65 90 c || in_range 48 57 c
  || ascii_eqb c "_".

(** Line terminators below 256: line feed and carriage return. *)
Definition is_line_terminator (c : ascii) : bool :=
  (code c =? 10) || (code c =? 13).

(** [\s] below 256: tab, line feed, vertical tab, form feed, carriage
    return, space and the no-break space. *)
Definition is_space (c : ascii) : bool :=
  in_range 9 13 c || (code c =? 32) || (code c =? 160).

(** [String.prototype.toLowerCase] on one code unit below 256: the ASCII
    capitals and the Latin-1 capitals (all of 192..222 but the
    multiplication sign 215) move up by 32. *)
Definition toLowerCase (c : ascii) : ascii :=
  if in_range 65 90 c
     || (in_range 192 222 c && negb (code c =? 215))
  then ascii_of_nat (code c + 32)
  else c.

(** [s.charAt(0).toLowerCase() + s.slice(1)] *)
Definition lowerFirst (s : text) : text :=
  match s with
  | [] => []
  | c :: t => toLowerCase c :: t
  end.

(** [text.substring(a, b)]: the arguments are swapped when [a > b] and
    clamped to the length. *)
Definition substring (a b : nat) (s : text) : text :=
  firstn (Nat.max a b - Nat.min a b) (skipn (Nat.min a b) s).

Fixpoint starts_with (p s : text) : bool :=
  match p, s with
  | [], _ => true
  | a :: p', b :: s' => ascii_eqb a b && starts_with p' s'
  | _ :: _, [] => false
  end.

Definition ends_with (p s : text) : bool :=
  starts_with (rev p) (rev s).

(* ================================================================== *)
(** ** Regular expressions

    The patterns of the source are values of [re]; the matcher is the
    backtracking matcher of ECMAScript, written in continuation-passing
    style as in the language definition: a matcher takes the current
    state and the continuation for the rest of the pattern, and the
    first alternative that lets the continuation succeed wins. *)

Module Regex.

Inductive re : Type :=
| Empty
| Class (p : ascii -> bool)          (* one code unit satisfying [p] *)
| Seq (a b : re)
| Alt (a b : re)                     (* [a|b], [a] first *)
| Star (greedy : bool) (a : re)      (* [a*] and [a*?] *)
| Group (i : nat) (a : re)           (* capturing group number [i] *)
| Bol                                (* [^], no multiline flag *)
| Eol                                (* [$], no multiline flag *)
| WordB.                             (* [\b] *)

Definition Chr (c : ascii) : re := Class (ascii_eqb c).
Definition Plus (greedy : bool) (a : re) : re := Seq a (Star greedy a).
Definition Opt (a : re) : re := Alt a Empty.

(** A run of literal code units. *)
Fixpoint Lit (s : text) : re :=
  match s with
  | [] => Empty
  | c :: t => Seq (Chr c) (Lit t)
  end.

Definition Dot : re := Class (fun c => negb (is_line_terminator c)).
Definition Ws : re := Class is_space.

(** Matcher state: the offset reached, the code unit just before it,
    what is left of the input, and the captures made so far (latest
    first). *)
Record mstate : Type := MState {
  pos : nat;
  prev : option ascii;
  rest : text;
  caps : list (nat * (nat * nat))
}.

Definition word_opt (o : option ascii) : bool :=
  match o with
  | Some c => is_word c
  | None => false
  end.

Definition at_boundary (s : mstate) : bool :=
  xorb (word_opt (prev s)) (word_opt (hd_error (rest s))).

Definition cont := mstate -> option mstate.

(** The state [s'] reached at the end of group [i], entered at [s], with
    the group recorded.  No pattern of the source has a group inside a
    starred pattern, so captures are never reset. *)
Definition capture (i : nat) (s s' : mstate) : mstate :=
  MState (pos s') (prev s') (rest s') ((i, (pos s, pos s')) :: caps s').

(** The loop of a starred pattern, [body] being the matcher of what is
    starred.  An iteration that consumes nothing is rejected; each one
    kept consumes at least one code unit, so the length of the remaining
    input bounds their number. *)
Fixpoint starLoop (body : cont -> mstate -> option mstate) (greedy : bool)
  (k : cont) (n : nat) (s : mstate) {struct n} : option mstate :=
  match n with
  | 0 => k s
  | S n' =>
      let again (s' : mstate) :=
        if pos s <? pos s' then starLoop body greedy k n' s' else None in
      if greedy then
        match body again s with
        | Some x => Some x
        | None => k s
        end
      else
        match k s with
        | Some x => Some x
        | None => body again s
        end
  end.

Fixpoint run (r : re) (k : cont) (s : mstate) {struct r} : option mstate :=
  match r with
  | Empty => k s
  | Class p =>
      match rest s with
      | c :: t =>
          if p c then k (MState (S (pos s)) (Some c) t (caps s)) else None
      | [] => None
      end
  | Seq a b => run a (run b k) s
  | Alt a b =>
      match run a k s with
      | Some x => Some x
      | None => run b k s
      end
  | Star greedy a => starLoop (run a) greedy k (List.length (rest s)) s
  | Group i a => run a (fun s' => k (capture i s s')) s
  | Bol => if pos s =? 0 then k s else None
  | Eol => match rest s with [] => k s | _ :: _ => None end
  | WordB => if at_boundary s then k s else None
  end.

(** The result of a successful match: [index], the offset one past the
    match, and the captures. *)
Record mresult : Type := MResult {
  index : nat;
  stop : nat;
  groups : list (nat * (nat * nat))
}.

(** The search of [RegExp.prototype.exec] from [lastIndex = 0]: the
    pattern is tried at offset 0, 1, 2, ... up to the length of the
    input, and the first offset where it matches wins. *)
Definition accept : cont := fun x => Some x.

Fixpoint search (r : re) (p : nat) (pv : option ascii) (s : text)
  : option mresult :=
  match run r accept (MState p pv s []) with
  | Some x => Some (MResult p (pos x) (caps x))
  | None =>
      match s with
      | [] => None
      | c :: t => search r (S p) (Some c) t
      end
  end.

Definition exec (r : re) (s : text) : option mresult := search r 0 None s.

Fixpoint lookup_group (i : nat) (g : list (nat * (nat * nat)))
  : option (nat * nat) :=
  match g with
  | [] => None
  | (j, se) :: g' => if i =? j then Some se else lookup_group i g'
  end.

(** [match[i]] *)
Definition group_text (i : nat) (s : text) (m : mresult) : option text :=
  match lookup_group i (groups m) with
  | Some (a, b) => Some (substring a b s)
  | None => None
  end.

(** The declarative reading of a pattern: [matches r s s'] when [r] can
    take the matcher from state [s] to state [s']. *)
Inductive matches : re -> mstate -> mstate -> Prop :=
| MEmpty s : matches Empty s s
| MClass p s c t :
    rest s = c :: t -> p c = true ->
    matches (Class p) s (MState (S (pos s)) (Some c) t (caps s))
| MSeq a b s s1 s2 :
    matches a s s1 -> matches b s1 s2 -> matches (Seq a b) s s2
| MAltL a b s s' : matches a s s' -> matches (Alt a b) s s'
| MAltR a b s s' : matches b s s' -> matches (Alt a b) s s'
| MStarStop g a s : matches (Star g a) s s
| MStarStep g a s s1 s2 :
    matches a s s1 -> pos s < pos s1 -> matches (Star g a) s1 s2 ->
    matches (Star g a) s s2
| MGroup i a s s' : matches a s s' -> matches (Group i a) s (capture i s s')
| MBol s : pos s = 0 -> matches Bol s s
| MEol s : rest s = [] -> matches Eol s s
| MWordB s : at_boundary s = true -> matches WordB s s.

(** The code unit before offset [length u] of [u ++ v]. *)
Fixpoint last_opt (pv : option ascii) (u : text) : option ascii :=
  match u with
  | [] => pv
  | c :: u' => last_opt (Some c) u'
  end.

End Regex.

Import Regex.

(* ================================================================== *)
(** ** Name transformer *)

(** [(Query|LazyQuery|Mutation)$] *)
Definition hookAlts : re :=
  Alt (Lit (T "Query")) (Alt (Lit (T "LazyQuery")) (Lit (T "Mutation"))).

Definition hookTail : re := Seq (Group 2 hookAlts) Eol.

(** [/^use(.+?)(Query|LazyQuery|Mutation)$/] *)
Definition hookPattern : re :=
  Seq Bol (Seq (Lit (T "use")) (Seq (Group 1 (Plus false Dot)) hookTail)).

Definition hookNameToEndpointName (hookName : text) : option text :=
  match exec hookPattern hookName with
  | None => None
  | Some m =>
      match group_text 1 hookName m with
      | Some endpointName => Some (lowerFirst endpointName)
      | None => None
      end
  end.

(** *** The pattern read as a language

    [HookShape s m suf]: [s] is [use], then a middle [m] of at least one
    code unit, none of them a line terminator, then one of the three
    suffixes. *)
Definition suffixes : list text := [T "Query"; T "LazyQuery"; T "Mutation"].

Definition dotted (u : text) : Prop :=
  Forall (fun c => is_line_terminator c = false) u.

Definition HookShape (s m suf : text) : Prop :=
  s = T "use" ++ m ++ suf
  /\ m <> []
  /\ dotted m
  /\ In suf suffixes.

(** [whole w r]: [r] is [w] and nothing more. *)
Definition whole (w r : text) : bool :=
  starts_with w r
  && match skipn (List.length w) r with [] => true | _ :: _ => false end.

Definition isSuffix (r : text) : bool := existsb (fun w => whole w r) suffixes.

(** The lazy walk of [(.+?)] written as a plain recursion: what the
    middle takes beyond its first code unit. *)
Fixpoint lazyMiddle (t : text) : option text :=
  if isSuffix t then Some []
  else
    match t with
    | [] => None
    | c :: t' =>
        if negb (is_line_terminator c)
        then option_map (cons c) (lazyMiddle t')
        else None
    end.

Definition splitHook (s : text) : option text :=
  match s with
  | c1 :: c2 :: c3 :: c :: t =>
      if ascii_eqb "u" c1 && ascii_eqb "s" c2 && ascii_eqb "e" c3
         && negb (is_line_terminator c)
      then option_map (cons c) (lazyMiddle t)
      else None
  | _ => None
  end%char.

(* ================================================================== *)
(** ** Block locator *)

(** [/endpoints:\s*\([^)]*\)\s*=>\s*\(/g] *)
Definition endpointsPattern : re :=
  Seq (Lit (T "endpoints:"))
   (Seq (Star true Ws)
    (Seq (Chr "(")
     (Seq (Star true (Class (fun c => negb (ascii_eqb c ")"))))
      (Seq (Chr ")")
       (Seq (Star true Ws)
        (Seq (Lit (T "=>"))
         (Seq (Star true Ws)
          (Chr "("))))))))%char.

Definition dquote : ascii := "034"%char.
Definition squote : ascii := "039"%char.
Definition backtick : ascii := "096"%char.
Definition backslash : ascii := "092"%char.

Definition is_quote (c : ascii) : bool :=
  ascii_eqb c dquote || ascii_eqb c squote || ascii_eqb c backtick.

Definition opt_is (o : option ascii) (c : ascii) : bool :=
  match o with
  | Some d => ascii_eqb d c
  | None => false
  end.

(** The variables of the scanning loop.  [stringChar] is [None] for the
    empty string it starts with. *)
Record scanner : Type := Scanner {
  depth : Z;
  inString : bool;
  stringChar : option ascii
}.

Definition scanner0 : scanner := Scanner 0 false None.

(** The string bookkeeping at the head of the loop body. *)
Definition quote_step (char : ascii) (prevChar : option ascii) (st : scanner)
  : scanner :=
  if is_quote char && negb (opt_is prevChar backslash) then
    if negb (inString st) then Scanner (depth st) true (Some char)
    else if opt_is (stringChar st) char
         then Scanner (depth st) false (stringChar st)
         else st
  else st.

Definition opens (c : ascii) : bool := (ascii_eqb c "{" || ascii_eqb c "(")%char.
Definition closes (c : ascii) : bool := (ascii_eqb c "}" || ascii_eqb c ")")%char.

(** The depth bookkeeping that follows it; the counter is allowed to go
    below zero here, the loop decides what to do with that. *)
Definition depth_step (char : ascii) (st : scanner) : scanner :=
  if negb (inString st) then
    if opens char then Scanner (depth st + 1) (inString st) (stringChar st)
    else if closes char
         then Scanner (depth st - 1) (inString st) (stringChar st)
         else st
  else st.

Definition body (char : ascii) (prevChar : option ascii) (st : scanner)
  : scanner :=
  depth_step char (quote_step char prevChar st).

(** The [for] loop from offset [i] on, [s] being [text] from [i]:
    [Some j] when the loop breaks at [j], [None] when it runs off the end
    of the text. *)
Fixpoint scan (i : nat) (prevChar : option ascii) (s : text) (st : scanner)
  : option nat :=
  match s with
  | [] => None
  | char :: s' =>
      let st' := body char prevChar st in
      if negb (inString st') && closes char && (depth st' <? 0)%Z
      then Some i
      else scan (S i) (Some char) s' st'
  end.

Record block : Type := Block { start : nat; finish : nat }.

(** [text[i - 1]] when [i > 0], the empty string otherwise. *)
Definition char_before (i : nat) (s : text) : option ascii :=
  if 0 <? i then nth_error s (i - 1) else None.

(** Where the scan begins: one past the marker. *)
Definition scan_from (m : mresult) : nat := index m + (stop m - index m).

Definition findEndpointsBlock (txt : text) : option block :=
  match exec endpointsPattern txt with
  | None => None
  | Some m =>
      let startIndex := index m in
      let endIndex := scan_from m in
      match scan endIndex (char_before endIndex txt) (skipn endIndex txt)
                 scanner0 with
      | Some i => Some (Block startIndex i)
      | None => Some (Block startIndex endIndex)
      end
  end.

(** The scanner once the loop body has run over all of [s], breaks
    left aside: the depth counter of the text read so far. *)
Fixpoint sweep (prevChar : option ascii) (s : text) (st : scanner) : scanner :=
  match s with
  | [] => st
  | char :: s' => sweep (Some char) s' (body char prevChar st)
  end.

(** The counter after the code units [0..j] of [s]. *)
Definition depthAfter (prevChar : option ascii) (s : text) (st : scanner)
  (j : nat) : Z :=
  depth (sweep prevChar (firstn (S j) s) st).

(** [j] is the first offset of [s] at which the counter is negative. *)
Definition FirstNegative (prevChar : option ascii) (s : text) (st : scanner)
  (j : nat) : Prop :=
  j < List.length s
  /\ (depthAfter prevChar s st j < 0)%Z
  /\ forall i, i < j -> (0 <= depthAfter prevChar s st i)%Z.

(** The counter never goes negative on [s]. *)
Definition NeverNegative (prevChar : option ascii) (s : text) (st : scanner)
  : Prop :=
  forall j, j < List.length s -> (0 <= depthAfter prevChar s st j)%Z.

(** Three small documents: a string holding an unbalanced brace, the
    same with a letter in its place, and a string with an escaped
    quote. *)
Definition ex_braced : text := T "endpoints: (b) => ({ a: '{' })".
Definition ex_plain : text := T "endpoints: (b) => ({ a: 'x' })".
Definition ex_escaped : text := T "endpoints: (b) => ({ a: 'it\'s {' })".

(** A document cut short inside the block. *)
Definition ex_truncated : text := T "endpoints: (b) => ({ a: 'x' ".

(** *** The text of a block, as it reads

    What a block is made of, told from the text alone: pairs of
    brackets, string literals, and other code units.  The brackets are
    the two braces and the two parentheses; a pair is an opening bracket
    and the closing bracket that follows what it holds, of either kind.
    A literal is opened by a double quote, a single quote or a backtick
    that does not come right after a backslash, and closed by the next
    occurrence of the same code unit that does not come right after a
    backslash.  A quote of these three stands outside a literal only
    right after a backslash.  Each shape is told with the code unit that
    comes before it, since the backslash rule looks one code unit
    back. *)
Definition bracketOpen (c : ascii) : Prop := c = "{"%char \/ c = "("%char.

Definition bracketClose (c : ascii) : Prop := c = "}"%char \/ c = ")"%char.

Definition delimiter (c : ascii) : Prop :=
  c = "034"%char \/ c = "'"%char \/ c = "`"%char.

Definition escaped (prevChar : option ascii) : Prop :=
  prevChar = Some "092"%char.

(** The inside of a literal opened by [q], up to its closing quote. *)
Inductive LiteralBody (q : ascii) : option ascii -> text -> Prop :=
| LitEnd prevChar : ~ escaped prevChar -> LiteralBody q prevChar []
| LitChar prevChar c w :
    (c = q -> escaped prevChar) ->
    LiteralBody q (Some c) w ->
    LiteralBody q prevChar (c :: w).

Inductive Code : option ascii -> text -> Prop :=
| CodeEnd prevChar : Code prevChar []
| CodePlain prevChar c w :
    ~ bracketOpen c -> ~ bracketClose c ->
    (delimiter c -> escaped prevChar) ->
    Code (Some c) w ->
    Code prevChar (c :: w)
| CodeLiteral prevChar q b w :
    delimiter q -> ~ escaped prevChar ->
    LiteralBody q (Some q) b ->
    Code (Some q) w ->
    Code prevChar (q :: b ++ q :: w)
| CodePair prevChar o w1 c w2 :
    bracketOpen o -> bracketClose c ->
    Code (Some o) w1 -> Code (Some c) w2 ->
    Code prevChar (o :: w1 ++ c :: w2).

(** A block with a literal of each kind: a double-quoted one that holds
    an escaped quote and two braces, a backtick one that holds a
    parenthesis, a single-quoted one that holds another. *)
Definition ex_literals : text :=
  T "endpoints: (b) => ({ a: " ++ dquote :: T "x" ++ backslash :: dquote
    :: T "}{" ++ dquote :: T ", b: `)`, c: '(' })".

(** A block with an apostrophe in a comment, and the same block with a
    letter in its place. *)
Definition ex_apostrophe : text := T
"endpoints: (builder) => ({
  // don't cache
  getX: builder.query({}),
})".

Definition ex_donut : text := T
"endpoints: (builder) => ({
  // donut cache
  getX: builder.query({}),
})".

(* ================================================================== *)
(** ** Definition matcher *)

Record document : Type := Document { uri : string; getText : text }.

(** A location is a file and the offset that [positionAt] is given. *)
Record Location : Type := Loc { loc_uri : string; loc_offset : nat }.

Definition builderCall (spaced : bool) : re :=
  Seq (Lit (T "build"))
   (Seq (Opt (Lit (T "er")))
    (Seq (if spaced then Star true Ws else Empty)
     (Seq (Chr ".")
      (Seq (if spaced then Star true Ws else Empty)
       (Group 1 (Alt (Lit (T "query")) (Lit (T "mutation"))))))))%char.

Definition anyQuote : re :=
  Class (fun c => ascii_eqb c squote || ascii_eqb c dquote).

(** The three patterns, built around the candidate name.  The source
    splices the name into the pattern text; a name made of word
    characters, which is what both entry points pass (the word under the
    cursor is taken with [\b\w+\b]), is spliced in as a literal. *)
Definition unquotedPattern (endpointName : text) : re :=
  Seq WordB (Seq (Lit endpointName)
   (Seq (Star true Ws) (Seq (Chr ":") (Seq (Star true Ws)
    (builderCall false)))))%char.

Definition quotedPattern (endpointName : text) : re :=
  Seq anyQuote (Seq (Lit endpointName) (Seq anyQuote
   (Seq (Star true Ws) (Seq (Chr ":") (Seq (Star true Ws)
    (builderCall false))))))%char.

Definition spacedPattern (endpointName : text) : re :=
  Seq WordB (Seq (Lit endpointName)
   (Seq (Star true Ws) (Seq (Chr ":") (Seq (Star true Ws)
    (builderCall true)))))%char.

Definition patterns (endpointName : text) : list re :=
  [ unquotedPattern endpointName;
    quotedPattern endpointName;
    spacedPattern endpointName ].

(** [for (const pattern of patterns)]: the first pattern that matches
    decides. *)
Fixpoint firstPattern (ps : list re) (searchText : text) : option nat :=
  match ps with
  | [] => None
  | p :: ps' =>
      match exec p searchText with
      | Some m => Some (index m)
      | None => firstPattern ps' searchText
      end
  end.

Definition searchRegion (txt : text) : text * nat :=
  match findEndpointsBlock txt with
  | Some b => (substring (start b) (finish b) txt, start b)
  | None => (txt, 0)
  end.

Definition findEndpointDefinition (doc : document) (endpointName : text)
  : option Location :=
  let txt := getText doc in
  let (searchText, offset) := searchRegion txt in
  match firstPattern (patterns endpointName) searchText with
  | Some i => Some (Loc (uri doc) (offset + i))
  | None => None
  end.

(** *** What a match of the patterns looks like in the text *)

(** A candidate name as the entry points produce it: one word. *)
Definition wordName (name : text) : Prop :=
  name <> [] /\ Forall (fun c => is_word c = true) name.

Definition spaces (ws : text) : Prop := Forall (fun c => is_space c = true) ws.

(** [name] sits at offset [k] of [txt] with no word character right
    before it and none right after it. *)
Definition WholeWordAt (txt name : text) (k : nat) : Prop :=
  exists pre post,
    txt = pre ++ name ++ post
    /\ List.length pre = k
    /\ word_opt (last_opt None pre) = false
    /\ word_opt (hd_error post) = false.

(** An unquoted declaration of [name] starts at offset [i] of [txt]. *)
Definition UnquotedAt (txt name : text) (i : nat) : Prop :=
  exists pre ws1 ws2 tl,
    txt = pre ++ name ++ ws1 ++ ":"%char :: ws2 ++ T "build" ++ tl
    /\ List.length pre = i
    /\ word_opt (last_opt None pre) = false
    /\ spaces ws1 /\ spaces ws2.

(** A quoted declaration of [name] starts, with its quote, at offset [i]
    of [txt]. *)
Definition QuotedAt (txt name : text) (i : nat) : Prop :=
  exists pre q1 q2 tl,
    txt = pre ++ q1 :: name ++ q2 :: tl
    /\ List.length pre = i
    /\ (q1 = squote \/ q1 = dquote)
    /\ (q2 = squote \/ q2 = dquote).

(** The two spellings of the builder and the two kinds of endpoint. *)
Definition builderSuffix (er kind : text) : Prop :=
  (er = [] \/ er = T "er") /\ (kind = T "query" \/ kind = T "mutation").

(** A complete unquoted declaration of [name] written at offset [i]. *)
Definition UnquotedDeclAt (txt name : text) (i : nat) : Prop :=
  exists pre ws1 ws2 er kind post,
    txt = pre ++ name ++ ws1 ++ ":"%char :: ws2 ++ T "build" ++ er
              ++ "."%char :: kind ++ post
    /\ List.length pre = i
    /\ word_opt (last_opt None pre) = false
    /\ spaces ws1 /\ spaces ws2 /\ builderSuffix er kind.


(** A block with a look-alike of the candidate before the declaration. *)
Definition ex_lookalike : text := T
"const api = base.injectEndpoints({
  endpoints: (builder) => ({
    myGetAlertActivityTrend: builder.query<Y, void>({ query: () => 'a' }),
    mygetAlertActivityTrend: builder.query<Y, void>({ query: () => 'b' }),
    getAlertActivityTrend: builder.query<X, void>({ query: () => 'x' }),
  }),
});".

Definition ex_candidate : text := T "getAlertActivityTrend".




(** An unbalanced document with a declaration in the parameter list of
    the marker. *)
Definition ex_in_marker : text := T "endpoints: (getX: build.query) => ( oops".

(** What the loop over the patterns amounts to, one pattern after the
    other. *)
Definition byPriority (endpointName region : text) : option nat :=
  match exec (unquotedPattern endpointName) region with
  | Some m => Some (index m)
  | None =>
      match exec (quotedPattern endpointName) region with
      | Some m => Some (index m)
      | None =>
          match exec (spacedPattern endpointName) region with
          | Some m => Some (index m)
          | None => None
          end
      end
  end.

(* ================================================================== *)
(** ** The host and the effects of a lookup

    The editor is a record of answers: what each call of the extension
    returns (or that it throws) and how long an awaited call takes.  A
    computation threads a world made of the log of calls, each stamped
    with the time it was issued, and a clock in milliseconds; work done
    by the extension itself takes no time. *)

Inductive Outcome (A : Type) : Type :=
| Ok (a : A)
| Throw (e : string).

Arguments Ok {A} a.
Arguments Throw {A} e.

Inductive Event : Type :=
| EvLog (msg : string)
| EvGetConfiguration
| EvFindFiles (pattern : string)
| EvOpenTextDocument (file : string)
| EvShowTextDocument (loc : Location)
| EvShowInformationMessage (msg : string)
| EvShowErrorMessage (msg : string).

Record World : Type := MkWorld {
  trace : list (nat * Event);
  clock : nat
}.

Record Host : Type := MkHost {
  (** [window.activeTextEditor]: the document and the cursor *)
  activeTextEditor : option (document * nat);
  (** [getWordRangeAtPosition(position, /\b\w+\b/)] followed by
      [getText(wordRange)]: a run of word characters, when there is
      one *)
  wordAt : document -> nat -> Outcome (option text);
  (** [token.isCancellationRequested] *)
  isCancellationRequested : bool;
  (** [config.get('searchPatterns')]; [None] for a falsy setting, a
      throw for one that cannot be iterated *)
  searchPatternsSetting : Outcome (option (list string));
  (** [workspace.findFiles(pattern, excludePattern, 100)] *)
  findFiles : string -> Outcome (list string);
  findFilesTime : string -> nat;
  (** [workspace.openTextDocument(file)] *)
  openTextDocument : string -> Outcome text;
  openTime : string -> nat;
  (** [window.showTextDocument(uri, ...)] *)
  showTextDocument : Location -> Outcome unit
}.

Definition M (A : Type) : Type := World -> Outcome A * World.

Definition ret {A} (a : A) : M A := fun w => (Ok a, w).

Definition bind {A B} (m : M A) (f : A -> M B) : M B :=
  fun w =>
    match m w with
    | (Ok a, w') => f a w'
    | (Throw e, w') => (Throw e, w')
    end.

(** [try { m } catch (error) { handler }] *)
Definition try_catch {A} (m : M A) (handler : string -> M A) : M A :=
  fun w =>
    match m w with
    | (Ok a, w') => (Ok a, w')
    | (Throw e, w') => handler e w'
    end.

Declare Scope host_scope.
Delimit Scope host_scope with host.
Notation "x <- m ;; k" := (bind m (fun x => k))
  (at level 61, m at next level, right associativity) : host_scope.
Notation "m ;;; k" := (bind m (fun _ => k))
  (at level 61, right associativity) : host_scope.
Open Scope host_scope.

(** A call that leaves a line in the log of calls and takes no time. *)
Definition emit (ev : Event) : M unit :=
  fun w => (Ok tt, MkWorld (trace w ++ [(clock w, ev)]) (clock w)).

(** An awaited call of the host. *)
Definition await {A} (ev : Event) (latency : nat) (r : Outcome A) : M A :=
  fun w => (r, MkWorld (trace w ++ [(clock w, ev)]) (clock w + latency)).

(** A call of the host that answers at once and leaves no line. *)
Definition ask {A} (r : Outcome A) : M A := fun w => (r, w).

Definition log (msg : string) : M unit := emit (EvLog msg).

Definition defaultSearchPatterns : list string :=
  [ "**/features/**/api/*.{ts,tsx}";
    "**/api/**/*.{ts,tsx}";
    "**/services/**/*.{ts,tsx}";
    "**/*api*.{ts,tsx}" ]%string.

(** *** One batch: [Promise.all(files.map(async (file) => ...))] *)

(** What the task of one file resolves to: the [location] field. *)
Definition fileTask (h : Host) (endpointName : text) (file : string)
  : option Location :=
  match openTextDocument h file with
  | Ok txt => findEndpointDefinition (Document file txt) endpointName
  | Throw _ => None
  end.

(** The tasks settle in the order of their latencies, the earlier file
    first among equals. *)
Fixpoint settle (h : Host) (x : nat * string) (l : list (nat * string))
  : list (nat * string) :=
  match l with
  | [] => [x]
  | y :: l' =>
      if openTime h (snd x) <=? openTime h (snd y)
      then x :: y :: l'
      else y :: settle h x l'
  end.

Fixpoint settleOrder (h : Host) (l : list (nat * string))
  : list (nat * string) :=
  match l with
  | [] => []
  | x :: l' => settle h x (settleOrder h l')
  end.

Fixpoint indexed {A} (i : nat) (l : list A) : list (nat * A) :=
  match l with
  | [] => []
  | x :: l' => (i, x) :: indexed (S i) l'
  end.

(** [values[index] = x] *)
Fixpoint setSlot {A} (i : nat) (x : A) (l : list A) : list A :=
  match l, i with
  | [], _ => []
  | _ :: l', 0 => x :: l'
  | y :: l', S i' => y :: setSlot i' x l'
  end.

(** What the task numbered [fst t] leaves in its slot, and the write
    itself. *)
Definition slot (h : Host) (endpointName : text) (t : nat * string)
  : option (string * option Location) :=
  Some (snd t, fileTask h endpointName (snd t)).

Definition fill (h : Host) (endpointName : text)
  (values : list (option (string * option Location))) (t : nat * string)
  : list (option (string * option Location)) :=
  setSlot (fst t) (slot h endpointName t) values.

(** [Promise.all]: one slot per task, filled as the tasks settle. *)
Definition promiseAll (h : Host) (endpointName : text) (files : list string)
  : list (option (string * option Location)) :=
  fold_left (fill h endpointName)
            (settleOrder h (indexed 0 files))
            (repeat None (List.length files)).

(** [results.find(r => r.location !== null)] *)
Fixpoint findMatch (results : list (option (string * option Location)))
  : option (string * Location) :=
  match results with
  | [] => None
  | Some (file, Some loc) :: _ => Some (file, loc)
  | _ :: results' => findMatch results'
  end.

Definition maxOpenTime (h : Host) (files : list string) : nat :=
  fold_right (fun f t => Nat.max (openTime h f) t) 0 files.

(** The batch as a computation: every file is asked for at once, the
    batch is over when the slowest answer is in. *)
Definition scanBatch (h : Host) (endpointName : text) (files : list string)
  : M (option (string * Location)) :=
  fun w =>
    (Ok (findMatch (promiseAll h endpointName files)),
     MkWorld (trace w ++ map (fun f => (clock w, EvOpenTextDocument f)) files)
             (clock w + maxOpenTime h files)).

(** *** [searchInWorkspace] *)

Fixpoint searchBatches (h : Host) (endpointName : text)
  (searchPatterns : list string) : M (option Location) :=
  match searchPatterns with
  | [] =>
      log "[Search] Not found" ;;;
      ret None
  | pattern :: more =>
      log ("[Search] Pattern: " ++ pattern) ;;;
      files <- await (EvFindFiles pattern) (findFilesTime h pattern)
                     (findFiles h pattern) ;;
      log "[Search] Found files" ;;;
      match files with
      | [] => searchBatches h endpointName more
      | _ :: _ =>
          found <- scanBatch h endpointName files ;;
          match found with
          | Some (file, loc) =>
              log ("[Search] Found in " ++ file) ;;;
              ret (Some loc)
          | None => searchBatches h endpointName more
          end
      end
  end.

Definition searchInWorkspace (h : Host) (endpointName : text)
  : M (option Location) :=
  log "[Search] Looking for endpoint" ;;;
  try_catch
    (setting <- await EvGetConfiguration 0 (searchPatternsSetting h) ;;
     (* read at once: no latency *)
     let searchPatterns :=
       match setting with
       | Some l => l
       | None => defaultSearchPatterns
       end in
     searchBatches h endpointName searchPatterns)
    (fun _ =>
       log "[Search] Error" ;;;
       ret None).

(** *** The click path *)

Definition looksLikeHook (word : text) : bool :=
  starts_with (T "use") word
  && (ends_with (T "Query") word || ends_with (T "LazyQuery") word
      || ends_with (T "Mutation") word).

(** [Promise.race([m, timeoutPromise])] with a timer of [ms]
    milliseconds: the computation wins when it settles before the timer
    fires; otherwise the race resolves to [null] at the time of the
    timer, while the calls already under way run on.  The timer is never
    cleared, so its log line is written in both cases.  The line carries
    the time at which the timer fires; it is recorded when the race is
    set up, so the log is read by its time stamps and not by the order
    of the list. *)
Definition raceTimeout (ms : nat) (m : M (option Location))
  : M (option Location) :=
  fun w =>
    match m w with
    | (r, w') =>
        let fired := (clock w + ms, EvLog "[Navigate] Search timeout (2s)") in
        if clock w' - clock w <? ms
        then (r, MkWorld (trace w' ++ [fired]) (clock w'))
        else (Ok None, MkWorld (trace w' ++ [fired]) (clock w + ms))
    end.

Definition provideDefinition (h : Host) (doc : document) (position : nat)
  : M (option Location) :=
  try_catch
    (wordRange <- ask (wordAt h doc position) ;;
     match wordRange with
     | None => ret None
     | Some word =>
         if negb (looksLikeHook word) then ret None
         else
           match hookNameToEndpointName word with
           | None => ret None
           | Some endpointName =>
               log "[Navigate] Hook to endpoint" ;;;
               match findEndpointDefinition doc endpointName with
               | Some currentDocLocation =>
                   log "[Navigate] Found in current document" ;;;
                   ret (Some currentDocLocation)
               | None =>
                   if isCancellationRequested h then
                     log "[Navigate] Request cancelled" ;;;
                     ret None
                   else
                     log "[Navigate] Not in current document, searching workspace..." ;;;
                     workspaceLocation <-
                       raceTimeout 2000 (searchInWorkspace h endpointName) ;;
                     match workspaceLocation with
                     | Some loc =>
                         log "[Navigate] Total time" ;;;
                         ret (Some loc)
                     | None =>
                         log "[Navigate] Endpoint not found" ;;;
                         ret None
                     end
               end
           end
     end)
    (fun _ =>
       log "[Navigate] Error" ;;;
       ret None).

(** *** The manual command *)

Definition showErrorMessage (msg : string) : M unit :=
  emit (EvShowErrorMessage msg).

Definition showInformationMessage (msg : string) : M unit :=
  emit (EvShowInformationMessage msg).

Definition navigateToEndpoint (h : Host) : M unit :=
  match activeTextEditor h with
  | None => showErrorMessage "No active editor"
  | Some (doc, position) =>
      wordRange <- ask (wordAt h doc position) ;;
      match wordRange with
      | None => showErrorMessage "No word found at cursor"
      | Some word =>
          if negb (looksLikeHook word)
          then showErrorMessage "Not an RTK Query hook"
          else
            match hookNameToEndpointName word with
            | None => showErrorMessage "Could not parse hook name"
            | Some endpointName =>
                let name := string_of_list_ascii endpointName in
                showInformationMessage
                  ("Searching for endpoint: " ++ name ++ "...") ;;;
                location <-
                  match findEndpointDefinition doc endpointName with
                  | Some loc => ret (Some loc)
                  | None => searchInWorkspace h endpointName
                  end ;;
                match location with
                | Some loc =>
                    await (EvShowTextDocument loc) 0 (showTextDocument h loc) ;;;
                    showInformationMessage ("Found: " ++ name)
                | None =>
                    showErrorMessage ("Endpoint not found: " ++ name)
                end
            end
      end
  end.

(* ================================================================== *)
(** ** Readings of the orchestrator used in the statements *)

(** The events of the workspace phase. *)
Definition workspaceEvent (ev : Event) : bool :=
  match ev with
  | EvGetConfiguration | EvFindFiles _ | EvOpenTextDocument _ => true
  | _ => false
  end.

(** The first file, in the order of the list, whose task finds the
    endpoint. *)
Fixpoint firstMatch (h : Host) (endpointName : text) (files : list string)
  : option (string * Location) :=
  match files with
  | [] => None
  | file :: files' =>
      match fileTask h endpointName file with
      | Some loc => Some (file, loc)
      | None => firstMatch h endpointName files'
      end
  end.

Definition readable (h : Host) (file : string) : bool :=
  match openTextDocument h file with
  | Ok _ => true
  | Throw _ => false
  end.

(** Two hosts with the same workspace: the same files behind every
    pattern, the same content behind every file.  Latencies are free. *)
Definition sameWorkspace (h1 h2 : Host) : Prop :=
  (forall pattern, findFiles h1 pattern = findFiles h2 pattern)
  /\ (forall file, openTextDocument h1 file = openTextDocument h2 file).

(** The patterns a search goes through, when the setting can be read. *)
Definition configuredPatterns (h : Host) : option (list string) :=
  match searchPatternsSetting h with
  | Ok (Some l) => Some l
  | Ok None => Some defaultSearchPatterns
  | Throw _ => None
  end.


(** *** A small workspace *)

Definition ex_hook : text := T "useGetSingleAlertQuery".
Definition ex_endpoint : text := T "getSingleAlert".

Definition ex_component : text := T
"export function Alert({ id }) {
  const { data } = useGetSingleAlertQuery(id);
  return data;
}".

Definition ex_api : text := T
"export const alertsApi = baseApi.injectEndpoints({
  endpoints: (builder) => ({
    getSingleAlert: builder.query({ query: (id) => id }),
  }),
});".

(** The hook used in the file that declares its endpoint. *)
Definition ex_self : text := ex_api ++ T "
" ++ ex_component.

Definition ex_other : text := T "export const nothing = 1;".

Definition fileContent (file : string) : Outcome text :=
  if String.eqb file "src/api/alerts.ts" then Ok ex_api
  else if String.eqb file "src/api/copy.ts" then Ok ex_api
  else if String.eqb file "src/api/other.ts" then Ok ex_other
  else Throw "cannot open".

(** A workspace where the first pattern returns a file that cannot be
    read, one without the endpoint and one with it. *)
Definition ex_host : Host :=
  MkHost (Some (Document "src/Alert.tsx" ex_component, 60))
         (fun _ _ => Ok (Some ex_hook))
         false
         (Ok None)
         (fun pattern =>
            if String.eqb pattern "**/features/**/api/*.{ts,tsx}"
            then Ok ["src/api/gone.ts"; "src/api/other.ts"; "src/api/alerts.ts"]
            else Ok [])%string
         (fun _ => 30)
         fileContent
         (fun file => if String.eqb file "src/api/alerts.ts" then 40 else 10)
         (fun _ => Ok tt).

(** The same workspace behind a slow disk: the search needs five
    seconds. *)
Definition ex_slow : Host :=
  MkHost (activeTextEditor ex_host) (wordAt ex_host) false
         (searchPatternsSetting ex_host) (findFiles ex_host)
         (fun _ => 3000)
         (openTextDocument ex_host)
         (fun _ => 2000)
         (showTextDocument ex_host).

(** The same workspace in an editor that fails to show the file. *)
Definition ex_noshow : Host :=
  MkHost (activeTextEditor ex_host) (wordAt ex_host) false
         (searchPatternsSetting ex_host) (findFiles ex_host)
         (findFilesTime ex_host)
         (openTextDocument ex_host)
         (openTime ex_host)
         (fun _ => Throw "cannot show").

(** Two files with the endpoint in one batch, read at different speeds. *)
Definition ex_pair (slowFirst : bool) : Host :=
  MkHost None (fun _ _ => Ok None) false (Ok None)
         (fun _ => Ok ["src/api/alerts.ts"; "src/api/copy.ts"])%string
         (fun _ => 0)
         fileContent
         (fun file =>
            if String.eqb file "src/api/alerts.ts"
            then (if slowFirst then 90 else 10)
            else (if slowFirst then 10 else 90))
         (fun _ => Ok tt).



Definition world0 : World := MkWorld [] 0.

(* ================================================================== *)
(** ** Shapes of text used by the further properties *)

(** Text in which every opening bracket has its closing bracket, of
    whichever kind, and no quote occurs. *)
Inductive Balanced : text -> Prop :=
| BalNil : Balanced []
| BalPlain c w :
    opens c = false -> closes c = false -> is_quote c = false ->
    Balanced w -> Balanced (c :: w)
| BalPair o w1 c w2 :
    opens o = true -> closes c = true ->
    Balanced w1 -> Balanced w2 -> Balanced (o :: w1 ++ c :: w2).

(** A body whose brackets pair off across kinds. *)
Definition ex_mismatched : text := T "endpoints: (b) => ({ a: [(1}, 2] })".

(** A complete declaration of [name] with whitespace around the dot. *)
Definition SpacedDeclAt (txt name : text) (i : nat) : Prop :=
  exists pre ws1 ws2 er ws3 ws4 kind post,
    txt = pre ++ name ++ ws1 ++ ":"%char :: ws2 ++ T "build" ++ er
              ++ ws3 ++ "."%char :: ws4 ++ kind ++ post
    /\ List.length pre = i
    /\ word_opt (last_opt None pre) = false
    /\ spaces ws1 /\ spaces ws2 /\ spaces ws3 /\ spaces ws4
    /\ builderSuffix er kind.

(** A declaration written with a space on each side of the dot. *)
Definition ex_spaced : text := T "x = { getSingleAlert : builder . query({}) }".

(** Two blocks in one document, the endpoint declared in the second. *)
Definition ex_two_blocks : text := T
"const a = base.injectEndpoints({ endpoints: (builder) => ({
    getOther: builder.query({}),
  }) });
const b = base.injectEndpoints({ endpoints: (builder) => ({
    getSingleAlert: builder.query({}),
  }) });".

(* ================================================================== *)
(** ** Readings of the search used by the further properties *)

(** The patterns handed to [findFiles] in a log of calls, in order. *)
Fixpoint enumerated (tr : list (nat * Event)) : list string :=
  match tr with
  | [] => []
  | (_, EvFindFiles pattern) :: tr' => pattern :: enumerated tr'
  | _ :: tr' => enumerated tr'
  end.

(** The files handed to [openTextDocument] in a log of calls. *)
Fixpoint opened (tr : list (nat * Event)) : list string :=
  match tr with
  | [] => []
  | (_, EvOpenTextDocument file) :: tr' => file :: opened tr'
  | _ :: tr' => opened tr'
  end.

(** Calls that put nothing in front of the user. *)
Definition silent (ev : Event) : bool :=
  match ev with
  | EvShowTextDocument _ | EvShowInformationMessage _
  | EvShowErrorMessage _ => false
  | _ => true
  end.

(** What the loop over the patterns comes to, the log and the clock left
    out: the first pattern, in order, one of whose files has the
    endpoint gives the location, the first file of that batch that has
    it; a pattern that cannot be enumerated ends the loop. *)
Fixpoint answerOf (h : Host) (endpointName : text)
  (searchPatterns : list string) : Outcome (option Location) :=
  match searchPatterns with
  | [] => Ok None
  | pattern :: more =>
      match findFiles h pattern with
      | Throw e => Throw e
      | Ok files =>
          match firstMatch h endpointName files with
          | Some (_, loc) => Ok (Some loc)
          | None => answerOf h endpointName more
          end
      end
  end.

Definition workspaceAnswer (h : Host) (endpointName : text)
  : option Location :=
  match configuredPatterns h with
  | Some searchPatterns =>
      match answerOf h endpointName searchPatterns with
      | Ok r => r
      | Throw _ => None
      end
  | None => None
  end.

(** The time the loop takes: each pattern gone through costs its
    enumeration and the slowest read of its batch. *)
Fixpoint batchesTime (h : Host) (endpointName : text)
  (searchPatterns : list string) : nat :=
  match searchPatterns with
  | [] => 0
  | pattern :: more =>
      findFilesTime h pattern
      + match findFiles h pattern with
        | Throw _ => 0
        | Ok files =>
            maxOpenTime h files
            + match firstMatch h endpointName files with
              | Some _ => 0
              | None => batchesTime h endpointName more
              end
        end
  end.

Definition searchTime (h : Host) (endpointName : text) : nat :=
  match configuredPatterns h with
  | Some searchPatterns => batchesTime h endpointName searchPatterns
  | None => 0
  end.

(** A workspace where the first of the default patterns returns a file
    without the endpoint, the second the file that declares it and the
    third a copy of that file. *)
Definition ex_second : Host :=
  MkHost (activeTextEditor ex_host) (wordAt ex_host) false (Ok None)
         (fun pattern =>
            if String.eqb pattern "**/features/**/api/*.{ts,tsx}"
            then Ok ["src/api/other.ts"]
            else if String.eqb pattern "**/api/**/*.{ts,tsx}"
            then Ok ["src/api/alerts.ts"]
            else Ok ["src/api/copy.ts"])%string
         (fun _ => 30)
         fileContent
         (fun _ => 10)
         (fun _ => Ok tt).

(** A workspace where the first pattern cannot be enumerated and every
    other pattern returns the file that declares the endpoint. *)
Definition ex_broken : Host :=
  MkHost (activeTextEditor ex_host) (wordAt ex_host) false (Ok None)
         (fun pattern =>
            if String.eqb pattern "**/features/**/api/*.{ts,tsx}"
            then Throw "cannot enumerate"
            else Ok ["src/api/alerts.ts"])%string
         (fun _ => 30)
         fileContent
         (fun _ => 10)
         (fun _ => Ok tt).

(** The small workspace, the request cancelled by the editor. *)
Definition ex_cancelled : Host :=
  MkHost (activeTextEditor ex_host) (wordAt ex_host) true
         (searchPatternsSetting ex_host) (findFiles ex_host)
         (findFilesTime ex_host)
         (openTextDocument ex_host)
         (openTime ex_host)
         (showTextDocument ex_host).

(** Calls made before the command gives its verdict: anything but the
    display of a file and an error message. *)
Definition preliminary (ev : Event) : bool :=
  match ev with
  | EvShowTextDocument _ | EvShowErrorMessage _ => false
  | _ => true
  end.

Definition notAnError (ev : Event) : bool :=
  match ev with
  | EvShowErrorMessage _ => false
  | _ => true
  end.

(** The three ways a run of the command can end, given its result and
    the calls it has added to the log. *)
Definition commandOutcome (h : Host) (r : Outcome unit)
  (added : list (nat * Event)) : Prop :=
  (exists tr t msg,
      r = Ok tt
      /\ added = tr ++ [(t, EvShowErrorMessage msg)]
      /\ Forall (fun e => preliminary (snd e) = true) tr)
  \/ (exists tr t loc msg,
         r = Ok tt
         /\ added = tr ++ [(t, EvShowTextDocument loc);
                           (t, EvShowInformationMessage msg)]
         /\ showTextDocument h loc = Ok tt
         /\ Forall (fun e => preliminary (snd e) = true) tr)
  \/ (exists e,
         r = Throw e
         /\ Forall (fun ev => notAnError (snd ev) = true) added
         /\ ((exists doc position,
                 activeTextEditor h = Some (doc, position)
                 /\ wordAt h doc position = Throw e)
             \/ exists loc, showTextDocument h loc = Throw e)).

(* ================================================================== *)
(** ** The diagnostic command

    [findApiFiles] writes to the output channel and ends with one
    information message.  What it works on is the channel, as the list
    of its lines and whether it is shown, and the messages shown so
    far; it enumerates with a limit of its own, 200 files, so its
    enumeration is a function of its own, and the relative path of a
    file is the editor's. *)

Record Output : Type := MkOutput {
  lines : list string;
  shown : bool;
  messages : list string
}.

Definition appendLine (msg : string) (o : Output) : Output :=
  MkOutput (lines o ++ [msg]) (shown o) (messages o).

(** [`${n}`] *)
Definition decimal (n : nat) : string :=
  NilZero.string_of_uint (Nat.to_uint n).

Definition check_mark : string :=
  String "226" (String "156" (String "147" EmptyString)).

Definition ballot_x : string :=
  String "226" (String "156" (String "151" EmptyString)).

Definition newline : string := String "010" EmptyString.

(** The lines written for a batch that is not empty. *)
Definition reportFiles (asRelativePath : string -> string)
  (files : list string) (o : Output) : Output :=
  let o1 :=
    appendLine ("  " ++ check_mark ++ " Found "
                ++ decimal (List.length files) ++ " files:") o in
  let o2 :=
    fold_left (fun o' file => appendLine ("    - " ++ asRelativePath file) o')
              (firstn 10 files) o1 in
  if 10 <? List.length files
  then appendLine ("    ... and " ++ decimal (List.length files - 10)
                   ++ " more files") o2
  else o2.

(** The loop over the patterns, with [totalFiles] so far. *)
Fixpoint reportPatterns (findFiles200 : string -> Outcome (list string))
  (asRelativePath : string -> string) (searchPatterns : list string)
  (totalFiles : nat) (o : Output) : Outcome nat * Output :=
  match searchPatterns with
  | [] => (Ok totalFiles, o)
  | pattern :: more =>
      let o1 := appendLine ("Searching: " ++ pattern) o in
      match findFiles200 pattern with
      | Throw e => (Throw e, o1)
      | Ok files =>
          if 0 <? List.length files
          then reportPatterns findFiles200 asRelativePath more
                 (totalFiles + List.length files)
                 (appendLine "" (reportFiles asRelativePath files o1))
          else reportPatterns findFiles200 asRelativePath more totalFiles
                 (appendLine ""
                    (appendLine ("  " ++ ballot_x ++ " No files found") o1))
      end
  end.

Definition findApiFiles (h : Host)
  (findFiles200 : string -> Outcome (list string))
  (asRelativePath : string -> string) (o : Output)
  : Outcome unit * Output :=
  (* clear(), show() *)
  let o1 :=
    appendLine ("=== RTK Query Navigator - API Files Diagnostic ==="
                ++ newline)
               (MkOutput [] true (messages o)) in
  let o2 := appendLine "Search Patterns:" o1 in
  match searchPatternsSetting h with
  | Throw e => (Throw e, o2)
  | Ok setting =>
      let searchPatterns :=
        match setting with
        | Some l => l
        | None => defaultSearchPatterns
        end in
      let o3 :=
        appendLine ""
          (fold_left (fun o' pattern => appendLine ("  - " ++ pattern) o')
                     searchPatterns o2) in
      match reportPatterns findFiles200 asRelativePath searchPatterns 0 o3 with
      | (Throw e, o4) => (Throw e, o4)
      | (Ok totalFiles, o4) =>
          let o5 :=
            appendLine "======================"
              (appendLine ("Total API files found: " ++ decimal totalFiles)
                 (appendLine "======================" o4)) in
          (Ok tt,
           MkOutput (lines o5) (shown o5)
                    (messages o5
                     ++ [("Found " ++ decimal totalFiles
                          ++ " API files. Check Output panel for details.")
                         %string]))
      end
  end.

(** The size of the batch of a pattern. *)
Definition batchSize (findFiles200 : string -> Outcome (list string))
  (pattern : string) : nat :=
  match findFiles200 pattern with
  | Ok files => List.length files
  | Throw _ => 0
  end.

Fixpoint has_prefix (p line : string) : bool :=
  match p, line with
  | EmptyString, _ => true
  | String a p', String b line' => Ascii.eqb a b && has_prefix p' line'
  | String _ _, EmptyString => false
  end.

(** The lines that list files. *)
Definition fileLine (line : string) : bool := has_prefix "    - " line.

(** An enumeration where one file lies behind two of the patterns. *)
Definition ex_overlap (pattern : string) : Outcome (list string) :=
  if String.eqb pattern "**/features/**/api/*.{ts,tsx}"
  then Ok ["src/features/alerts/api/alertsApi.ts"%string]
  else if String.eqb pattern "**/api/**/*.{ts,tsx}"
  then Ok ["src/features/alerts/api/alertsApi.ts"%string]
  else Ok [].

(** An enumeration that fails on the second pattern. *)
Definition ex_failing (pattern : string) : Outcome (list string) :=
  if String.eqb pattern "**/api/**/*.{ts,tsx}"
  then Throw "cannot enumerate"
  else Ok ["src/features/alerts/api/alertsApi.ts"%string].

Definition output0 : Output := MkOutput ["old line"%string] false [].


(* ================================================================== *)
(** * Properties *)

Ltac norm_app := repeat first [ rewrite <- app_assoc | progress cbn [app] ].

(** ** The matcher against the declarative reading *)

Module RegexFacts.

Lemma run_sound (r : re) :
  forall k s x, run r k s = Some x ->
  exists s', matches r s s' /\ k s' = Some x.
Proof.
  induction r as [ | p | a IHa b IHb | a IHa b IHb | g a IHa | i a IHa | | | ];
    intros k s x H; simpl in H.
  - exists s; split; [constructor | exact H].
  - destruct (rest s) as [ | c t] eqn:E; [discriminate | ].
    destruct (p c) eqn:Ep; [ | discriminate].
    eexists; split; [ apply MClass with (c := c) (t := t); assumption | exact H ].
  - apply IHa in H. destruct H as (s1 & M1 & H).
    apply IHb in H. destruct H as (s2 & M2 & H).
    exists s2; split; [ econstructor; eassumption | exact H ].
  - destruct (run a k s) as [y | ] eqn:E.
    + inversion H; subst y. apply IHa in E. destruct E as (s' & M1 & E).
      exists s'; split; [ apply MAltL; exact M1 | exact E ].
    + apply IHb in H. destruct H as (s' & M1 & E').
      exists s'; split; [ apply MAltR; exact M1 | exact E' ].
  - remember (List.length (rest s)) as n eqn:En. clear En. revert s x H.
    induction n as [ | n IHn]; intros s x H.
    + exists s; split; [ apply MStarStop | exact H ].
    + simpl in H.
      assert (Step : forall f y,
                 (forall s', f s' = if pos s <? pos s'
                                    then starLoop (run a) g k n s' else None) ->
                 run a f s = Some y ->
                 exists s', matches (Star g a) s s' /\ k s' = Some y).
      { intros f y Hf Hy. apply IHa in Hy. destruct Hy as (s1 & M1 & Hy).
        rewrite Hf in Hy.
        destruct (pos s <? pos s1) eqn:Hlt; [ | discriminate ].
        apply Nat.ltb_lt in Hlt.
        apply IHn in Hy. destruct Hy as (s2 & M2 & Hy).
        exists s2; split; [ eapply MStarStep; eassumption | exact Hy ]. }
      destruct g.
      * match type of H with
        | match ?e with _ => _ end = _ => destruct e as [y | ] eqn:E
        end.
        -- inversion H; subst y. eapply Step; [ | exact E ]. reflexivity.
        -- exists s; split; [ apply MStarStop | exact H ].
      * destruct (k s) as [y | ] eqn:E.
        -- inversion H; subst y. exists s; split; [ apply MStarStop | exact E ].
        -- eapply Step; [ | exact H ]. reflexivity.
  - apply IHa in H. destruct H as (s' & M1 & H).
    exists (capture i s s'); split; [ apply MGroup; exact M1 | exact H ].
  - destruct (pos s =? 0) eqn:E; [ | discriminate ].
    apply Nat.eqb_eq in E.
    exists s; split; [ apply MBol; exact E | exact H ].
  - destruct (rest s) eqn:E; [ | discriminate ].
    exists s; split; [ apply MEol; exact E | exact H ].
  - destruct (at_boundary s) eqn:E; [ | discriminate ].
    exists s; split; [ apply MWordB; exact E | exact H ].
Qed.

Lemma mstate_eta (s : mstate) :
  MState (pos s) (prev s) (rest s) (caps s) = s.
Proof. destruct s; reflexivity. Qed.

Lemma ascii_eqb_eq (a b : ascii) : ascii_eqb a b = true <-> a = b.
Proof. apply Ascii.eqb_eq. Qed.

Lemma ascii_eqb_refl (a : ascii) : ascii_eqb a a = true.
Proof. apply Ascii.eqb_refl. Qed.

Lemma last_opt_app (pv : option ascii) (u v : text) :
  last_opt pv (u ++ v) = last_opt (last_opt pv u) v.
Proof.
  revert pv; induction u as [ | c u IH]; intro pv; simpl; [reflexivity | apply IH].
Qed.

Lemma starts_with_spec (w r : text) :
  starts_with w r = true <-> exists v, r = w ++ v.
Proof.
  revert r; induction w as [ | c w IH]; intro r; simpl.
  - split; [ intros _; exists r; reflexivity | reflexivity ].
  - destruct r as [ | d r].
    + split; [ discriminate | intros (v & E); discriminate ].
    + rewrite andb_true_iff, ascii_eqb_eq, IH. split.
      * intros (-> & v & ->). exists v; reflexivity.
      * intros (v & E). inversion E; subst. split; [ reflexivity | exists v; reflexivity ].
Qed.

Lemma starts_with_app (w v : text) : starts_with w (w ++ v) = true.
Proof. apply starts_with_spec. exists v; reflexivity. Qed.

Lemma run_Seq a b k s : run (Seq a b) k s = run a (run b k) s.
Proof. reflexivity. Qed.

Lemma run_Alt a b k s :
  run (Alt a b) k s
  = match run a k s with Some x => Some x | None => run b k s end.
Proof. reflexivity. Qed.

Lemma run_Group i a k s :
  run (Group i a) k s = run a (fun s' => k (capture i s s')) s.
Proof. reflexivity. Qed.

Lemma run_Eol k s :
  run Eol k s = match rest s with [] => k s | _ :: _ => None end.
Proof. reflexivity. Qed.

Lemma run_Class p k s :
  run (Class p) k s
  = match rest s with
    | c :: t => if p c then k (MState (S (pos s)) (Some c) t (caps s)) else None
    | [] => None
    end.
Proof. reflexivity. Qed.

Lemma run_Star g a k s :
  run (Star g a) k s = starLoop (run a) g k (List.length (rest s)) s.
Proof. reflexivity. Qed.

(** A literal either is a prefix of what is left, and is consumed, or
    fails. *)
Lemma run_Lit (w : text) :
  forall k s,
    run (Lit w) k s
    = if starts_with w (rest s)
      then k (MState (pos s + List.length w) (last_opt (prev s) w)
                     (skipn (List.length w) (rest s)) (caps s))
      else None.
Proof.
  induction w as [ | c w IH]; intros k s.
  - simpl. rewrite Nat.add_0_r, mstate_eta. reflexivity.
  - change (run (Lit (c :: w)) k s) with (run (Chr c) (run (Lit w) k) s).
    unfold Chr. simpl.
    destruct (rest s) as [ | d t]; [ reflexivity | ].
    destruct (ascii_eqb c d) eqn:E; simpl; [ | reflexivity ].
    apply ascii_eqb_eq in E; subst d.
    rewrite IH. simpl.
    replace (pos s + S (List.length w)) with (S (pos s + List.length w)) by lia.
    reflexivity.
Qed.

(** What a match consumes is a prefix of what was left. *)
Lemma matches_span (r : re) (s s' : mstate) :
  matches r s s' ->
  exists u, rest s = u ++ rest s'
            /\ pos s' = pos s + List.length u
            /\ prev s' = last_opt (prev s) u.
Proof.
  induction 1 as [ s | p s c t E Hp | a b s s1 s2 _ IH1 _ IH2
                 | a b s s' _ IH | a b s s' _ IH | g a s
                 | g a s s1 s2 _ IH1 Hlt _ IH2 | i a s s' _ IH
                 | s E | s E | s E ];
    try (exists []; simpl; repeat split; lia).
  - exists [c]; simpl. rewrite E. repeat split; lia.
  - destruct IH1 as (u1 & E1 & P1 & V1), IH2 as (u2 & E2 & P2 & V2).
    exists (u1 ++ u2). rewrite E1, E2, P2, P1, V2, V1, <- app_assoc, last_opt_app, length_app.
    repeat split; lia.
  - exact IH.
  - exact IH.
  - destruct IH1 as (u1 & E1 & P1 & V1), IH2 as (u2 & E2 & P2 & V2).
    exists (u1 ++ u2). rewrite E1, E2, P2, P1, V2, V1, <- app_assoc, last_opt_app, length_app.
    repeat split; lia.
  - exact IH.
Qed.

(** A successful search stopped at an offset where the pattern matches. *)
Lemma search_sound (r : re) :
  forall s p pv m,
    search r p pv s = Some m ->
    exists u v s',
      s = u ++ v
      /\ index m = p + List.length u
      /\ matches r (MState (index m) (last_opt pv u) v []) s'
      /\ stop m = pos s'.
Proof.
  induction s as [ | c t IH]; intros p pv m H; simpl in H.
  - destruct (run r accept (MState p pv [] [])) as [x | ] eqn:E;
      [ | discriminate ].
    inversion H; subst m; clear H. apply run_sound in E.
    destruct E as (s' & M1 & E). inversion E; subst x.
    exists [], [], s'. simpl. rewrite Nat.add_0_r. auto.
  - destruct (run r accept (MState p pv (c :: t) [])) as [x | ] eqn:E.
    + inversion H; subst m; clear H. apply run_sound in E.
      destruct E as (s' & M1 & E). inversion E; subst x.
      exists [], (c :: t), s'. simpl. rewrite Nat.add_0_r. auto.
    + apply IH in H. destruct H as (u & v & s' & E1 & E2 & M1 & E3).
      exists (c :: u), v, s'. simpl. subst t.
      replace (p + S (List.length u)) with (S p + List.length u) by lia.
      auto.
Qed.

Lemma exec_sound (r : re) (s : text) (m : mresult) :
  exec r s = Some m ->
  exists u v s',
    s = u ++ v
    /\ index m = List.length u
    /\ matches r (MState (List.length u) (last_opt None u) v []) s'
    /\ stop m = pos s'.
Proof.
  intro H. apply search_sound in H.
  destruct H as (u & v & s' & E1 & E2 & M1 & E3). simpl in E2.
  exists u, v, s'. rewrite <- E2. auto.
Qed.

Lemma matches_Seq_inv a b s s' :
  matches (Seq a b) s s' -> exists s1, matches a s s1 /\ matches b s1 s'.
Proof. intro H. inversion H; subst. eauto. Qed.

Lemma matches_Class_inv p s s' :
  matches (Class p) s s' ->
  exists c t, rest s = c :: t /\ p c = true
              /\ s' = MState (S (pos s)) (Some c) t (caps s).
Proof. intro H. inversion H; subst. eauto. Qed.

(** A literal consumes itself. *)
Lemma matches_Lit (w : text) :
  forall s s',
    matches (Lit w) s s' ->
    rest s = w ++ rest s' /\ pos s' = pos s + List.length w
    /\ prev s' = last_opt (prev s) w /\ caps s' = caps s.
Proof.
  induction w as [ | c w IH]; intros s s' H.
  - inversion H; subst. simpl. repeat split; lia.
  - change (Lit (c :: w)) with (Seq (Chr c) (Lit w)) in H.
    apply matches_Seq_inv in H. destruct H as (s1 & H1 & H2).
    apply matches_Class_inv in H1. destruct H1 as (d & t & E & Hc & ->).
    apply ascii_eqb_eq in Hc. subst d.
    apply IH in H2. cbn [rest pos prev caps] in H2.
    destruct H2 as (E2 & P2 & V2 & C2).
    rewrite E, E2, P2, V2, C2. simpl. repeat split; lia.
Qed.

Lemma firstn_length_app (w v : text) : firstn (List.length w) (w ++ v) = w.
Proof. induction w as [ | c w IH]; simpl; [ reflexivity | rewrite IH; reflexivity ]. Qed.

Lemma skipn_length_app (w v : text) : skipn (List.length w) (w ++ v) = v.
Proof. induction w as [ | c w IH]; simpl; [ reflexivity | exact IH ]. Qed.

(** The text between [index] and [stop] is what the match consumed. *)
Lemma exec_consumed (r : re) (s : text) (m : mresult) :
  exec r s = Some m ->
  exists u w v s',
    s = u ++ w ++ v
    /\ index m = List.length u
    /\ stop m = List.length u + List.length w
    /\ matches r (MState (List.length u) (last_opt None u) (w ++ v) []) s'
    /\ rest s' = v
    /\ substring (index m) (stop m) s = w.
Proof.
  intro H. apply exec_sound in H.
  destruct H as (u & v & s' & E1 & E2 & M1 & E3).
  destruct (matches_span M1) as (w & Ew & Pw & _). cbn [rest pos] in Ew, Pw.
  exists u, w, (rest s'), s'. subst v s.
  repeat split; try assumption; try lia.
  unfold substring. rewrite E2, E3, Pw.
  replace (Nat.min (List.length u) (List.length u + List.length w))
    with (List.length u) by lia.
  replace (Nat.max (List.length u) (List.length u + List.length w) - List.length u)
    with (List.length w) by lia.
  rewrite skipn_length_app, firstn_length_app. reflexivity.
Qed.

Lemma matches_Star_Class g p s s' :
  matches (Star g (Class p)) s s' ->
  exists ws, rest s = ws ++ rest s' /\ Forall (fun c => p c = true) ws.
Proof.
  intro H. remember (Star g (Class p)) as r eqn:Er.
  induction H as [ | | | | | g' a s | g' a s s1 s2 H1 _ Hlt H2 IH2 | | | | ];
    try discriminate.
  - exists []. split; [ reflexivity | constructor ].
  - inversion Er; subst g' a. apply matches_Class_inv in H1.
    destruct H1 as (c & t & E & Hc & ->).
    destruct (IH2 eq_refl) as (ws & Ews & Hws). cbn [rest] in Ews.
    exists (c :: ws). rewrite E, Ews. split; [ reflexivity | constructor; assumption ].
Qed.

Lemma matches_WordB_inv s s' :
  matches WordB s s' -> s' = s /\ at_boundary s = true.
Proof. intro H. inversion H; subst. auto. Qed.

(** *** The matcher finds a match when there is one *)

Lemma starLoop_complete (a : re) (g : bool) (k : cont) :
  (forall s s' k' y, matches a s s' -> k' s' = Some y ->
                     exists x, run a k' s = Some x) ->
  forall s s' y,
    matches (Star g a) s s' -> k s' = Some y ->
    forall n, List.length (rest s) <= n ->
              exists x, starLoop (run a) g k n s = Some x.
Proof.
  intros Ha s s' y H. remember (Star g a) as r eqn:Er.
  induction H as [ | | | | | g' a' s | g' a' s s1 s2 H1 _ Hlt H2 IH2 | | | | ];
    try discriminate; inversion Er; subst g' a'; intros Hk n Hn.
  - destruct n as [ | n]; cbn [starLoop]; [ eauto | ].
    destruct g.
    + destruct (run a _ s) as [x | ]; eauto.
    + rewrite Hk. eauto.
  - destruct (matches_span H1) as (u & Eu & Pu & _).
    assert (Hu : List.length (rest s1) < List.length (rest s)).
    { rewrite Eu, length_app. lia. }
    destruct n as [ | n]; [ lia | ]. cbn [starLoop].
    destruct (IH2 eq_refl Hk n) as (x & Ex); [ lia | ].
    destruct (Ha s s1
                (fun s'0 => if pos s <? pos s'0
                            then starLoop (run a) g k n s'0 else None) x H1)
      as (x' & Ex').
    { replace (pos s <? pos s1) with true
        by (symmetry; apply Nat.ltb_lt; exact Hlt).
      exact Ex. }
    destruct g.
    + rewrite Ex'. eauto.
    + destruct (k s) as [z | ]; eauto.
Qed.

Lemma run_complete (r : re) :
  forall s s' k y,
    matches r s s' -> k s' = Some y -> exists x, run r k s = Some x.
Proof.
  induction r as [ | p | a IHa b IHb | a IHa b IHb | g a IHa | i a IHa | | | ];
    intros s s' k y H Hk.
  - inversion H; subst. simpl. eauto.
  - apply matches_Class_inv in H. destruct H as (c & t & E & Hc & ->).
    simpl. rewrite E, Hc. eauto.
  - apply matches_Seq_inv in H. destruct H as (s1 & H1 & H2).
    destruct (IHb _ _ _ _ H2 Hk) as (x1 & E1).
    rewrite run_Seq. eapply IHa; eassumption.
  - rewrite run_Alt. inversion H; subst.
    + destruct (IHa _ _ _ _ H4 Hk) as (x & ->). eauto.
    + destruct (run a k s) as [x | ]; [ eauto | ]. eapply IHb; eassumption.
  - rewrite run_Star. eapply starLoop_complete; eauto.
  - rewrite run_Group. inversion H; subst.
    eapply IHa; [ eassumption | exact Hk ].
  - inversion H; subst. simpl.
    replace (pos s' =? 0) with true by (symmetry; apply Nat.eqb_eq; assumption).
    eauto.
  - inversion H; subst. rewrite run_Eol.
    match goal with E : rest _ = [] |- _ => rewrite E end. eauto.
  - apply matches_WordB_inv in H. destruct H as (-> & HB).
    simpl. rewrite HB. eauto.
Qed.

(** A search succeeds, no later than at any offset where the pattern
    matches. *)
Lemma search_complete (r : re) (u : text) :
  forall p pv v s',
    matches r (MState (p + List.length u) (last_opt pv u) v []) s' ->
    exists m, search r p pv (u ++ v) = Some m
              /\ index m <= p + List.length u.
Proof.
  induction u as [ | c u IH]; intros p pv v s' H.
  - cbn [app List.length last_opt] in *. rewrite Nat.add_0_r in *.
    destruct (@run_complete r _ _ accept s' H eq_refl) as (x & Ex).
    exists (MResult p (pos x) (caps x)).
    destruct v; cbn [search]; rewrite Ex; split; (reflexivity || (cbn; lia)).
  - cbn [app search].
    destruct (run r accept (MState p pv (c :: u ++ v) [])) as [x | ].
    + eexists. split; [ reflexivity | cbn; lia ].
    + cbn [List.length last_opt] in H.
      replace (p + S (List.length u)) with (S p + List.length u) in H by lia.
      destruct (IH _ _ _ _ H) as (m & Em & Hm).
      exists m. split; [ exact Em | cbn [List.length]; lia ].
Qed.

Lemma exec_complete (r : re) (u v : text) (s' : mstate) :
  matches r (MState (List.length u) (last_opt None u) v []) s' ->
  exists m, exec r (u ++ v) = Some m /\ index m <= List.length u.
Proof.
  intro H. apply (@search_complete r u 0 None v s'). exact H.
Qed.

(** Building a match: a literal, and a run of code units of a class. *)
Lemma matches_Lit_intro (w : text) :
  forall p pv r c,
    matches (Lit w) (MState p pv (w ++ r) c)
            (MState (p + List.length w) (last_opt pv w) r c).
Proof.
  induction w as [ | a w IH]; intros p pv r c.
  - cbn. rewrite Nat.add_0_r. constructor.
  - change (Lit (a :: w)) with (Seq (Chr a) (Lit w)).
    apply MSeq with (s1 := MState (S p) (Some a) (w ++ r) c).
    + apply (@MClass (ascii_eqb a) (MState p pv ((a :: w) ++ r) c) a (w ++ r));
        [ reflexivity | apply ascii_eqb_refl ].
    + replace (p + List.length (a :: w)) with (S p + List.length w)
        by (cbn; lia).
      apply IH.
Qed.

Lemma matches_Star_intro (g : bool) (P : ascii -> bool) (ws : text) :
  forall p pv r c,
    Forall (fun x => P x = true) ws ->
    matches (Star g (Class P)) (MState p pv (ws ++ r) c)
            (MState (p + List.length ws) (last_opt pv ws) r c).
Proof.
  induction ws as [ | a ws IH]; intros p pv r c F.
  - cbn. rewrite Nat.add_0_r. apply MStarStop.
  - inversion F as [ | ? ? Ha F']; subst.
    apply MStarStep with (s1 := MState (S p) (Some a) (ws ++ r) c).
    + apply (@MClass P (MState p pv ((a :: ws) ++ r) c) a (ws ++ r));
        [ reflexivity | exact Ha ].
    + cbn. lia.
    + replace (p + List.length (a :: ws)) with (S p + List.length ws)
        by (cbn; lia).
      apply IH. exact F'.
Qed.

End RegexFacts.





(* ================================================================== *)
(** ** Name transformer *)

Module NameTransformer.
Import RegexFacts.

(** What follows the middle group: the three suffixes in their order,
    then the end of the input. *)
Lemma hookTail_spec (s : mstate) :
  match run hookTail accept s with
  | Some x => isSuffix (rest s) = true /\ exists se, caps x = (2, se) :: caps s
  | None => isSuffix (rest s) = false
  end.
Proof.
  unfold hookTail, hookAlts, isSuffix, suffixes, whole.
  rewrite run_Seq, run_Group, !run_Alt, !run_Lit.
  rewrite !run_Eol. unfold capture, accept. cbn [existsb rest caps pos prev].
  destruct (starts_with (T "Query") (rest s)),
           (skipn (List.length (T "Query")) (rest s)),
           (starts_with (T "LazyQuery") (rest s)),
           (skipn (List.length (T "LazyQuery")) (rest s)),
           (starts_with (T "Mutation") (rest s)),
           (skipn (List.length (T "Mutation")) (rest s));
    cbn [andb orb caps]; try reflexivity;
    (split; [ reflexivity | eexists; reflexivity ]).
Qed.

(** The lazy loop of the middle group, against the plain recursion. *)
Lemma lazy_loop (s0 : mstate) (t : text) :
  forall n p pv,
    List.length t <= n ->
    match starLoop (run Dot) false
            (fun s' => run hookTail accept (capture 1 s0 s'))
            n (MState p pv t []) with
    | Some x =>
        exists u, lazyMiddle t = Some u
                  /\ lookup_group 1 (caps x) = Some (pos s0, p + List.length u)
    | None => lazyMiddle t = None
    end.
Proof.
  induction t as [ | c t IH]; intros n p pv Hn.
  - assert (E : forall n, starLoop (run Dot) false
            (fun s' => run hookTail accept (capture 1 s0 s'))
            n (MState p pv [] []) = None).
    { intros [ | m]; reflexivity. }
    rewrite E. reflexivity.
  - destruct n as [ | n]; [ simpl in Hn; lia | ].
    cbn [starLoop].
    pose proof (hookTail_spec (capture 1 s0 (MState p pv (c :: t) []))) as HT.
    destruct (run hookTail accept (capture 1 s0 (MState p pv (c :: t) []))) as [x | ] eqn:E.
    + destruct HT as (HS & se & Hc). cbn [capture rest caps pos] in HS, Hc.
      exists []. cbn [lazyMiddle]. rewrite HS. split; [ reflexivity | ].
      rewrite Hc. cbn [lookup_group Nat.eqb List.length]. rewrite Nat.add_0_r. reflexivity.
    + cbn [capture rest] in HT. cbn [lazyMiddle]. rewrite HT.
      unfold Dot at 1. rewrite run_Class. cbn [rest pos caps].
      destruct (negb (is_line_terminator c)); [ | reflexivity ].
      replace (p <? S p) with true by (symmetry; apply Nat.ltb_lt; lia).
      specialize (IH n (S p) (Some c)). simpl in Hn.
      assert (Hn' : List.length t <= n) by lia. specialize (IH Hn').
      destruct (starLoop (run Dot) false
            (fun s' => run hookTail accept (capture 1 s0 s'))
            n (MState (S p) (Some c) t [])) as [x | ].
      * destruct IH as (u & Hu & Hg). exists (c :: u). rewrite Hu. split; [ reflexivity | ].
        rewrite Hg. cbn [List.length]. f_equal. f_equal. lia.
      * rewrite IH. reflexivity.
Qed.

Lemma search_anchored (X : re) (s : text) :
  forall p pv, search (Seq Bol X) (S p) pv s = None.
Proof.
  induction s as [ | c t IH]; intros p pv; simpl; [ reflexivity | apply IH ].
Qed.

Lemma exec_anchored (X : re) (s : text) :
  exec (Seq Bol X) s
  = match run X accept (MState 0 None s []) with
    | Some x => Some (MResult 0 (pos x) (caps x))
    | None => None
    end.
Proof.
  unfold exec. destruct s as [ | c t]; simpl.
  - destruct (run X accept (MState 0 None [] [])); reflexivity.
  - destruct (run X accept (MState 0 None (c :: t) [])); [ reflexivity | ].
    apply search_anchored.
Qed.

Lemma lazyMiddle_prefix (t : text) :
  forall u, lazyMiddle t = Some u -> exists suf, t = u ++ suf.
Proof.
  induction t as [ | c t IH]; intros u H; cbn [lazyMiddle] in H.
  - destruct (isSuffix []); [ | discriminate ].
    inversion H. exists []; reflexivity.
  - destruct (isSuffix (c :: t)).
    + inversion H. exists (c :: t); reflexivity.
    + destruct (negb (is_line_terminator c)); [ | discriminate ].
      destruct (lazyMiddle t) as [u' | ]; [ | discriminate ].
      inversion H; subst u. destruct (IH u' eq_refl) as (suf & ->).
      exists suf; reflexivity.
Qed.

(** The transformer computes what the plain recursion computes. *)
Lemma hook_refines (s : text) :
  hookNameToEndpointName s = option_map lowerFirst (splitHook s).
Proof.
  unfold hookNameToEndpointName, hookPattern. rewrite exec_anchored.
  rewrite run_Seq, run_Lit. cbn [rest pos prev caps].
  destruct s as [ | c1 [ | c2 [ | c3 r]]]; try reflexivity.
  - cbn [T list_ascii_of_string starts_with]. destruct (ascii_eqb "u" c1); reflexivity.
  - cbn [T list_ascii_of_string starts_with].
    destruct (ascii_eqb "u" c1), (ascii_eqb "s" c2); reflexivity.
  - cbn [T list_ascii_of_string starts_with List.length skipn last_opt].
    unfold splitHook.
    destruct (ascii_eqb "u" c1); [ | destruct r; reflexivity ].
    destruct (ascii_eqb "s" c2); [ | destruct r; reflexivity ].
    destruct (ascii_eqb "e" c3); [ | destruct r; reflexivity ].
    cbn [andb]. rewrite run_Seq, run_Group. unfold Plus. rewrite run_Seq.
    unfold Dot at 1. rewrite run_Class. cbn [rest pos caps Nat.add].
    destruct r as [ | c t]; [ reflexivity | ].
    destruct (negb (is_line_terminator c)); [ | reflexivity ].
    rewrite run_Star. cbn [rest].
    pose proof (@lazy_loop (MState 3 (Some c3) (c :: t) []) t (List.length t) 4 (Some c)
                  (le_n _)) as HL.
    match goal with
    | |- context [starLoop ?b ?g ?k ?n ?st] =>
        change (starLoop b g k n st)
          with (starLoop (run Dot) false
                  (fun s' => run hookTail accept
                               (capture 1 (MState 3 (Some c3) (c :: t) []) s'))
                  (List.length t) (MState 4 (Some c) t []))
    end.
    destruct (starLoop (run Dot) false
                (fun s' => run hookTail accept
                             (capture 1 (MState 3 (Some c3) (c :: t) []) s'))
                (List.length t) (MState 4 (Some c) t [])) as [x | ].
    + destruct HL as (u & Hu & Hg). rewrite Hu.
      unfold group_text. cbn [groups]. rewrite Hg. cbn [pos option_map].
      destruct (lazyMiddle_prefix _ Hu) as (suf & ->).
      unfold substring.
      replace (Nat.max 3 (4 + List.length u)) with (4 + List.length u) by lia.
      replace (Nat.min 3 (4 + List.length u)) with 3 by lia.
      replace (4 + List.length u - 3) with (S (List.length u)) by lia.
      cbn [skipn firstn].
      rewrite firstn_app, Nat.sub_diag, firstn_all. cbn [firstn]. rewrite app_nil_r.
      reflexivity.
    + rewrite HL. reflexivity.
Qed.

Lemma whole_spec (w r : text) : whole w r = true <-> r = w.
Proof.
  unfold whole. rewrite andb_true_iff, starts_with_spec. split.
  - intros ((v & ->) & H). rewrite skipn_length_app in H.
    destruct v; [ apply app_nil_r | discriminate ].
  - intros ->. split; [ exists []; symmetry; apply app_nil_r | ].
    rewrite <- (app_nil_r w) at 2. rewrite skipn_length_app. reflexivity.
Qed.

Lemma isSuffix_spec (r : text) : isSuffix r = true <-> In r suffixes.
Proof.
  unfold isSuffix. rewrite existsb_exists. split.
  - intros (w & Hin & Hw). apply whole_spec in Hw. subst r. exact Hin.
  - intro Hin. exists r. split; [ exact Hin | apply whole_spec; reflexivity ].
Qed.

Lemma isSuffix_false (r : text) : isSuffix r = false -> ~ In r suffixes.
Proof.
  intros H Hin. apply isSuffix_spec in Hin. congruence.
Qed.

(** The lazy walk stops at the first split whose right part is a
    suffix: no split of the same text has a shorter left part. *)
Lemma lazyMiddle_some (t : text) :
  forall u, lazyMiddle t = Some u ->
  exists suf, t = u ++ suf /\ In suf suffixes /\ dotted u
              /\ forall u' suf', t = u' ++ suf' -> In suf' suffixes ->
                                 List.length u <= List.length u'.
Proof.
  induction t as [ | c t IH]; intros u H; cbn [lazyMiddle] in H.
  - destruct (isSuffix []) eqn:E; [ | discriminate ].
    inversion H; subst u. exists []. apply isSuffix_spec in E.
    repeat split; [ exact E | constructor | intros; simpl; lia ].
  - destruct (isSuffix (c :: t)) eqn:E.
    + inversion H; subst u. exists (c :: t). apply isSuffix_spec in E.
      repeat split; [ exact E | constructor | intros; simpl; lia ].
    + destruct (is_line_terminator c) eqn:Ec; [ discriminate | ]. cbn [negb] in H.
      destruct (lazyMiddle t) as [u0 | ]; [ | discriminate ].
      inversion H; subst u.
      destruct (IH u0 eq_refl) as (suf & Et & Hin & Hd & Hmin).
      exists suf. repeat split.
      * simpl. rewrite <- Et. reflexivity.
      * exact Hin.
      * constructor; assumption.
      * intros u' suf' Eu Hin'. destruct u' as [ | d u'].
        -- simpl in Eu. subst suf'. apply isSuffix_false in E. contradiction.
        -- inversion Eu; subst. simpl. apply le_n_S. eapply Hmin; eauto.
Qed.

Lemma lazyMiddle_none (t : text) :
  lazyMiddle t = None ->
  forall u suf, t = u ++ suf -> In suf suffixes -> dotted u -> False.
Proof.
  induction t as [ | c t IH]; intros H u suf Eu Hin Hd; cbn [lazyMiddle] in H.
  - destruct (isSuffix []) eqn:E; [ discriminate | ].
    apply isSuffix_false in E. destruct u; [ | discriminate ].
    simpl in Eu. subst suf. contradiction.
  - destruct (isSuffix (c :: t)) eqn:E; [ discriminate | ].
    apply isSuffix_false in E. destruct u as [ | d u].
    + simpl in Eu. subst suf. contradiction.
    + inversion Eu; subst. inversion Hd as [ | ? ? Hc Hd']; subst.
      rewrite Hc in H. cbn [negb] in H.
      destruct (lazyMiddle (u ++ suf)) eqn:El; [ discriminate | ].
      eapply IH; eauto.
Qed.

Lemma splitHook_some (s m : text) :
  splitHook s = Some m ->
  exists suf, HookShape s m suf
              /\ forall m' suf', HookShape s m' suf' ->
                                 List.length suf' <= List.length suf.
Proof.
  unfold splitHook. intro H.
  destruct s as [ | c1 [ | c2 [ | c3 [ | c t]]]]; try discriminate.
  destruct (ascii_eqb "u" c1) eqn:E1; [ | discriminate ].
  destruct (ascii_eqb "s" c2) eqn:E2; [ | discriminate ].
  destruct (ascii_eqb "e" c3) eqn:E3; [ | discriminate ].
  destruct (is_line_terminator c) eqn:Ec; [ discriminate | ]. cbn [andb negb] in H.
  apply ascii_eqb_eq in E1, E2, E3. subst c1 c2 c3.
  destruct (lazyMiddle t) as [u | ] eqn:El; [ | discriminate ].
  inversion H; subst m.
  destruct (lazyMiddle_some _ El) as (suf & Et & Hin & Hd & Hmin).
  exists suf. split.
  - repeat split.
    + subst t. reflexivity.
    + discriminate.
    + constructor; assumption.
    + exact Hin.
  - intros m' suf' (Es & Hne & Hd' & Hin').
    destruct m' as [ | d u']; [ contradiction | ].
    cbn in Es. inversion Es as [[Ed Et']].
    specialize (Hmin u' suf' Et' Hin').
    assert (EL : List.length (u ++ suf) = List.length (u' ++ suf')) by congruence.
    rewrite !length_app in EL. lia.
Qed.

Lemma splitHook_none (s : text) :
  splitHook s = None -> forall m suf, ~ HookShape s m suf.
Proof.
  unfold splitHook. intros H m suf (Es & Hne & Hd & Hin).
  destruct m as [ | d u]; [ contradiction | ].
  subst s. cbn in H. inversion Hd as [ | ? ? Hc Hd']; subst.
  rewrite Hc in H. cbn in H.
  destruct (lazyMiddle (u ++ suf)) eqn:El; [ discriminate | ].
  eapply lazyMiddle_none; eauto.
Qed.

Lemma toLowerCase_word (c : ascii) :
  is_word c = true -> is_word (toLowerCase c) = true.
Proof.
  destruct c as [b0 b1 b2 b3 b4 b5 b6 b7].
  destruct b0, b1, b2, b3, b4, b5, b6, b7; vm_compute; congruence.
Qed.

(** The name made from a one-word hook is one word: the matcher is
    handed nothing but word characters. *)
Lemma hook_name_is_word (word name : text) :
  wordName word ->
  hookNameToEndpointName word = Some name ->
  wordName name.
Proof.
  intros (_ & Hw). rewrite hook_refines.
  destruct (splitHook word) as [m | ] eqn:E; [ | discriminate ].
  intro H. inversion H; subst name; clear H.
  destruct (splitHook_some _ E) as (suf & (Ew & Hne & _ & _) & _).
  subst word. apply Forall_app in Hw. destruct Hw as (_ & Hw).
  apply Forall_app in Hw. destruct Hw as (Hm & _).
  destruct m as [ | c m]; [ contradiction | ].
  inversion Hm; subst. split; [ discriminate | ].
  constructor; [ apply toLowerCase_word; assumption | assumption ].
Qed.


End NameTransformer.

(* ================================================================== *)
(** ** Block locator *)

Module BlockLocator.
Import RegexFacts.

(** The counter only drops on a closing bracket read outside a string. *)
Lemma depth_drop (c : ascii) (pv : option ascii) (st : scanner) :
  (depth (body c pv st) < depth st)%Z ->
  inString (body c pv st) = false /\ closes c = true.
Proof.
  unfold body, depth_step.
  destruct (inString (quote_step c pv st)) eqn:Ei; cbn [negb].
  - unfold quote_step in *.
    destruct (is_quote c && negb (opt_is pv backslash));
      [ destruct (negb (inString st)); cbn [depth]; [ lia | ];
        destruct (opt_is (stringChar st) c); cbn [depth]; lia
      | lia ].
  - assert (D : depth (quote_step c pv st) = depth st).
    { unfold quote_step.
      destruct (is_quote c && negb (opt_is pv backslash)); [ | reflexivity ].
      destruct (negb (inString st)); [ reflexivity | ].
      destruct (opt_is (stringChar st) c); reflexivity. }
    destruct (opens c); cbn [depth inString]; [ lia | ].
    destruct (closes c); cbn [depth inString]; [ | lia ].
    intros _. split; [ first [ exact Ei | reflexivity ] | reflexivity ].
Qed.

(** A code unit read inside a string leaves the counter alone. *)
Lemma in_string_depth (c : ascii) (pv : option ascii) (st : scanner) :
  inString (quote_step c pv st) = true ->
  depth (body c pv st) = depth st.
Proof.
  intro H. unfold body, depth_step. rewrite H. cbn [negb].
  unfold quote_step in *.
  destruct (is_quote c && negb (opt_is pv backslash)); [ | reflexivity ].
  destruct (negb (inString st)); [ reflexivity | ].
  destruct (opt_is (stringChar st) c); reflexivity.
Qed.

(** Inside a string, a code unit that is not a quote changes nothing at
    all. *)
Lemma in_string_body (c : ascii) (pv : option ascii) (st : scanner) :
  inString st = true -> is_quote c = false -> body c pv st = st.
Proof.
  intros Hi Hq. unfold body, quote_step, depth_step. rewrite Hq. cbn [andb].
  rewrite Hi. reflexivity.
Qed.

Lemma depthAfter_S c s pv st j :
  depthAfter pv (c :: s) st (S j) = depthAfter (Some c) s (body c pv st) j.
Proof. reflexivity. Qed.

Lemma depthAfter_0 c s pv st :
  depthAfter pv (c :: s) st 0 = depth (body c pv st).
Proof. reflexivity. Qed.

(** The loop breaks exactly where the counter first goes negative. *)
Lemma scan_first_negative (s : text) :
  forall i pv st j,
    (0 <= depth st)%Z ->
    FirstNegative pv s st j ->
    scan i pv s st = Some (i + j).
Proof.
  induction s as [ | c s IH]; intros i pv st j Hd (Hj & Hneg & Hbefore).
  - simpl in Hj. lia.
  - cbn [scan]. destruct j as [ | j].
    + rewrite depthAfter_0 in Hneg.
      destruct (depth_drop c pv st) as (E1 & E2); [ lia | ].
      rewrite E1, E2. cbn [negb andb].
      replace (depth (body c pv st) <? 0)%Z with true
        by (symmetry; apply Z.ltb_lt; exact Hneg).
      rewrite Nat.add_0_r. reflexivity.
    + assert (H0 : (0 <= depth (body c pv st))%Z).
      { rewrite <- depthAfter_0 with (s := s). apply Hbefore. lia. }
      replace (depth (body c pv st) <? 0)%Z with false
        by (symmetry; apply Z.ltb_ge; exact H0).
      rewrite andb_false_r.
      replace (i + S j) with (S i + j) by lia.
      apply IH; [ exact H0 | ].
      split; [ simpl in Hj; lia | ]. split.
      * rewrite <- depthAfter_S. exact Hneg.
      * intros k Hk. rewrite <- depthAfter_S. apply Hbefore. lia.
Qed.

(** It runs off the end when the counter never does. *)
Lemma scan_never_negative (s : text) :
  forall i pv st,
    NeverNegative pv s st ->
    scan i pv s st = None.
Proof.
  induction s as [ | c s IH]; intros i pv st Hnn; cbn [scan]; [ reflexivity | ].
  assert (H0 : (0 <= depth (body c pv st))%Z).
  { rewrite <- depthAfter_0 with (s := s). apply Hnn. simpl. lia. }
  replace (depth (body c pv st) <? 0)%Z with false
    by (symmetry; apply Z.ltb_ge; exact H0).
  rewrite andb_false_r. apply IH.
  intros j Hj. rewrite <- depthAfter_S. apply Hnn. simpl. lia.
Qed.

(** Swapping one code unit of a string for another, neither of them a
    quote or a backslash, does not move the break. *)
Lemma scan_in_string (pre : text) :
  forall i pv st c1 c2 post,
    inString (sweep pv pre st) = true ->
    is_quote c1 = false -> is_quote c2 = false ->
    c1 <> backslash -> c2 <> backslash ->
    scan i pv (pre ++ c1 :: post) st = scan i pv (pre ++ c2 :: post) st.
Proof.
  induction pre as [ | c pre IH]; intros i pv st c1 c2 post Hin Hq1 Hq2 Hb1 Hb2.
  - simpl in Hin. cbn [app scan].
    rewrite !in_string_body by assumption. rewrite Hin. cbn [negb andb].
    destruct post as [ | d post]; [ reflexivity | ]. cbn [scan].
    assert (E : forall c', c' <> backslash -> opt_is (Some c') backslash = false).
    { intros c' Hc. cbn [opt_is]. destruct (ascii_eqb c' backslash) eqn:E; [ | reflexivity ].
      apply ascii_eqb_eq in E. contradiction. }
    assert (B : body d (Some c1) st = body d (Some c2) st).
    { unfold body, quote_step. rewrite !E by assumption. reflexivity. }
    rewrite B. reflexivity.
  - cbn [app scan]. cbn [sweep] in Hin.
    rewrite (IH (S i) (Some c) (body c pv st) c1 c2 post) by assumption.
    reflexivity.
Qed.

Lemma char_before_app (i : nat) (pre post : text) :
  i <= List.length pre -> char_before i (pre ++ post) = char_before i pre.
Proof.
  intro H. unfold char_before. destruct i as [ | i]; [ reflexivity | ].
  cbn [Nat.ltb Nat.leb]. apply nth_error_app1. lia.
Qed.

Lemma skipn_in_prefix (i : nat) (pre post : text) :
  i <= List.length pre -> skipn i (pre ++ post) = skipn i pre ++ post.
Proof.
  intro H. rewrite skipn_app.
  replace (i - List.length pre) with 0 by lia. reflexivity.
Qed.

Lemma bracket_plain (c : ascii) :
  opens c = true \/ closes c = true ->
  is_quote c = false /\ c <> backslash.
Proof.
  unfold opens, closes. rewrite !orb_true_iff, !ascii_eqb_eq.
  intros [[-> | ->] | [-> | ->]]; split; (reflexivity || discriminate).
Qed.

(** The marker starts with its literal head, whatever follows. *)
Lemma marker_consumed (txt : text) (m : mresult) :
  exec endpointsPattern txt = Some m ->
  index m <= stop m
  /\ exists w, substring (index m) (stop m) txt = T "endpoints:" ++ w.
Proof.
  intro E. apply exec_consumed in E.
  destruct E as (u & w & v & s' & Et & Ei & Es & M1 & Er & Ew).
  split; [ lia | ].
  unfold endpointsPattern in M1. apply matches_Seq_inv in M1.
  destruct M1 as (s1 & ML & MR). apply matches_Lit in ML.
  destruct ML as (EL & _). cbn [rest] in EL.
  destruct (matches_span MR) as (w' & Ew' & _).
  rewrite Ew', Er in EL. rewrite app_assoc in EL.
  apply app_inv_tail in EL. exists w'. rewrite Ew. rewrite EL. reflexivity.
Qed.

(** C10, as the code has it.  When the marker is found and the counter
    never goes negative in the rest of the text, the block ends right
    after the marker, so the region handed to the matcher is the text of
    the marker itself, which begins with [endpoints:] and is not empty;
    the locator neither falls back to the end of the document nor
    signals absence. *)
Theorem findEndpointsBlock_unbalanced (txt : text) (m : mresult) :
  exec endpointsPattern txt = Some m ->
  NeverNegative (char_before (scan_from m) txt) (skipn (scan_from m) txt)
                scanner0 ->
  findEndpointsBlock txt = Some (Block (index m) (stop m))
  /\ scan_from m = stop m
  /\ exists w, searchRegion txt = (T "endpoints:" ++ w, index m)
               /\ substring (index m) (stop m) txt = T "endpoints:" ++ w.
Proof.
  intros E Hnn. destruct (marker_consumed _ E) as (Hle & w & Ew).
  assert (Ef : scan_from m = stop m) by (unfold scan_from; lia).
  assert (Eb : findEndpointsBlock txt = Some (Block (index m) (stop m))).
  { unfold findEndpointsBlock. rewrite E.
    rewrite scan_never_negative by exact Hnn. rewrite Ef. reflexivity. }
  split; [ exact Eb | ]. split; [ exact Ef | ].
  exists w. unfold searchRegion. rewrite Eb. cbn [start finish].
  rewrite Ew. split; reflexivity.
Qed.

Lemma ex_truncated_never_negative :
  NeverNegative (char_before 19 ex_truncated) (skipn 19 ex_truncated) scanner0.
Proof.
  intros j Hj.
  do 9 (destruct j as [ | j]; [ vm_compute; discriminate | ]).
  vm_compute in Hj. lia.
Qed.

Lemma findEndpointsBlock_unbalanced_witness :
  findEndpointsBlock ex_truncated = Some (Block 0 19)
  /\ 19 = 19
  /\ exists w, searchRegion ex_truncated = (T "endpoints:" ++ w, 0)
               /\ substring 0 19 ex_truncated = T "endpoints:" ++ w.
Proof.
  exact (@findEndpointsBlock_unbalanced ex_truncated (MResult 0 19 []) eq_refl
           ex_truncated_never_negative).
Defined.

(** On the truncated document the marker is found and the counter never
    goes negative, yet the region handed to the matcher is not empty: it
    is the marker.  What is written inside the marker is searched. *)
Lemma unbalanced_region_not_empty :
  exec endpointsPattern ex_truncated = Some (MResult 0 19 [])
  /\ NeverNegative (char_before 19 ex_truncated) (skipn 19 ex_truncated)
                   scanner0
  /\ findEndpointsBlock ex_truncated = Some (Block 0 19)
  /\ fst (searchRegion ex_truncated) = T "endpoints: (b) => ("
  /\ fst (searchRegion ex_truncated) <> []
  /\ findEndpointsBlock ex_in_marker = Some (Block 0 35)
  /\ findEndpointDefinition (Document "api.ts" ex_in_marker) (T "getX")
     = Some (Loc "api.ts" 12).
Proof.
  split; [ reflexivity | ].
  split; [ exact ex_truncated_never_negative | ].
  split; [ reflexivity | ].
  split; [ reflexivity | ].
  split; [ vm_compute; discriminate | ].
  split; vm_compute; reflexivity.
Qed.

End BlockLocator.

(* ================================================================== *)
(** ** Definition matcher *)

Module DefinitionMatcher.
Import RegexFacts.

Lemma unquoted_shape (b : bool) (name : text) (st s' : mstate) :
  matches (Seq WordB (Seq (Lit name)
            (Seq (Star true Ws) (Seq (Chr ":") (Seq (Star true Ws)
             (builderCall b)))))) st s' ->
  at_boundary st = true
  /\ exists ws1 ws2 tl,
       rest st = name ++ ws1 ++ ":"%char :: ws2 ++ T "build" ++ tl
       /\ spaces ws1 /\ spaces ws2.
Proof.
  intro H.
  apply matches_Seq_inv in H. destruct H as (s1 & HB & H).
  apply matches_WordB_inv in HB. destruct HB as (-> & HB).
  apply matches_Seq_inv in H. destruct H as (s2 & HN & H).
  apply matches_Lit in HN. destruct HN as (EN & _).
  apply matches_Seq_inv in H. destruct H as (s3 & HW1 & H).
  apply matches_Star_Class in HW1. destruct HW1 as (ws1 & E1 & F1).
  apply matches_Seq_inv in H. destruct H as (s4 & HC & H).
  apply matches_Class_inv in HC. destruct HC as (c & t & EC & Hc & ->).
  apply ascii_eqb_eq in Hc. subst c.
  apply matches_Seq_inv in H. destruct H as (s5 & HW2 & H).
  apply matches_Star_Class in HW2. destruct HW2 as (ws2 & E2 & F2).
  cbn [rest] in E2.
  unfold builderCall in H.
  apply matches_Seq_inv in H. destruct H as (s6 & HL & _).
  apply matches_Lit in HL. destruct HL as (EL & _).
  split; [ exact HB | ].
  exists ws1, ws2, (rest s6).
  rewrite EN, E1, EC, E2, EL. auto.
Qed.

Lemma quoted_shape (name : text) (st s' : mstate) :
  matches (quotedPattern name) st s' ->
  exists q1 q2 tl,
    rest st = q1 :: name ++ q2 :: tl
    /\ (q1 = squote \/ q1 = dquote)
    /\ (q2 = squote \/ q2 = dquote).
Proof.
  intro H. unfold quotedPattern, anyQuote in H.
  apply matches_Seq_inv in H. destruct H as (s1 & HQ1 & H).
  apply matches_Class_inv in HQ1. destruct HQ1 as (q1 & t1 & E1 & Hq1 & ->).
  apply matches_Seq_inv in H. destruct H as (s2 & HN & H).
  apply matches_Lit in HN. destruct HN as (EN & _). cbn [rest] in EN.
  apply matches_Seq_inv in H. destruct H as (s3 & HQ2 & _).
  apply matches_Class_inv in HQ2. destruct HQ2 as (q2 & t2 & E2 & Hq2 & _).
  exists q1, q2, t2. rewrite E1, EN, E2.
  rewrite orb_true_iff, !ascii_eqb_eq in Hq1, Hq2. auto.
Qed.

(** Where one of the three patterns matches, a declaration starts. *)
Lemma exec_unquoted (b : bool) (name region : text) (m : mresult) :
  exec (Seq WordB (Seq (Lit name)
          (Seq (Star true Ws) (Seq (Chr ":") (Seq (Star true Ws)
           (builderCall b)))))) region = Some m ->
  wordName name ->
  UnquotedAt region name (index m).
Proof.
  intros E (Hne & Hw). apply exec_sound in E.
  destruct E as (u & v & s' & Er & Ei & M1 & _).
  apply unquoted_shape in M1. destruct M1 as (HB & ws1 & ws2 & tl & Ev & F1 & F2).
  cbn [rest] in Ev. unfold at_boundary in HB. cbn [prev rest] in HB.
  exists u, ws1, ws2, tl. subst region. rewrite Ev.
  repeat split; try assumption; try (symmetry; assumption).
  rewrite Ev in HB. destruct name as [ | c name]; [ contradiction | ].
  inversion Hw as [ | ? ? Hc _]; subst. cbn [app hd_error word_opt] in HB.
  rewrite Hc in HB. destruct (word_opt (last_opt None u)); [ discriminate | reflexivity ].
Qed.

Lemma exec_quoted (name region : text) (m : mresult) :
  exec (quotedPattern name) region = Some m ->
  QuotedAt region name (index m).
Proof.
  intro E. apply exec_sound in E.
  destruct E as (u & v & s' & Er & Ei & M1 & _).
  apply quoted_shape in M1. destruct M1 as (q1 & q2 & tl & Ev & H1 & H2).
  cbn [rest] in Ev. exists u, q1, q2, tl. subst region. rewrite Ev.
  repeat split; try assumption; try (symmetry; assumption).
Qed.

(** The tail [build(?:er)?\.(query|mutation)] matches its spellings. *)
Lemma builderCall_intro (er kind post : text) (p : nat) (pv : option ascii) :
  builderSuffix er kind ->
  exists s',
    matches (builderCall false)
            (MState p pv (T "build" ++ er ++ "."%char :: kind ++ post) []) s'.
Proof.
  intros (Her & Hkind). unfold builderCall.
  destruct Her as [-> | ->]; destruct Hkind as [-> | ->];
    eexists;
    (eapply MSeq; [ apply matches_Lit_intro | ]);
    (eapply MSeq;
       [ first [ apply MAltL; apply matches_Lit_intro
               | apply MAltR; apply MEmpty ] | ]);
    (eapply MSeq; [ apply MEmpty | ]);
    (eapply MSeq; [ eapply MClass; [ reflexivity | apply ascii_eqb_refl ] | ]);
    (eapply MSeq; [ apply MEmpty | ]);
    apply MGroup;
    first [ apply MAltL; apply matches_Lit_intro
          | apply MAltR; apply matches_Lit_intro ].
Qed.

Lemma declaration_tail_intro (ws1 ws2 er kind post : text) (p : nat)
  (pv : option ascii) :
  spaces ws1 -> spaces ws2 -> builderSuffix er kind ->
  exists s',
    matches (Seq (Star true Ws) (Seq (Chr ":") (Seq (Star true Ws)
              (builderCall false))))
            (MState p pv
               (ws1 ++ ":"%char :: ws2 ++ T "build" ++ er
                    ++ "."%char :: kind ++ post) [])
            s'.
Proof.
  intros F1 F2 Hb.
  destruct (@builderCall_intro er kind post
              (S (p + List.length ws1) + List.length ws2)
              (last_opt (Some ":"%char) ws2) Hb) as (s' & Hs').
  exists s'.
  eapply MSeq; [ apply matches_Star_intro; exact F1 | ].
  eapply MSeq;
    [ eapply MClass; [ reflexivity | apply ascii_eqb_refl ] | ].
  eapply MSeq; [ apply matches_Star_intro; exact F2 | ].
  exact Hs'.
Qed.

(** A declaration written in the region is found by its pattern, at its
    offset or before. *)
Lemma unquoted_decl_matches (name region : text) (i : nat) :
  wordName name ->
  UnquotedDeclAt region name i ->
  exists m, exec (unquotedPattern name) region = Some m /\ index m <= i.
Proof.
  intros (Hne & Hw) (pre & ws1 & ws2 & er & kind & post & E & Hl & Hb & F1 & F2 & Hs).
  subst region i.
  destruct (@declaration_tail_intro ws1 ws2 er kind post
              (List.length pre + List.length name)
              (last_opt (last_opt None pre) name) F1 F2 Hs) as (s' & Hs').
  apply (@exec_complete (unquotedPattern name) pre _ s').
  unfold unquotedPattern.
  eapply MSeq.
  { apply MWordB. unfold at_boundary. cbn [prev rest]. rewrite Hb.
    destruct name as [ | c name]; [ contradiction | ].
    inversion Hw; subst. cbn. assumption. }
  eapply MSeq; [ apply matches_Lit_intro | ].
  exact Hs'.
Qed.


Lemma firstPattern_shape (name region : text) (i : nat) :
  wordName name ->
  firstPattern (patterns name) region = Some i ->
  UnquotedAt region name i \/ QuotedAt region name i.
Proof.
  intros Hw H. unfold patterns in H. cbn [firstPattern] in H.
  destruct (exec (unquotedPattern name) region) as [m | ] eqn:E1.
  { inversion H; subst i. left. eapply exec_unquoted; eassumption. }
  destruct (exec (quotedPattern name) region) as [m | ] eqn:E2.
  { inversion H; subst i. right. eapply exec_quoted; eassumption. }
  destruct (exec (spacedPattern name) region) as [m | ] eqn:E3; [ | discriminate ].
  inversion H; subst i. left. eapply exec_unquoted; eassumption.
Qed.

(** *** Character classes *)

Lemma space_not_word (c : ascii) : is_space c = true -> is_word c = false.
Proof.
  destruct c as [b0 b1 b2 b3 b4 b5 b6 b7].
  destruct b0, b1, b2, b3, b4, b5, b6, b7; vm_compute; congruence.
Qed.

Lemma quote_not_word (q : ascii) : q = squote \/ q = dquote -> is_word q = false.
Proof. intros [-> | ->]; reflexivity. Qed.

Lemma last_opt_nonempty (pre : text) (x y : option ascii) :
  pre <> [] -> last_opt x pre = last_opt y pre.
Proof. destruct pre; [ contradiction | reflexivity ]. Qed.

Lemma UnquotedAt_whole (txt name : text) (i : nat) :
  UnquotedAt txt name i -> WholeWordAt txt name i.
Proof.
  intros (pre & ws1 & ws2 & tl & E & Hl & Hb & F1 & F2).
  exists pre, (ws1 ++ ":"%char :: ws2 ++ T "build" ++ tl).
  repeat split; try assumption.
  destruct ws1 as [ | c ws1]; [ reflexivity | ].
  inversion F1; subst. cbn. apply space_not_word. assumption.
Qed.

Lemma QuotedAt_whole (txt name : text) (i : nat) :
  QuotedAt txt name i -> WholeWordAt txt name (S i).
Proof.
  intros (pre & q1 & q2 & tl & E & Hl & H1 & H2).
  exists (pre ++ [q1]), (q2 :: tl). repeat split.
  - rewrite E, <- app_assoc. reflexivity.
  - rewrite length_app. simpl. lia.
  - rewrite last_opt_app. cbn. apply quote_not_word. exact H1.
  - cbn. apply quote_not_word. exact H2.
Qed.

(** *** The region and the document *)

Lemma scan_range (s : text) :
  forall i pv st e, scan i pv s st = Some e -> i <= e.
Proof.
  induction s as [ | c s IH]; intros i pv st e H; cbn [scan] in H; [ discriminate | ].
  destruct (negb (inString (body c pv st)) && closes c
            && (depth (body c pv st) <? 0)%Z).
  - inversion H. lia.
  - apply IH in H. lia.
Qed.

Lemma matches_endpoints (st s' : mstate) :
  matches endpointsPattern st s' ->
  exists ws w,
    rest st = (T "endpoints:" ++ ws ++ "("%char :: w) ++ rest s' /\ spaces ws.
Proof.
  intro H. unfold endpointsPattern in H.
  apply matches_Seq_inv in H. destruct H as (s1 & HL & H).
  apply matches_Lit in HL. destruct HL as (EL & _).
  apply matches_Seq_inv in H. destruct H as (s2 & HW & H).
  apply matches_Star_Class in HW. destruct HW as (ws & Ews & Fws).
  apply matches_Seq_inv in H. destruct H as (s3 & HC & H).
  apply matches_Class_inv in HC. destruct HC as (c & t & EC & Hc & ->).
  apply ascii_eqb_eq in Hc. subst c.
  destruct (matches_span H) as (w & Ew & _). cbn [rest] in Ew.
  exists ws, w. rewrite EL, Ews, EC, Ew. split; [ | exact Fws ].
  norm_app. reflexivity.
Qed.

(** The region handed to the matcher is the whole text, or a stretch of
    it that starts with the marker. *)
Lemma searchRegion_shape (txt : text) :
  searchRegion txt = (txt, 0)
  \/ exists A ws w B,
       txt = A ++ (T "endpoints:" ++ ws ++ "("%char :: w) ++ B
       /\ searchRegion txt
          = (T "endpoints:" ++ ws ++ "("%char :: w, List.length A)
       /\ spaces ws.
Proof.
  unfold searchRegion, findEndpointsBlock.
  destruct (exec endpointsPattern txt) as [m | ] eqn:E; [ | left; reflexivity ].
  right.
  assert (Hfin : exists e,
             match scan (scan_from m) (char_before (scan_from m) txt)
                        (skipn (scan_from m) txt) scanner0 with
             | Some i => Some (Block (index m) i)
             | None => Some (Block (index m) (scan_from m))
             end = Some (Block (index m) e) /\ scan_from m <= e).
  { destruct (scan (scan_from m) (char_before (scan_from m) txt)
                   (skipn (scan_from m) txt) scanner0) as [e | ] eqn:Es.
    - exists e. split; [ reflexivity | eapply scan_range; exact Es ].
    - exists (scan_from m). split; [ reflexivity | lia ]. }
  destruct Hfin as (e & -> & He). cbn [start finish].
  apply exec_sound in E. destruct E as (u & v & s' & Et & Ei & M1 & Es).
  destruct (matches_span M1) as (W & EW & PW & _). cbn [rest pos] in EW, PW.
  apply matches_endpoints in M1. destruct M1 as (ws & w & EM & Fws).
  cbn [rest] in EM. rewrite EW in EM. apply app_inv_tail in EM.
  assert (Hstop : List.length u + List.length W <= e).
  { unfold scan_from in He. lia. }
  exists u, ws, (w ++ firstn (e - List.length u - List.length W) (rest s')),
         (skipn (e - List.length u - List.length W) (rest s')).
  assert (Hreg : substring (index m) e txt
                 = W ++ firstn (e - List.length u - List.length W) (rest s')).
  { unfold substring. rewrite Ei.
    replace (Nat.min (List.length u) e) with (List.length u) by lia.
    replace (Nat.max (List.length u) e - List.length u) with (e - List.length u) by lia.
    rewrite Et, skipn_length_app, EW, firstn_app.
    rewrite firstn_all2 by lia. reflexivity. }
  rewrite Hreg, Ei. subst W.
  split; [ | split; [ | exact Fws ] ].
  - rewrite Et, EW. norm_app.
    rewrite (firstn_skipn (e - List.length u
                           - List.length (T "endpoints:" ++ ws ++ "("%char :: w))
                          (rest s')).
    reflexivity.
  - f_equal. norm_app. reflexivity.
Qed.

(** The longest run of code units of a class at the head of a text is
    unique. *)
Lemma max_prefix_unique (P : ascii -> bool) (n1 : text) :
  forall n2 c1 c2 r1 r2,
    n1 ++ c1 :: r1 = n2 ++ c2 :: r2 ->
    Forall (fun c => P c = true) n1 -> Forall (fun c => P c = true) n2 ->
    P c1 = false -> P c2 = false ->
    n1 = n2 /\ c1 = c2 /\ r1 = r2.
Proof.
  induction n1 as [ | a n1 IH]; intros n2 c1 c2 r1 r2 E F1 F2 H1 H2.
  - destruct n2 as [ | b n2].
    + inversion E. auto.
    + inversion E; subst. inversion F2; subst. congruence.
  - destruct n2 as [ | b n2].
    + inversion E; subst. inversion F1; subst. congruence.
    + inversion E; subst. inversion F1; subst. inversion F2; subst.
      destruct (IH n2 c1 c2 r1 r2) as (-> & -> & ->); auto.
Qed.

(** No declaration starts on the marker itself. *)
Lemma not_at_marker (name ws1 ws2 tl ws w : text) :
  wordName name -> spaces ws1 -> spaces ws2 -> spaces ws ->
  name ++ ws1 ++ ":"%char :: ws2 ++ T "build" ++ tl
  = T "endpoints:" ++ ws ++ "("%char :: w ->
  False.
Proof.
  intros (_ & Hw) F1 F2 F E.
  change (T "endpoints:" ++ ws ++ "("%char :: w)
    with (T "endpoints" ++ ":"%char :: ws ++ "("%char :: w) in E.
  assert (Hend : Forall (fun c => is_word c = true) (T "endpoints")).
  { repeat constructor. }
  destruct ws1 as [ | s ws1].
  - cbn [app] in E.
    destruct (@max_prefix_unique is_word _ _ _ _ _ _ E Hw Hend eq_refl eq_refl)
      as (_ & _ & E2).
    change (T "build" ++ tl) with ("b"%char :: T "uild" ++ tl) in E2.
    destruct (@max_prefix_unique is_space _ _ _ _ _ _ E2 F2 F eq_refl eq_refl)
      as (_ & Hc & _).
    discriminate.
  - inversion F1 as [ | ? ? Hs F1']; subst. cbn [app] in E.
    destruct (@max_prefix_unique is_word _ _ _ _ _ _ E Hw Hend
                (space_not_word _ Hs) eq_refl) as (_ & Hc & _).
    subst s. discriminate.
Qed.

Lemma UnquotedAt_embed (A B region name : text) (i : nat) :
  UnquotedAt region name i ->
  (A = [] \/ 0 < i) ->
  UnquotedAt (A ++ region ++ B) name (List.length A + i).
Proof.
  intros (pre & ws1 & ws2 & tl & E & Hl & Hb & F1 & F2) HA.
  exists (A ++ pre), ws1, ws2, (tl ++ B). subst region.
  repeat split; try assumption.
  - norm_app. reflexivity.
  - rewrite length_app. lia.
  - destruct HA as [-> | Hi]; [ exact Hb | ].
    rewrite last_opt_app.
    rewrite (@last_opt_nonempty pre _ None); [ exact Hb | ].
    destruct pre; [ simpl in Hl; lia | discriminate ].
Qed.

Lemma QuotedAt_embed (A B region name : text) (i : nat) :
  QuotedAt region name i ->
  QuotedAt (A ++ region ++ B) name (List.length A + i).
Proof.
  intros (pre & q1 & q2 & tl & E & Hl & H1 & H2).
  exists (A ++ pre), q1, q2, (tl ++ B). subst region.
  repeat split; try assumption.
  - norm_app. reflexivity.
  - rewrite length_app. lia.
Qed.

(** The lookup is the loop over the patterns, moved to the offsets of
    the document. *)
Lemma findEndpointDefinition_byPriority (doc : document) (name : text) :
  findEndpointDefinition doc name
  = option_map (fun i => Loc (uri doc)
                             (snd (searchRegion (getText doc)) + i))
               (byPriority name (fst (searchRegion (getText doc)))).
Proof.
  unfold findEndpointDefinition, byPriority, patterns.
  destruct (searchRegion (getText doc)) as (region, off).
  cbn [firstPattern fst snd].
  destruct (exec (unquotedPattern name) region); [ reflexivity | ].
  destruct (exec (quotedPattern name) region); [ reflexivity | ].
  destruct (exec (spacedPattern name) region); reflexivity.
Qed.

(** C2.  A location returned for a one-word candidate is the start of a
    declaration in which the candidate stands as a whole word of the
    document: either the candidate starts there, with no word character
    before it and none after it, or a quote stands there with the
    candidate between it and a second quote.  A declaration of the
    candidate written in the region is found.  In a block that also
    declares [myGetAlertActivityTrend] and [mygetAlertActivityTrend],
    looking up [getAlertActivityTrend] returns the offset where the
    declaration of that very name starts. *)
Theorem findEndpointDefinition_whole_word :
  (forall doc name loc,
      wordName name ->
      findEndpointDefinition doc name = Some loc ->
      loc_uri loc = uri doc
      /\ ((UnquotedAt (getText doc) name (loc_offset loc)
           /\ WholeWordAt (getText doc) name (loc_offset loc))
          \/ (QuotedAt (getText doc) name (loc_offset loc)
              /\ WholeWordAt (getText doc) name (S (loc_offset loc)))))
  /\ (forall doc name i,
         wordName name ->
         UnquotedDeclAt (fst (searchRegion (getText doc))) name i ->
         exists loc,
           findEndpointDefinition doc name = Some loc
           /\ loc_offset loc <= snd (searchRegion (getText doc)) + i)
  /\ findEndpointDefinition (Document "api.ts" ex_lookalike) ex_candidate
     = Some (Loc "api.ts" 218)
  /\ substring 218 263 ex_lookalike
     = T "getAlertActivityTrend: builder.query<X, void>"
  /\ substring 68 91 ex_lookalike = T "myGetAlertActivityTrend"
  /\ substring 143 166 ex_lookalike = T "mygetAlertActivityTrend".
Proof.
  split; [ | split; [ | repeat split; reflexivity ] ];
    [ | intros doc name i Hw HD;
        destruct (unquoted_decl_matches Hw HD) as (m & Em & Hm);
        rewrite findEndpointDefinition_byPriority; unfold byPriority;
        rewrite Em; cbn [option_map]; eexists;
        split; [ reflexivity | cbn [loc_offset]; lia ] ].
  intros doc name loc Hw H. unfold findEndpointDefinition in H.
  destruct (searchRegion (getText doc)) as (region, off) eqn:ER.
  destruct (firstPattern (patterns name) region) as [i | ] eqn:EF; [ | discriminate ].
  inversion H; subst loc; clear H. cbn [loc_uri loc_offset].
  split; [ reflexivity | ].
  pose proof (firstPattern_shape _ Hw EF) as Hshape.
  destruct (searchRegion_shape (getText doc)) as [E0 | (A & ws & w & B & Et & E1 & Fws)].
  - rewrite E0 in ER. inversion ER; subst region off. cbn [Nat.add].
    destruct Hshape as [HU | HQ].
    + left. split; [ exact HU | apply UnquotedAt_whole; exact HU ].
    + right. split; [ exact HQ | apply QuotedAt_whole; exact HQ ].
  - rewrite E1 in ER. inversion ER; subst region off. rewrite Et.
    destruct Hshape as [HU | HQ].
    + left.
      assert (Hi : 0 < i).
      { destruct HU as (pre & ws1 & ws2 & tl & E & Hl & _ & F1 & F2).
        destruct pre as [ | c pre]; [ | simpl in Hl; lia ].
        exfalso. cbn [app] in E. symmetry in E.
        exact (@not_at_marker name ws1 ws2 tl ws w Hw F1 F2 Fws E). }
      assert (HU' := @UnquotedAt_embed A B _ _ _ HU (or_intror Hi)).
      split; [ exact HU' | apply UnquotedAt_whole; exact HU' ].
    + right.
      assert (HQ' := @QuotedAt_embed A B _ _ _ HQ).
      split; [ exact HQ' | apply QuotedAt_whole; exact HQ' ].
Qed.

Lemma ex_candidate_word : wordName ex_candidate.
Proof. split; [ discriminate | repeat constructor ]. Qed.

Lemma findEndpointDefinition_whole_word_witness :
  wordName ex_candidate
  /\ loc_uri (Loc "api.ts" 218) = "api.ts"%string
  /\ ((UnquotedAt ex_lookalike ex_candidate 218
       /\ WholeWordAt ex_lookalike ex_candidate 218)
      \/ (QuotedAt ex_lookalike ex_candidate 218
          /\ WholeWordAt ex_lookalike ex_candidate 219)).
Proof.
  split; [ exact ex_candidate_word | ].
  exact (proj1 findEndpointDefinition_whole_word
           (Document "api.ts" ex_lookalike) ex_candidate (Loc "api.ts" 218)
           ex_candidate_word eq_refl).
Defined.

(** The tail [build(?:er)?\s*\.\s*(query|mutation)] matches its
    spellings. *)
Lemma spacedCall_intro (er ws3 ws4 kind post : text) (p : nat)
  (pv : option ascii) :
  builderSuffix er kind -> spaces ws3 -> spaces ws4 ->
  exists s',
    matches (builderCall true)
            (MState p pv
               (T "build" ++ er ++ ws3 ++ "."%char :: ws4 ++ kind ++ post) [])
            s'.
Proof.
  intros (Her & Hkind) F3 F4. unfold builderCall.
  destruct Her as [-> | ->]; destruct Hkind as [-> | ->];
    rewrite ?app_nil_l;
    eexists;
    (eapply MSeq; [ apply matches_Lit_intro | ]);
    (eapply MSeq;
       [ first [ apply MAltL; apply matches_Lit_intro
               | apply MAltR; apply MEmpty ] | ]);
    (eapply MSeq; [ apply (@matches_Star_intro true is_space ws3); exact F3 | ]);
    (eapply MSeq; [ eapply MClass; [ reflexivity | apply ascii_eqb_refl ] | ]);
    (eapply MSeq; [ apply (@matches_Star_intro true is_space ws4); exact F4 | ]);
    apply MGroup;
    first [ apply MAltL; apply matches_Lit_intro
          | apply MAltR; apply matches_Lit_intro ].
Qed.

Arguments spacedCall_intro : clear implicits.

Lemma spaced_decl_matches (name region : text) (i : nat) :
  wordName name ->
  SpacedDeclAt region name i ->
  exists m, exec (spacedPattern name) region = Some m /\ index m <= i.
Proof.
  intros (Hne & Hw)
         (pre & ws1 & ws2 & er & ws3 & ws4 & kind & post
          & E & Hl & Hb & F1 & F2 & F3 & F4 & Hs).
  subst region i.
  destruct (spacedCall_intro er ws3 ws4 kind post
              (S (List.length pre + List.length name + List.length ws1)
               + List.length ws2)
              (last_opt (Some ":"%char) ws2) Hs F3 F4) as (s' & Hs').
  apply (@exec_complete (spacedPattern name) pre _ s').
  unfold spacedPattern.
  eapply MSeq.
  { apply MWordB. unfold at_boundary. cbn [prev rest]. rewrite Hb.
    destruct name as [ | c name]; [ contradiction | ].
    inversion Hw; subst. cbn. assumption. }
  eapply MSeq; [ apply matches_Lit_intro | ].
  eapply MSeq; [ apply (@matches_Star_intro true is_space ws1); exact F1 | ].
  eapply MSeq;
    [ eapply MClass; [ reflexivity | apply ascii_eqb_refl ] | ].
  eapply MSeq; [ apply (@matches_Star_intro true is_space ws2); exact F2 | ].
  exact Hs'.
Qed.

Arguments spaced_decl_matches : clear implicits.







End DefinitionMatcher.

(* ================================================================== *)
(** ** Computations *)

Module Effects.

Lemma bind_emit {B} (ev : Event) (f : unit -> M B) (w : World) :
  bind (emit ev) f w = f tt (MkWorld (trace w ++ [(clock w, ev)]) (clock w)).
Proof. reflexivity. Qed.

Lemma bind_log {B} (msg : string) (f : unit -> M B) (w : World) :
  bind (log msg) f w
  = f tt (MkWorld (trace w ++ [(clock w, EvLog msg)]) (clock w)).
Proof. reflexivity. Qed.

Lemma bind_ret {A B} (a : A) (f : A -> M B) (w : World) :
  bind (ret a) f w = f a w.
Proof. reflexivity. Qed.

Lemma bind_ask {A B} (r : Outcome A) (f : A -> M B) (w : World) :
  bind (ask r) f w
  = match r with Ok a => f a w | Throw e => (Throw e, w) end.
Proof. unfold bind, ask. destruct r; reflexivity. Qed.

Lemma bind_await {A B} (ev : Event) (t : nat) (r : Outcome A) (f : A -> M B)
  (w : World) :
  bind (await ev t r) f w
  = match r with
    | Ok a => f a (MkWorld (trace w ++ [(clock w, ev)]) (clock w + t))
    | Throw e => (Throw e, MkWorld (trace w ++ [(clock w, ev)]) (clock w + t))
    end.
Proof. unfold bind, await. destruct r; reflexivity. Qed.

(** A [try] whose handler does not throw does not throw. *)
Lemma try_catch_total {A} (m : M A) (handler : string -> M A) (w : World) :
  (forall e w1, exists r w', handler e w1 = (Ok r, w')) ->
  exists r w', try_catch m handler w = (Ok r, w').
Proof.
  intro H. unfold try_catch. destruct (m w) as [[a | e] w1]; eauto.
Qed.

End Effects.

(* ================================================================== *)
(** ** One batch of files *)

Module BatchScan.
Import Effects.

Section Settling.
Variable h : Host.

Lemma settle_perm (x : nat * string) (l : list (nat * string)) :
  Permutation (settle h x l) (x :: l).
Proof.
  induction l as [ | y l IH]; simpl; [ apply Permutation_refl | ].
  destruct (openTime h (snd x) <=? openTime h (snd y)).
  - apply Permutation_refl.
  - eapply Permutation_trans; [ apply perm_skip; exact IH | apply perm_swap ].
Qed.

(** Whatever the latencies, every task settles exactly once. *)
Lemma settleOrder_perm (l : list (nat * string)) :
  Permutation (settleOrder h l) l.
Proof.
  induction l as [ | x l IH]; simpl; [ apply Permutation_refl | ].
  eapply Permutation_trans; [ apply settle_perm | apply perm_skip; exact IH ].
Qed.

End Settling.

Lemma setSlot_length {A} (i : nat) (x : A) (l : list A) :
  List.length (setSlot i x l) = List.length l.
Proof.
  revert i; induction l as [ | y l IH]; intros [ | i]; simpl; auto.
Qed.

Lemma nth_error_setSlot_same {A} (i : nat) (x : A) (l : list A) :
  i < List.length l -> nth_error (setSlot i x l) i = Some x.
Proof.
  revert i; induction l as [ | y l IH]; intros [ | i] H; simpl in *; try lia.
  - reflexivity.
  - apply IH. lia.
Qed.

Lemma nth_error_setSlot_other {A} (i j : nat) (x : A) (l : list A) :
  i <> j -> nth_error (setSlot i x l) j = nth_error l j.
Proof.
  revert i j; induction l as [ | y l IH]; intros [ | i] [ | j] H; simpl; auto.
  - contradiction.
Qed.

Section Filling.
Variable h : Host.
Variable endpointName : text.

Lemma fold_fill_length (order : list (nat * string)) :
  forall values,
    List.length (fold_left (fill h endpointName) order values)
    = List.length values.
Proof.
  induction order as [ | t order IH]; intro values; simpl; [ reflexivity | ].
  rewrite IH. apply setSlot_length.
Qed.

Lemma fold_fill_untouched (order : list (nat * string)) :
  forall values j,
    ~ In j (map fst order) ->
    nth_error (fold_left (fill h endpointName) order values) j
    = nth_error values j.
Proof.
  induction order as [ | t order IH]; intros values j Hj; simpl; [ reflexivity | ].
  rewrite IH by (intro; apply Hj; right; assumption).
  apply nth_error_setSlot_other. intro E. apply Hj. left. exact E.
Qed.

(** A slot holds what the one task with its index resolved to, in
    whatever order the tasks settled. *)
Lemma fold_fill_slot (order : list (nat * string)) :
  forall values t,
    NoDup (map fst order) ->
    In t order ->
    fst t < List.length values ->
    nth_error (fold_left (fill h endpointName) order values) (fst t)
    = Some (slot h endpointName t).
Proof.
  induction order as [ | u order IH]; intros values t Hnd Hin Hlt; simpl.
  - contradiction.
  - inversion Hnd as [ | ? ? Hnotin Hnd']; subst.
    destruct Hin as [-> | Hin].
    + rewrite fold_fill_untouched by exact Hnotin.
      apply nth_error_setSlot_same. exact Hlt.
    + apply IH; [ exact Hnd' | exact Hin | ].
      unfold fill. rewrite setSlot_length. exact Hlt.
Qed.

End Filling.

Lemma indexed_fst {A} (l : list A) :
  forall k, map fst (indexed k l) = seq k (List.length l).
Proof.
  induction l as [ | x l IH]; intro k; simpl; [ reflexivity | ].
  rewrite IH. reflexivity.
Qed.

Lemma indexed_nth {A} (l : list A) :
  forall k j x, nth_error l j = Some x -> In (k + j, x) (indexed k l).
Proof.
  induction l as [ | y l IH]; intros k [ | j] x H; simpl in *; try discriminate.
  - inversion H; subst. left. f_equal. lia.
  - right. replace (k + S j) with (S k + j) by lia. apply IH. exact H.
Qed.

(** [Promise.all] hands back the results in the order of the files. *)
Lemma promiseAll_spec (h : Host) (endpointName : text) (files : list string) :
  promiseAll h endpointName files
  = map (fun f => Some (f, fileTask h endpointName f)) files.
Proof.
  unfold promiseAll.
  set (order := settleOrder h (indexed 0 files)).
  assert (Hperm : Permutation order (indexed 0 files))
    by apply settleOrder_perm.
  assert (Hnd : NoDup (map fst order)).
  { eapply Permutation_NoDup.
    - apply Permutation_sym, Permutation_map, Hperm.
    - rewrite indexed_fst. apply seq_NoDup. }
  apply nth_error_ext. intro j.
  destruct (nth_error files j) as [f | ] eqn:Ef.
  - rewrite nth_error_map, Ef. cbn [option_map].
    assert (Hin : In (j, f) order).
    { eapply Permutation_in; [ apply Permutation_sym, Hperm | ].
      apply (indexed_nth files 0 j). exact Ef. }
    assert (Hlt : j < List.length files).
    { apply nth_error_Some. congruence. }
    rewrite (@fold_fill_slot h endpointName order _ (j, f) Hnd Hin);
      [ reflexivity | ].
    cbn [fst]. rewrite repeat_length. exact Hlt.
  - rewrite nth_error_map, Ef. cbn [option_map].
    apply nth_error_None. rewrite fold_fill_length, repeat_length.
    apply nth_error_None. exact Ef.
Qed.

Lemma findMatch_map (h : Host) (endpointName : text) (files : list string) :
  findMatch (map (fun f => Some (f, fileTask h endpointName f)) files)
  = firstMatch h endpointName files.
Proof.
  induction files as [ | f files IH]; simpl; [ reflexivity | ].
  destruct (fileTask h endpointName f); [ reflexivity | exact IH ].
Qed.

(** The batch picks the first file of the list that has the endpoint. *)
Lemma batch_result (h : Host) (endpointName : text) (files : list string) :
  findMatch (promiseAll h endpointName files) = firstMatch h endpointName files.
Proof. rewrite promiseAll_spec. apply findMatch_map. Qed.

Lemma unreadable_no_match (h : Host) (endpointName : text) (f : string) :
  readable h f = false -> fileTask h endpointName f = None.
Proof.
  unfold readable, fileTask. destruct (openTextDocument h f); [ discriminate | reflexivity ].
Qed.

Lemma firstMatch_filter (h : Host) (endpointName : text) (files : list string) :
  firstMatch h endpointName (filter (readable h) files)
  = firstMatch h endpointName files.
Proof.
  induction files as [ | f files IH]; simpl; [ reflexivity | ].
  destruct (readable h f) eqn:E; simpl.
  - rewrite IH. reflexivity.
  - rewrite (unreadable_no_match h endpointName f E). exact IH.
Qed.

Lemma firstMatch_some (h : Host) (endpointName : text) (files : list string) :
  forall g loc,
    In g files -> fileTask h endpointName g = Some loc ->
    exists g' loc',
      firstMatch h endpointName files = Some (g', loc')
      /\ In g' files /\ fileTask h endpointName g' = Some loc'.
Proof.
  induction files as [ | f files IH]; intros g loc Hin Hg; simpl; [ contradiction | ].
  destruct (fileTask h endpointName f) as [loc' | ] eqn:Ef.
  - exists f, loc'. auto.
  - destruct Hin as [-> | Hin]; [ congruence | ].
    destruct (IH g loc Hin Hg) as (g' & loc' & E & Hin' & Hg').
    exists g', loc'. auto.
Qed.

Lemma firstMatch_after (h : Host) (endpointName : text) (before : list string) :
  forall g after loc,
    (forall f, In f before -> fileTask h endpointName f = None) ->
    fileTask h endpointName g = Some loc ->
    firstMatch h endpointName (before ++ g :: after) = Some (g, loc).
Proof.
  induction before as [ | f before IH]; intros g after loc Hb Hg; simpl.
  - rewrite Hg. reflexivity.
  - rewrite (Hb f) by (left; reflexivity). apply IH; [ | exact Hg ].
    intros f' Hf'. apply Hb. right. exact Hf'.
Qed.

Lemma firstMatch_same (h1 h2 : Host) (endpointName : text) (files : list string) :
  (forall file, openTextDocument h1 file = openTextDocument h2 file) ->
  firstMatch h1 endpointName files = firstMatch h2 endpointName files.
Proof.
  intro Hs. induction files as [ | f files IH]; simpl; [ reflexivity | ].
  unfold fileTask. rewrite Hs, IH. reflexivity.
Qed.

Lemma searchInWorkspace_total (h : Host) (endpointName : text) (w : World) :
  exists r w', searchInWorkspace h endpointName w = (Ok r, w').
Proof.
  unfold searchInWorkspace. rewrite bind_log.
  apply try_catch_total. intros e w1. rewrite bind_log. unfold ret. eauto.
Qed.

(** C6.  A batch asks for every one of its files and never throws.  A
    file that cannot be opened counts as a file without the endpoint and
    nothing more: the batch returns what it would return with the
    unreadable files left out of the list.  So when some file of the
    batch has the endpoint, a location is returned whatever other files
    failed, and it is the location in that file when no file before it
    in the list has the endpoint.  The search as a whole never throws
    either. *)
Theorem unreadable_file_is_a_non_match :
  (forall h name files w,
      scanBatch h name files w
      = (Ok (firstMatch h name (filter (readable h) files)),
         MkWorld (trace w ++ map (fun f => (clock w, EvOpenTextDocument f)) files)
                 (clock w + maxOpenTime h files)))
  /\ (forall h name files g loc w,
         In g files -> fileTask h name g = Some loc ->
         exists g' loc',
           fst (scanBatch h name files w) = Ok (Some (g', loc'))
           /\ In g' files /\ fileTask h name g' = Some loc')
  /\ (forall h name before g after loc w,
         (forall f, In f before -> fileTask h name f = None) ->
         fileTask h name g = Some loc ->
         fst (scanBatch h name (before ++ g :: after) w) = Ok (Some (g, loc)))
  /\ (forall h name w, exists r w', searchInWorkspace h name w = (Ok r, w'))
  /\ readable ex_host "src/api/gone.ts" = false
  /\ fst (searchInWorkspace ex_host ex_endpoint world0)
     = Ok (Some (Loc "src/api/alerts.ts" 84)).
Proof.
  split; [ | split; [ | split; [ | split; [ | split; reflexivity ] ] ] ].
  - intros h name files w. unfold scanBatch.
    rewrite batch_result, firstMatch_filter. reflexivity.
  - intros h name files g loc w Hin Hg. unfold scanBatch. cbn [fst].
    rewrite batch_result.
    destruct (firstMatch_some h name files g Hin Hg) as (g' & loc' & E & Hin' & Hg').
    exists g', loc'. rewrite E. auto.
  - intros h name before g after loc w Hb Hg. unfold scanBatch. cbn [fst].
    rewrite batch_result, (@firstMatch_after h name before g after loc Hb Hg).
    reflexivity.
  - exact searchInWorkspace_total.
Qed.

Lemma unreadable_file_is_a_non_match_witness :
  fst (scanBatch ex_host ex_endpoint
         (["src/api/gone.ts"; "src/api/other.ts"]%string
          ++ "src/api/alerts.ts"%string :: [])
         world0)
  = Ok (Some ("src/api/alerts.ts"%string, Loc "src/api/alerts.ts" 84)).
Proof.
  apply (proj1 (proj2 (proj2 unreadable_file_is_a_non_match))).
  - intros f [<- | [<- | []]]; reflexivity.
  - reflexivity.
Defined.

(** C9, as the code has it.  For a given list of files with their
    contents the batch has one possible result: the location in the
    first file of the list that has the endpoint.  The order in which
    the reads complete plays no part; two hosts with the same workspace
    and any latencies return the same location. *)
Theorem batch_is_deterministic :
  (forall h name files w,
      fst (scanBatch h name files w) = Ok (firstMatch h name files))
  /\ (forall h1 h2 name files w1 w2,
         sameWorkspace h1 h2 ->
         fst (scanBatch h1 name files w1) = fst (scanBatch h2 name files w2)).
Proof.
  split.
  - intros h name files w. unfold scanBatch. cbn [fst].
    rewrite batch_result. reflexivity.
  - intros h1 h2 name files w1 w2 (_ & Hs). unfold scanBatch. cbn [fst].
    rewrite !batch_result, (@firstMatch_same h1 h2 name files Hs). reflexivity.
Qed.

Lemma ex_pair_same : sameWorkspace (ex_pair true) (ex_pair false).
Proof. split; intro; reflexivity. Qed.

Lemma batch_is_deterministic_witness :
  fst (scanBatch (ex_pair true) ex_endpoint
         ["src/api/alerts.ts"; "src/api/copy.ts"]%string world0)
  = fst (scanBatch (ex_pair false) ex_endpoint
           ["src/api/alerts.ts"; "src/api/copy.ts"]%string world0).
Proof.
  exact (proj2 batch_is_deterministic (ex_pair true) (ex_pair false) ex_endpoint
           ["src/api/alerts.ts"; "src/api/copy.ts"]%string world0 world0
           ex_pair_same).
Defined.

(** No two runs of a batch on the same files with the same contents
    differ in their result.  On two files that both have the endpoint,
    read in opposite orders, the first of the list wins both times. *)
Lemma batch_has_one_winner :
  ~ (exists h1 h2 name files w1 w2,
        sameWorkspace h1 h2
        /\ fst (scanBatch h1 name files w1) <> fst (scanBatch h2 name files w2))
  /\ settleOrder (ex_pair true)
       (indexed 0 ["src/api/alerts.ts"; "src/api/copy.ts"]%string)
     = [(1, "src/api/copy.ts"); (0, "src/api/alerts.ts")]%string
  /\ settleOrder (ex_pair false)
       (indexed 0 ["src/api/alerts.ts"; "src/api/copy.ts"]%string)
     = [(0, "src/api/alerts.ts"); (1, "src/api/copy.ts")]%string
  /\ fileTask (ex_pair true) ex_endpoint "src/api/copy.ts"
     = Some (Loc "src/api/copy.ts" 84)
  /\ fst (scanBatch (ex_pair true) ex_endpoint
            ["src/api/alerts.ts"; "src/api/copy.ts"]%string world0)
     = Ok (Some ("src/api/alerts.ts"%string, Loc "src/api/alerts.ts" 84))
  /\ fst (scanBatch (ex_pair false) ex_endpoint
            ["src/api/alerts.ts"; "src/api/copy.ts"]%string world0)
     = Ok (Some ("src/api/alerts.ts"%string, Loc "src/api/alerts.ts" 84)).
Proof.
  split; [ | repeat split; reflexivity ].
  intros (h1 & h2 & name & files & w1 & w2 & (_ & Hs) & Hne).
  apply Hne. unfold scanBatch. cbn [fst].
  rewrite !batch_result, (@firstMatch_same h1 h2 name files Hs). reflexivity.
Qed.

End BatchScan.

(* ================================================================== *)
(** ** The two entry points *)

Module EntryPoints.
Import RegexFacts NameTransformer Effects BatchScan.

Lemma ends_with_app (p s : text) : ends_with p (s ++ p) = true.
Proof. unfold ends_with. rewrite rev_app_distr. apply starts_with_app. Qed.

(** A word the transformer accepts passes the test made before it. *)
Lemma hook_looksLikeHook (word name : text) :
  hookNameToEndpointName word = Some name -> looksLikeHook word = true.
Proof.
  rewrite hook_refines. destruct (splitHook word) as [m | ] eqn:E; [ | discriminate ].
  intros _. destruct (splitHook_some _ E) as (suf & (Ew & _ & _ & Hin) & _).
  unfold looksLikeHook. subst word. rewrite starts_with_app. cbn [andb].
  rewrite app_assoc.
  destruct Hin as [<- | [<- | [<- | []]]]; rewrite ends_with_app;
    rewrite ?orb_true_r; reflexivity.
Qed.

(** C5.  When the word under the cursor is a hook and its endpoint is
    found in the document at hand, the click path returns that location
    at once: it writes two lines to the log, takes no time, and reads
    neither the configuration, nor any pattern, nor any file.  The manual
    command in the same situation shows that location, without any call
    of the workspace phase either.  A document that uses
    [useGetSingleAlertQuery] and declares [getSingleAlert] is resolved
    this way. *)
Theorem current_document_first :
  (forall h doc position word name loc w,
      wordAt h doc position = Ok (Some word) ->
      hookNameToEndpointName word = Some name ->
      findEndpointDefinition doc name = Some loc ->
      exists added,
        provideDefinition h doc position w
        = (Ok (Some loc), MkWorld (trace w ++ added) (clock w))
        /\ added = [(clock w, EvLog "[Navigate] Hook to endpoint");
                    (clock w, EvLog "[Navigate] Found in current document")]
        /\ Forall (fun e => workspaceEvent (snd e) = false) added)
  /\ (forall h doc position word name loc w,
         activeTextEditor h = Some (doc, position) ->
         wordAt h doc position = Ok (Some word) ->
         hookNameToEndpointName word = Some name ->
         findEndpointDefinition doc name = Some loc ->
         exists added,
           snd (navigateToEndpoint h w) = MkWorld (trace w ++ added) (clock w)
           /\ In (clock w, EvShowTextDocument loc) added
           /\ Forall (fun e => workspaceEvent (snd e) = false) added)
  /\ hookNameToEndpointName ex_hook = Some ex_endpoint
  /\ findEndpointDefinition (Document "src/api/alerts.ts" ex_self) ex_endpoint
     = Some (Loc "src/api/alerts.ts" 84)
  /\ fst (provideDefinition ex_host (Document "src/api/alerts.ts" ex_self) 230
                            world0)
     = Ok (Some (Loc "src/api/alerts.ts" 84)).
Proof.
  split; [ | split; [ | repeat split; reflexivity ] ].
  - intros h doc position word name loc w Hword Hhook Hfind.
    eexists. split; [ | split; [ reflexivity | repeat constructor ] ].
    unfold provideDefinition, try_catch.
    rewrite bind_ask, Hword, (hook_looksLikeHook _ Hhook). cbn [negb].
    rewrite Hhook, bind_log, Hfind, bind_log. unfold ret. cbn [trace clock].
    rewrite <- app_assoc. reflexivity.
  - intros h doc position word name loc w Hed Hword Hhook Hfind.
    unfold navigateToEndpoint. rewrite Hed, bind_ask, Hword.
    rewrite (hook_looksLikeHook _ Hhook). cbn [negb].
    rewrite Hhook. unfold showInformationMessage at 1. rewrite bind_emit.
    rewrite Hfind, bind_ret, bind_await.
    destruct (showTextDocument h loc) as [[] | e];
      unfold showInformationMessage, emit; cbn [snd trace clock];
      rewrite ?Nat.add_0_r, <- ?app_assoc;
      eexists; (split; [ reflexivity | ]);
      (split; [ cbn; tauto | repeat constructor ]).
Qed.

Lemma current_document_first_witness :
  exists added,
    provideDefinition ex_host (Document "src/api/alerts.ts" ex_self) 230 world0
    = (Ok (Some (Loc "src/api/alerts.ts" 84)),
       MkWorld (trace world0 ++ added) (clock world0))
    /\ added = [(clock world0, EvLog "[Navigate] Hook to endpoint");
                (clock world0, EvLog "[Navigate] Found in current document")]
    /\ Forall (fun e => workspaceEvent (snd e) = false) added.
Proof.
  exact (proj1 current_document_first ex_host
           (Document "src/api/alerts.ts" ex_self) 230 ex_hook ex_endpoint
           (Loc "src/api/alerts.ts" 84) world0 eq_refl eq_refl eq_refl).
Defined.

(** *** Time *)



(** The click path never throws and is back within the two seconds of
    its timer. *)
Lemma provideDefinition_bounded (h : Host) (doc : document) (position : nat)
  (w : World) :
  exists r w',
    provideDefinition h doc position w = (Ok r, w')
    /\ clock w' <= clock w + 2000.
Proof.
  unfold provideDefinition, try_catch. rewrite bind_ask.
  destruct (wordAt h doc position) as [[word | ] | e];
    try (rewrite ?bind_log; unfold ret; do 2 eexists; split;
         [ reflexivity | cbn; lia ]).
  destruct (negb (looksLikeHook word));
    [ unfold ret; do 2 eexists; split; [ reflexivity | lia ] | ].
  destruct (hookNameToEndpointName word) as [name | ];
    [ | unfold ret; do 2 eexists; split; [ reflexivity | lia ] ].
  rewrite bind_log.
  destruct (findEndpointDefinition doc name) as [loc | ].
  { rewrite bind_log. unfold ret. do 2 eexists. split; [ reflexivity | cbn; lia ]. }
  destruct (isCancellationRequested h).
  { rewrite bind_log. unfold ret. do 2 eexists. split; [ reflexivity | cbn; lia ]. }
  rewrite bind_log. unfold bind at 1. unfold raceTimeout.
  set (w1 := MkWorld _ _).
  assert (Hw1 : clock w1 = clock w) by reflexivity.
  destruct (searchInWorkspace_total h name w1) as (r & w2 & Es). rewrite Es.
  destruct (clock w2 - clock w1 <? 2000) eqn:Et.
  - apply Nat.ltb_lt in Et.
    destruct r as [loc | ]; rewrite bind_log; unfold ret;
      do 2 eexists; (split; [ reflexivity | cbn [clock]; lia ]).
  - rewrite bind_log. unfold ret.
    do 2 eexists. split; [ reflexivity | cbn [clock]; lia ].
Qed.

Lemma firstMatch_nowhere (h : Host) (name : text) (files : list string) :
  (forall f, fileTask h name f = None) -> firstMatch h name files = None.
Proof.
  intro Hn. induction files as [ | f files IH]; simpl; [ reflexivity | ].
  rewrite Hn. exact IH.
Qed.

Lemma searchBatches_nowhere (h : Host) (name : text) (ps : list string) :
  (forall f, fileTask h name f = None) ->
  forall w, match fst (searchBatches h name ps w) with
            | Ok (Some _) => False
            | _ => True
            end.
Proof.
  intro Hn. induction ps as [ | p ps IH]; intros w; cbn [searchBatches].
  - rewrite bind_log. unfold ret. cbn. exact I.
  - rewrite bind_log, bind_await.
    destruct (findFiles h p) as [files | e]; [ | cbn; exact I ].
    rewrite bind_log. destruct files as [ | f files]; [ apply IH | ].
    unfold bind at 1. unfold scanBatch at 1.
    rewrite batch_result, (firstMatch_nowhere h name _ Hn). apply IH.
Qed.

Lemma searchInWorkspace_nowhere (h : Host) (name : text) (w : World) :
  (forall f, fileTask h name f = None) ->
  fst (searchInWorkspace h name w) = Ok None.
Proof.
  intro Hn. unfold searchInWorkspace. rewrite bind_log. unfold try_catch.
  rewrite bind_await.
  destruct (searchPatternsSetting h) as [setting | e];
    [ | rewrite bind_log; reflexivity ].
  match goal with
  | |- context [searchBatches h name ?ps ?w1] =>
      pose proof (@searchBatches_nowhere h name ps Hn w1) as Hb;
      destruct (searchBatches h name ps w1) as [[[loc | ] | e] w2]
  end; cbn [fst] in *.
  - contradiction.
  - reflexivity.
  - rewrite bind_log. reflexivity.
Qed.








(** Where exceptions go.  The click path catches whatever is thrown
    inside it and answers "no result".  The manual command has no
    handler of its own: what is thrown inside the search of the
    workspace is caught by the search, which then reports nothing
    found, and the command shows "Endpoint not found"; what is thrown by
    the lookup of the word under the cursor or by the display of the
    file found goes through to the caller. *)
Theorem exceptions_of_a_lookup :
  (forall h doc position w,
      exists r w', provideDefinition h doc position w = (Ok r, w'))
  /\ (forall h doc position e w,
         wordAt h doc position = Throw e ->
         provideDefinition h doc position w
         = (Ok None,
            MkWorld (trace w ++ [(clock w, EvLog "[Navigate] Error")])
                    (clock w)))
  /\ (forall h name w, exists r w', searchInWorkspace h name w = (Ok r, w'))
  /\ (forall h doc position word name e w,
         activeTextEditor h = Some (doc, position) ->
         wordAt h doc position = Ok (Some word) ->
         hookNameToEndpointName word = Some name ->
         findEndpointDefinition doc name = None ->
         searchPatternsSetting h = Throw e ->
         exists tr,
           navigateToEndpoint h w
           = (Ok tt,
              MkWorld (tr ++ [(clock w,
                               EvShowErrorMessage
                                 ("Endpoint not found: "
                                  ++ string_of_list_ascii name))])
                      (clock w)))
  /\ (forall h doc position e w,
         activeTextEditor h = Some (doc, position) ->
         wordAt h doc position = Throw e ->
         navigateToEndpoint h w = (Throw e, w))
  /\ (forall h doc position word name loc e w w2,
         activeTextEditor h = Some (doc, position) ->
         wordAt h doc position = Ok (Some word) ->
         hookNameToEndpointName word = Some name ->
         findEndpointDefinition doc name = None ->
         searchInWorkspace h name
           (MkWorld (trace w ++ [(clock w,
                       EvShowInformationMessage
                         ("Searching for endpoint: "
                          ++ string_of_list_ascii name ++ "..."))])
                    (clock w))
         = (Ok (Some loc), w2) ->
         showTextDocument h loc = Throw e ->
         navigateToEndpoint h w
         = (Throw e,
            MkWorld (trace w2 ++ [(clock w2, EvShowTextDocument loc)])
                    (clock w2))).
Proof.
  split; [ | split; [ | split; [ exact searchInWorkspace_total | split; [ | split ] ] ] ].
  - intros h doc position w.
    destruct (provideDefinition_bounded h doc position w) as (r & w' & E & _).
    eauto.
  - intros h doc position e w He.
    unfold provideDefinition, try_catch. rewrite bind_ask, He, bind_log.
    reflexivity.
  - intros h doc position word name e w Hed Hword Hhook Hfind Hcfg.
    unfold navigateToEndpoint. rewrite Hed, bind_ask, Hword.
    rewrite (hook_looksLikeHook _ Hhook). cbn [negb].
    rewrite Hhook. unfold showInformationMessage at 1. rewrite bind_emit.
    rewrite Hfind. unfold bind at 1. unfold searchInWorkspace.
    rewrite bind_log. unfold try_catch. rewrite bind_await, Hcfg, bind_log.
    unfold ret, showErrorMessage, emit. cbn [trace clock].
    rewrite Nat.add_0_r. eexists. reflexivity.
  - intros h doc position e w Hed He.
    unfold navigateToEndpoint. rewrite Hed, bind_ask, He. reflexivity.
  - intros h doc position word name loc e w w2 Hed Hword Hhook Hfind Hsearch Hshow.
    unfold navigateToEndpoint. rewrite Hed, bind_ask, Hword.
    rewrite (hook_looksLikeHook _ Hhook). cbn [negb].
    rewrite Hhook. unfold showInformationMessage at 1. rewrite bind_emit.
    rewrite Hfind. unfold bind at 1. rewrite Hsearch.
    rewrite bind_await, Hshow. rewrite Nat.add_0_r. reflexivity.
Qed.

Lemma exceptions_of_a_lookup_witness :
  navigateToEndpoint ex_noshow world0
  = (Throw "cannot show",
     MkWorld (trace (snd (searchInWorkspace ex_noshow ex_endpoint
                (MkWorld [(0, EvShowInformationMessage
                                "Searching for endpoint: getSingleAlert...")] 0)))
              ++ [(70, EvShowTextDocument (Loc "src/api/alerts.ts" 84))])
             70).
Proof.
  apply (proj2 (proj2 (proj2 (proj2 (proj2 exceptions_of_a_lookup))))
           ex_noshow (Document "src/Alert.tsx" ex_component) 60 ex_hook
           ex_endpoint (Loc "src/api/alerts.ts" 84) "cannot show"%string world0
           (snd (searchInWorkspace ex_noshow ex_endpoint
                (MkWorld [(0, EvShowInformationMessage
                                "Searching for endpoint: getSingleAlert...")] 0))));
    vm_compute; reflexivity.
Defined.

(** C8.  An exception raised during a lookup is to end at the top of
    the entry point.  The manual command with the cursor on
    [useGetSingleAlertQuery], in an editor that fails to show the file
    found: the search finds the endpoint, the display throws, and the
    exception leaves the command; no error message is shown.  The click
    path on the same editor ends normally. *)
Theorem manual_command_lets_exceptions_through :
  fst (searchInWorkspace ex_noshow ex_endpoint world0)
  = Ok (Some (Loc "src/api/alerts.ts" 84))
  /\ showTextDocument ex_noshow (Loc "src/api/alerts.ts" 84)
     = Throw "cannot show"
  /\ fst (navigateToEndpoint ex_noshow world0) = Throw "cannot show"
  /\ (forall t msg,
         ~ In (t, EvShowErrorMessage msg)
              (trace (snd (navigateToEndpoint ex_noshow world0))))
  /\ fst (provideDefinition ex_noshow (Document "src/Alert.tsx" ex_component)
                            60 world0)
     = Ok (Some (Loc "src/api/alerts.ts" 84)).
Proof.
  split; [ vm_compute; reflexivity | ].
  split; [ vm_compute; reflexivity | ].
  split; [ vm_compute; reflexivity | ].
  split; [ | vm_compute; reflexivity ].
  intros t msg. vm_compute.
  intros [H | [H | [H | [H | [H | [H | [H | [H | [H | [H | [H | []]]]]]]]]]]];
    discriminate.
Qed.

End EntryPoints.

(* ================================================================== *)
(** * Further properties of the code *)

Unset Implicit Arguments.

(** ** The name transformer on generated hook names *)

Module HookNames.
Import RegexFacts NameTransformer.


Lemma hook_shape_some (s m suf : text) :
  HookShape s m suf -> exists name, hookNameToEndpointName s = Some name.
Proof.
  intro HS. rewrite hook_refines.
  destruct (splitHook s) as [m' | ] eqn:E.
  - eexists. reflexivity.
  - exfalso. exact (@splitHook_none s E m suf HS).
Qed.







Lemma dotted_app_l (a b : text) : dotted (a ++ b) -> dotted a.
Proof. intro H. apply Forall_app in H. tauto. Qed.

Lemma dotted_app_r (a b : text) : dotted (a ++ b) -> dotted b.
Proof. intro H. apply Forall_app in H. tauto. Qed.



(** A word that starts with [use] and ends with one of the suffixes is
    [use], a middle that may be empty, and that suffix. *)
Lemma looksLikeHook_shape (word : text) :
  looksLikeHook word = true ->
  exists m suf, word = T "use" ++ m ++ suf /\ In suf suffixes.
Proof.
  unfold looksLikeHook. rewrite andb_true_iff, !orb_true_iff.
  intros (Hs & He). apply starts_with_spec in Hs. destruct Hs as (r & ->).
  assert (Hend : exists pre suf, T "use" ++ r = pre ++ suf /\ In suf suffixes).
  { unfold ends_with in He. rewrite !starts_with_spec in He.
    destruct He as [[(v & Ev) | (v & Ev)] | (v & Ev)];
      apply (f_equal (@rev ascii)) in Ev;
      rewrite rev_involutive, rev_app_distr, rev_involutive in Ev;
      exists (rev v); eexists; (split; [ exact Ev | cbn; auto ]). }
  destruct Hend as (pre & suf & E & Hin).
  destruct pre as [ | a [ | b [ | c pre]]].
  - exfalso. destruct Hin as [<- | [<- | [<- | []]]]; discriminate.
  - exfalso. destruct Hin as [<- | [<- | [<- | []]]]; discriminate.
  - exfalso. destruct Hin as [<- | [<- | [<- | []]]]; discriminate.
  - exists pre, suf. split; [ | exact Hin ].
    cbn in E. inversion E; subst. reflexivity.
Qed.

(** X3.  Among the words without a line terminator that pass the test
    made before the transformer, the transformer rejects exactly
    [useQuery] and [useMutation]: these two are the words for which the
    manual command reports that it could not parse the hook name. *)
Theorem unparsable_hooks (word : text) :
  dotted word ->
  looksLikeHook word = true ->
  (hookNameToEndpointName word = None
   <-> word = T "useQuery" \/ word = T "useMutation").
Proof.
  intros Hd Hl. split.
  - intro Hnone.
    destruct (looksLikeHook_shape _ Hl) as (m & suf & -> & Hin).
    destruct m as [ | c m].
    + destruct Hin as [<- | [<- | [<- | []]]]; [ auto | | auto ].
      exfalso. vm_compute in Hnone. discriminate.
    + exfalso.
      assert (HS : HookShape (T "use" ++ (c :: m) ++ suf) (c :: m) suf).
      { repeat split; [ discriminate | | exact Hin ].
        apply dotted_app_r in Hd. apply dotted_app_l in Hd. exact Hd. }
      destruct (hook_shape_some _ _ _ HS) as (name & E). congruence.
  - intros [-> | ->]; reflexivity.
Qed.

Lemma unparsable_hooks_witness :
  hookNameToEndpointName (T "useQuery") = None
  <-> T "useQuery" = T "useQuery" \/ T "useQuery" = T "useMutation".
Proof.
  apply (unparsable_hooks (T "useQuery")).
  - repeat constructor.
  - reflexivity.
Defined.

End HookNames.

(* ================================================================== *)
(** ** The block and the location *)

Module BlockBounds.
Import RegexFacts BlockLocator DefinitionMatcher.

Lemma scan_break (s : text) :
  forall i pv st e,
    scan i pv s st = Some e ->
    i <= e /\ e < i + List.length s
    /\ exists c, nth_error s (e - i) = Some c /\ closes c = true.
Proof.
  induction s as [ | c s IH]; intros i pv st e H; cbn [scan] in H;
    [ discriminate | ].
  destruct (negb (inString (body c pv st))) eqn:E1; cbn [andb] in H.
  - destruct (closes c) eqn:E2; cbn [andb] in H.
    + destruct (depth (body c pv st) <? 0)%Z.
      * inversion H; subst e. cbn [List.length]. rewrite Nat.sub_diag.
        split; [ lia | split; [ lia | exists c; auto ] ].
      * apply IH in H. destruct H as (H1 & H2 & c' & H3 & H4).
        cbn [List.length]. split; [ lia | split; [ lia | ] ].
        exists c'. replace (e - i) with (S (e - S i)) by lia. auto.
    + apply IH in H. destruct H as (H1 & H2 & c' & H3 & H4).
      cbn [List.length]. split; [ lia | split; [ lia | ] ].
      exists c'. replace (e - i) with (S (e - S i)) by lia. auto.
  - apply IH in H. destruct H as (H1 & H2 & c' & H3 & H4).
    cbn [List.length]. split; [ lia | split; [ lia | ] ].
    exists c'. replace (e - i) with (S (e - S i)) by lia. auto.
Qed.

(** What the marker consumes, piece by piece. *)
Lemma marker_pieces (st s' : mstate) :
  matches endpointsPattern st s' ->
  exists ws1 params ws2 ws3,
    rest st = T "endpoints:" ++ ws1 ++ "("%char :: params ++ ")"%char
                :: ws2 ++ T "=>" ++ ws3 ++ "("%char :: rest s'
    /\ spaces ws1 /\ spaces ws2 /\ spaces ws3
    /\ Forall (fun c => c <> ")"%char) params.
Proof.
  intro H. unfold endpointsPattern in H.
  apply matches_Seq_inv in H. destruct H as (s1 & HL & H).
  apply matches_Lit in HL. destruct HL as (EL & _).
  apply matches_Seq_inv in H. destruct H as (s2 & HW & H).
  apply matches_Star_Class in HW. destruct HW as (ws1 & E1 & F1).
  apply matches_Seq_inv in H. destruct H as (s3 & HC & H).
  apply matches_Class_inv in HC. destruct HC as (c & t & EC & Hc & ->).
  apply ascii_eqb_eq in Hc. subst c.
  apply matches_Seq_inv in H. destruct H as (s4 & HP & H).
  apply matches_Star_Class in HP. destruct HP as (params & E2 & F2).
  cbn [rest] in E2.
  apply matches_Seq_inv in H. destruct H as (s5 & HC & H).
  apply matches_Class_inv in HC. destruct HC as (c & t2 & EC2 & Hc & ->).
  apply ascii_eqb_eq in Hc. subst c.
  apply matches_Seq_inv in H. destruct H as (s6 & HW & H).
  apply matches_Star_Class in HW. destruct HW as (ws2 & E3 & F3).
  cbn [rest] in E3.
  apply matches_Seq_inv in H. destruct H as (s7 & HL & H).
  apply matches_Lit in HL. destruct HL as (EL2 & _).
  apply matches_Seq_inv in H. destruct H as (s8 & HW & H).
  apply matches_Star_Class in HW. destruct HW as (ws3 & E4 & F4).
  apply matches_Class_inv in H. destruct H as (c & t3 & EC3 & Hc & ->).
  apply ascii_eqb_eq in Hc. subst c. cbn [rest].
  exists ws1, params, ws2, ws3.
  rewrite EL, E1, EC, E2, EC2, E3, EL2, E4, EC3.
  repeat split; try assumption.
  eapply Forall_impl; [ | exact F2 ].
  intros a Ha ->. discriminate.
Qed.

(** The marker is at least fifteen code units long and lies in the
    text. *)
Lemma marker_extent (txt : text) (m : mresult) :
  exec endpointsPattern txt = Some m ->
  index m + 15 <= stop m /\ stop m <= List.length txt.
Proof.
  intro E. apply exec_sound in E.
  destruct E as (u & v & s' & Et & Ei & M1 & Es).
  destruct (matches_span M1) as (W & EW & PW & _). cbn [rest pos] in EW, PW.
  apply marker_pieces in M1.
  destruct M1 as (ws1 & params & ws2 & ws3 & EM & _). cbn [rest] in EM.
  assert (HW : 15 <= List.length W).
  { assert (EL : List.length v = List.length W + List.length (rest s'))
      by (rewrite EW, length_app; reflexivity).
    rewrite EM in EL.
    repeat (rewrite ?length_app in EL; cbn [List.length] in EL).
    cbn in EL. lia. }
  subst txt. rewrite length_app, EW, length_app. lia.
Qed.

Lemma findEndpointsBlock_extent (txt : text) (b : block) :
  findEndpointsBlock txt = Some b ->
  exists m,
    exec endpointsPattern txt = Some m
    /\ start b = index m
    /\ start b + 15 <= stop m
    /\ stop m <= finish b
    /\ finish b <= List.length txt
    /\ (finish b = stop m
        \/ exists c, nth_error txt (finish b) = Some c /\ closes c = true).
Proof.
  unfold findEndpointsBlock.

  destruct (exec endpointsPattern txt) as [m | ] eqn:E; [ | discriminate ].
  destruct (marker_extent _ _ E) as (H15 & Hlen).
  assert (Ef : scan_from m = stop m) by (unfold scan_from; lia).
  rewrite Ef.
  destruct (scan (stop m) (char_before (stop m) txt) (skipn (stop m) txt)
                 scanner0) as [e | ] eqn:Es;
    intro H; inversion H; subst b; clear H; cbn [start finish];
    exists m; split; try reflexivity; split; try reflexivity.
  - apply scan_break in Es. destruct Es as (H1 & H2 & c & H3 & H4).
    rewrite length_skipn in H2.
    split; [ lia | split; [ lia | split; [ lia | ] ] ].
    right. exists c. split; [ | exact H4 ].
    rewrite nth_error_skipn in H3.
    replace (stop m + (e - stop m)) with e in H3 by lia. exact H3.
  - split; [ lia | split; [ lia | split; [ lia | left; reflexivity ] ] ].
Qed.

(** X4.  A block starts at the marker and ends past it, inside the
    text: it is never empty, the marker alone taking fifteen code units.
    Its end is either the offset right after the marker or the offset of
    a closing bracket, which the block leaves out. *)
Theorem block_extent (txt : text) (b : block) :
  findEndpointsBlock txt = Some b ->
  exists m,
    exec endpointsPattern txt = Some m
    /\ start b = index m
    /\ start b + 15 <= stop m
    /\ stop m <= finish b
    /\ finish b <= List.length txt
    /\ (finish b = stop m
        \/ exists c, nth_error txt (finish b) = Some c /\ closes c = true).
Proof. exact (findEndpointsBlock_extent txt b). Qed.

Lemma block_extent_witness :
  exists m,
    exec endpointsPattern ex_braced = Some m
    /\ 0 = index m
    /\ 0 + 15 <= stop m
    /\ stop m <= 29
    /\ 29 <= List.length ex_braced
    /\ (29 = stop m
        \/ exists c, nth_error ex_braced 29 = Some c /\ closes c = true).
Proof.
  exact (block_extent ex_braced (Block 0 29) eq_refl).
Defined.

(** Outside a string, a code unit that is neither a bracket nor a quote
    changes nothing. *)
Lemma body_plain (c : ascii) (pv : option ascii) (st : scanner) :
  opens c = false -> closes c = false -> is_quote c = false ->
  body c pv st = st.
Proof.
  intros Ho Hc Hq. unfold body, quote_step, depth_step.
  rewrite Hq, Ho, Hc. cbn [andb]. destruct (negb (inString st)); reflexivity.
Qed.

Lemma bracket_not_quote (c : ascii) :
  opens c = true \/ closes c = true -> is_quote c = false.
Proof. intro H. exact (proj1 (bracket_plain c H)). Qed.

Lemma not_both (c : ascii) : closes c = true -> opens c = false.
Proof.
  unfold opens, closes. rewrite orb_true_iff, !ascii_eqb_eq.
  intros [-> | ->]; reflexivity.
Qed.

(** The loop walks over balanced text without breaking and comes out
    with the counter it went in with. *)
Lemma scan_balanced (w : text) :
  Balanced w ->
  forall i pv d sc tl,
    (0 <= d)%Z ->
    scan i pv (w ++ tl) (Scanner d false sc)
    = scan (i + List.length w) (last_opt pv w) tl (Scanner d false sc).
Proof.
  induction 1 as [ | c w Ho Hc Hq _ IH | o w1 c w2 Ho Hc _ IH1 _ IH2 ];
    intros i pv d sc tl Hd.
  - cbn. rewrite Nat.add_0_r. reflexivity.
  - cbn [app scan List.length last_opt].
    rewrite body_plain by assumption. rewrite Hc. cbn [inString negb andb].
    rewrite IH by exact Hd. f_equal. lia.
  - cbn [app scan List.length last_opt].
    assert (Eo : body o pv (Scanner d false sc) = Scanner (d + 1) false sc).
    { unfold body, quote_step, depth_step.
      rewrite (bracket_not_quote o (or_introl Ho)), Ho. reflexivity. }
    rewrite Eo. cbn [inString negb andb depth].
    replace (d + 1 <? 0)%Z with false by (symmetry; apply Z.ltb_ge; lia).
    rewrite andb_false_r.
    rewrite <- app_assoc. rewrite IH1 by lia.
    cbn [app scan].
    assert (Ec : forall pv', body c pv' (Scanner (d + 1) false sc)
                             = Scanner d false sc).
    { intro pv'. unfold body, quote_step, depth_step.
      rewrite (bracket_not_quote c (or_intror Hc)), (not_both c Hc), Hc.
      cbn [andb negb inString depth stringChar]. f_equal. lia. }
    rewrite Ec. cbn [inString negb andb depth]. rewrite Hc.
    replace (d <? 0)%Z with false by (symmetry; apply Z.ltb_ge; lia).
    cbn [andb]. rewrite IH2 by exact Hd.
    rewrite last_opt_app. cbn [last_opt].
    rewrite length_app. cbn [List.length]. f_equal. lia.
Qed.

(** X5.  When what follows the marker is balanced text, without quotes,
    and then a closing bracket, the block ends at that bracket.  One
    counter serves both kinds of bracket, so that a parenthesis closed by
    a brace counts as a pair. *)
Theorem block_of_balanced_body (txt w post : text) (c : ascii) (m : mresult) :
  exec endpointsPattern txt = Some m ->
  skipn (scan_from m) txt = w ++ c :: post ->
  Balanced w ->
  closes c = true ->
  findEndpointsBlock txt
  = Some (Block (index m) (scan_from m + List.length w)).
Proof.
  intros E Es Hb Hc. unfold findEndpointsBlock. rewrite E, Es.
  unfold scanner0. rewrite scan_balanced by (assumption || lia).
  cbn [scan].
  assert (Ec : forall pv', body c pv' (Scanner 0 false None)
                           = Scanner (-1) false None).
  { intro pv'. unfold body, quote_step, depth_step.
    rewrite (bracket_not_quote c (or_intror Hc)), (not_both c Hc), Hc.
    reflexivity. }
  rewrite Ec, Hc. reflexivity.
Qed.

Lemma ex_mismatched_body : Balanced (T "{ a: [(1}, 2] }").
Proof.
  apply (@BalPair "{"%char (T " a: [(1}, 2] ") "}"%char []);
    [ reflexivity | reflexivity | | constructor ].
  do 5 (apply BalPlain; [ reflexivity | reflexivity | reflexivity | ]).
  apply (@BalPair "("%char (T "1") "}"%char (T ", 2] "));
    [ reflexivity | reflexivity | | ].
  - apply BalPlain; [ reflexivity | reflexivity | reflexivity | constructor ].
  - do 5 (apply BalPlain; [ reflexivity | reflexivity | reflexivity | ]).
    constructor.
Qed.

Lemma block_of_balanced_body_witness :
  findEndpointsBlock ex_mismatched
  = Some (Block 0 (19 + List.length (T "{ a: [(1}, 2] }"))).
Proof.
  exact (block_of_balanced_body ex_mismatched (T "{ a: [(1}, 2] }") []
           ")"%char (MResult 0 19 []) eq_refl eq_refl ex_mismatched_body
           eq_refl).
Defined.

End BlockBounds.

(* ================================================================== *)
(** ** The end of a block, from the text *)

Module BlockEnd.
Import RegexFacts BlockLocator BlockBounds.

Lemma opt_is_escaped (pv : option ascii) :
  opt_is pv backslash = true <-> escaped pv.
Proof.
  unfold escaped, opt_is, backslash. destruct pv as [d | ].
  - rewrite ascii_eqb_eq. split; [ intros ->; reflexivity | ].
    intros [= ->]. reflexivity.
  - split; discriminate.
Qed.

Lemma is_quote_delimiter (c : ascii) : is_quote c = true <-> delimiter c.
Proof.
  unfold is_quote, delimiter, dquote, squote, backtick.
  rewrite !orb_true_iff, !ascii_eqb_eq. tauto.
Qed.

Lemma opens_bracketOpen (c : ascii) : opens c = true <-> bracketOpen c.
Proof.
  unfold opens, bracketOpen. rewrite orb_true_iff, !ascii_eqb_eq. tauto.
Qed.

Lemma closes_bracketClose (c : ascii) : closes c = true <-> bracketClose c.
Proof.
  unfold closes, bracketClose. rewrite orb_true_iff, !ascii_eqb_eq. tauto.
Qed.

Lemma not_true_false (b : bool) : b <> true -> b = false.
Proof. destruct b; [ intro H; contradiction H; reflexivity | reflexivity ]. Qed.

(** A quote that opens a literal. *)
Lemma body_opening (q : ascii) (pv : option ascii) (d : Z)
  (sc : option ascii) :
  delimiter q -> ~ escaped pv ->
  body q pv (Scanner d false sc) = Scanner d true (Some q).
Proof.
  intros Hq Hne. unfold body, quote_step.
  rewrite (proj2 (is_quote_delimiter q) Hq).
  rewrite (not_true_false _ (fun E => Hne (proj1 (opt_is_escaped pv) E))).
  reflexivity.
Qed.

(** The quote that closes it. *)
Lemma body_closing (q : ascii) (pv : option ascii) (d : Z) :
  delimiter q -> ~ escaped pv ->
  body q pv (Scanner d true (Some q)) = Scanner d false (Some q)
  /\ closes q = false.
Proof.
  intros Hq Hne. unfold body, quote_step.
  rewrite (proj2 (is_quote_delimiter q) Hq).
  rewrite (not_true_false _ (fun E => Hne (proj1 (opt_is_escaped pv) E))).
  cbn [andb negb inString stringChar opt_is]. rewrite ascii_eqb_refl.
  destruct Hq as [-> | [-> | ->]]; split; reflexivity.
Qed.

(** A code unit inside the literal. *)
Lemma body_inside (q c : ascii) (pv : option ascii) (d : Z) :
  (c = q -> escaped pv) ->
  body c pv (Scanner d true (Some q)) = Scanner d true (Some q).
Proof.
  intro Hc. unfold body, quote_step.
  destruct (is_quote c && negb (opt_is pv backslash)) eqn:E;
    [ | reflexivity ].
  apply andb_true_iff in E. destruct E as (_ & E2).
  cbn [inString negb stringChar opt_is].
  destruct (ascii_eqb q c) eqn:Eq; [ | reflexivity ].
  apply ascii_eqb_eq in Eq. symmetry in Eq.
  apply Hc, opt_is_escaped in Eq. rewrite Eq in E2. discriminate.
Qed.

(** The loop walks through a literal without breaking and leaves the
    counter as it was. *)
Lemma scan_literal (q : ascii) (pv : option ascii) (b : text) :
  delimiter q ->
  LiteralBody q pv b ->
  forall i d tl,
    scan i pv (b ++ q :: tl) (Scanner d true (Some q))
    = scan (S (i + List.length b)) (Some q) tl (Scanner d false (Some q)).
Proof.
  intros Hq H. induction H as [pv Hne | pv c w Hc _ IH]; intros i d tl.
  - cbn [app scan List.length].
    destruct (body_closing q pv d Hq Hne) as (E1 & E2). rewrite E1, E2.
    rewrite andb_false_r. cbn [andb]. rewrite Nat.add_0_r. reflexivity.
  - cbn [app scan List.length]. rewrite (body_inside q c pv d Hc).
    cbn [inString negb andb]. rewrite IH. f_equal. lia.
Qed.

(** A code unit that is neither a bracket nor the start of a literal. *)
Lemma body_other (c : ascii) (pv : option ascii) (d : Z)
  (sc : option ascii) :
  ~ bracketOpen c -> ~ bracketClose c -> (delimiter c -> escaped pv) ->
  body c pv (Scanner d false sc) = Scanner d false sc /\ closes c = false.
Proof.
  intros Ho Hc Hq.
  assert (Eo : opens c = false)
    by (apply not_true_false; intro E; apply Ho, opens_bracketOpen, E).
  assert (Ec : closes c = false)
    by (apply not_true_false; intro E; apply Hc, closes_bracketClose, E).
  split; [ | exact Ec ]. unfold body, quote_step.
  assert (Eq : is_quote c && negb (opt_is pv backslash) = false).
  { destruct (is_quote c) eqn:E; [ | reflexivity ].
    apply is_quote_delimiter, Hq, opt_is_escaped in E. rewrite E.
    reflexivity. }
  rewrite Eq. unfold depth_step. cbn [inString negb]. rewrite Eo, Ec.
  reflexivity.
Qed.

Lemma body_open (o : ascii) (pv : option ascii) (d : Z) (sc : option ascii) :
  bracketOpen o ->
  body o pv (Scanner d false sc) = Scanner (d + 1) false sc.
Proof. intros [-> | ->]; reflexivity. Qed.

Lemma body_close (c : ascii) (pv : option ascii) (d : Z) (sc : option ascii) :
  bracketClose c ->
  body c pv (Scanner d false sc) = Scanner (d - 1) false sc
  /\ closes c = true.
Proof. intros [-> | ->]; split; reflexivity. Qed.

(** The loop walks through such text without breaking and comes out
    with the counter it went in with, outside any literal. *)
Lemma scan_code (pv : option ascii) (w : text) :
  Code pv w ->
  forall i d sc tl,
    (0 <= d)%Z ->
    exists sc',
      scan i pv (w ++ tl) (Scanner d false sc)
      = scan (i + List.length w) (last_opt pv w) tl (Scanner d false sc').
Proof.
  induction 1 as [ pv
                 | pv c w Ho Hc Hq _ IH
                 | pv q b w Hq Hne Hb _ IH
                 | pv o w1 c w2 Ho Hc _ IH1 _ IH2 ];
    intros i d sc tl Hd.
  - exists sc. cbn. rewrite Nat.add_0_r. reflexivity.
  - cbn [app scan List.length last_opt].
    destruct (body_other c pv d sc Ho Hc Hq) as (E1 & E2). rewrite E1, E2.
    rewrite andb_false_r. cbn [andb].
    destruct (IH (S i) d sc tl Hd) as (sc' & E). exists sc'. rewrite E.
    f_equal. lia.
  - cbn [app scan last_opt]. rewrite (body_opening q pv d sc Hq Hne).
    cbn [inString negb andb]. rewrite <- app_assoc. cbn [app].
    rewrite (scan_literal q (Some q) b Hq Hb).
    destruct (IH (S (S i + List.length b)) d (Some q) tl Hd) as (sc' & E).
    exists sc'. rewrite E. rewrite last_opt_app. cbn [last_opt].
    cbn [List.length]. rewrite length_app. cbn [List.length]. f_equal. lia.
  - cbn [app scan last_opt]. rewrite (body_open o pv d sc Ho).
    cbn [inString negb andb depth].
    replace (d + 1 <? 0)%Z with false by (symmetry; apply Z.ltb_ge; lia).
    rewrite andb_false_r. rewrite <- app_assoc.
    destruct (IH1 (S i) (d + 1)%Z sc ((c :: w2) ++ tl)) as (sc1 & E1);
      [ lia | ].
    rewrite E1. cbn [app scan].
    destruct (body_close c (last_opt (Some o) w1) (d + 1) sc1 Hc)
      as (E2 & E3).
    rewrite E2, E3. cbn [inString negb andb depth].
    replace (d + 1 - 1 <? 0)%Z with false by (symmetry; apply Z.ltb_ge; lia).
    replace (d + 1 - 1)%Z with d by lia.
    destruct (IH2 (S (S i + List.length w1)) d sc1 tl Hd) as (sc2 & E4).
    exists sc2. rewrite E4. rewrite last_opt_app. cbn [last_opt].
    cbn [List.length]. rewrite length_app. cbn [List.length]. f_equal. lia.
Qed.

(** Where the loop breaks, the counter is negative for the first
    time. *)
Lemma scan_break_first_negative (s : text) :
  forall i pv st e,
    (0 <= depth st)%Z ->
    scan i pv s st = Some e ->
    exists j, e = i + j /\ FirstNegative pv s st j.
Proof.
  induction s as [ | c s IH]; intros i pv st e Hd H; cbn [scan] in H;
    [ discriminate | ].
  destruct (negb (inString (body c pv st)) && closes c
            && (depth (body c pv st) <? 0)%Z) eqn:Eb.
  - injection H as <-. exists 0. split; [ lia | ].
    apply andb_true_iff in Eb. destruct Eb as (_ & Eb).
    apply Z.ltb_lt in Eb.
    split; [ cbn; lia | split; [ rewrite depthAfter_0; exact Eb | ] ].
    intros k Hk. lia.
  - assert (H0 : (0 <= depth (body c pv st))%Z).
    { destruct (Z_lt_ge_dec (depth (body c pv st)) 0) as [Hlt | Hge];
        [ | lia ].
      destruct (depth_drop c pv st) as (E1 & E2); [ lia | ].
      rewrite E1, E2 in Eb. cbn [negb andb] in Eb.
      apply Z.ltb_ge in Eb. lia. }
    destruct (IH (S i) (Some c) (body c pv st) e H0 H)
      as (j & -> & Hj & Hneg & Hbefore).
    exists (S j). split; [ lia | ].
    split; [ cbn [List.length]; lia | ].
    split; [ rewrite depthAfter_S; exact Hneg | ].
    intros k Hk. destruct k as [ | k].
    + rewrite depthAfter_0. exact H0.
    + rewrite depthAfter_S. apply Hbefore. lia.
Qed.

(** The marker ends with the parenthesis that opens the block. *)
Lemma marker_last (txt : text) (m : mresult) :
  exec endpointsPattern txt = Some m ->
  scan_from m = stop m /\ char_before (stop m) txt = Some "("%char.
Proof.
  intro E. destruct (marker_extent txt m E) as (H15 & _).
  split; [ unfold scan_from; lia | ].
  apply exec_consumed in E.
  destruct E as (u & w & v & s' & Et & Ei & Es & M1 & Er & _).
  apply marker_pieces in M1.
  destruct M1 as (ws1 & params & ws2 & ws3 & EM & _). cbn [rest] in EM.
  rewrite Er in EM.
  assert (Ew : w = (T "endpoints:" ++ ws1 ++ "("%char :: params ++ ")"%char
                      :: ws2 ++ T "=>" ++ ws3) ++ ["("%char]).
  { apply (app_inv_tail v). rewrite EM. norm_app. reflexivity. }
  unfold char_before. replace (0 <? stop m) with true
    by (symmetry; apply Nat.ltb_lt; lia).
  subst txt. rewrite Es, Ew.
  rewrite app_assoc, nth_error_app1
    by (rewrite !length_app; cbn [List.length]; lia).
  rewrite app_assoc, nth_error_app2
    by (rewrite !length_app; cbn [List.length]; lia).
  rewrite !length_app. cbn [List.length].
  match goal with
  | |- nth_error _ ?k = _ => replace k with 0 by lia
  end.
  reflexivity.
Qed.

(** C4, as the code has it.  When the marker is found and what follows
    it is made of pairs of brackets, string literals and other code
    units, up to a closing bracket that has no opening one, the block
    ends at that bracket: it is the first offset at which the counter is
    negative.  What a literal holds plays no part, brackets included: a
    literal is opened by a double quote, a single quote or a backtick
    and closed by the next such quote of the same kind, a quote right
    after a backslash not counting.  The blocks of [({ a: '{' })] and
    of [({ a: 'x' })] end at the same offset. *)
Theorem findEndpointsBlock_end :
  (forall txt w post c m,
      exec endpointsPattern txt = Some m ->
      skipn (stop m) txt = w ++ c :: post ->
      Code (Some "("%char) w ->
      bracketClose c ->
      findEndpointsBlock txt
      = Some (Block (index m) (stop m + List.length w))
      /\ FirstNegative (Some "("%char) (skipn (stop m) txt) scanner0
                       (List.length w))
  /\ findEndpointsBlock ex_braced = Some (Block 0 29)
  /\ findEndpointsBlock ex_plain = Some (Block 0 29)
  /\ findEndpointsBlock ex_escaped = Some (Block 0 35)
  /\ findEndpointsBlock ex_literals = Some (Block 0 49).
Proof.
  split; [ | repeat split; vm_compute; reflexivity ].
  intros txt w post c m E Es Hw Hc.
  destruct (marker_last txt m E) as (Ef & Ep).
  assert (Escan : scan (stop m) (Some "("%char) (skipn (stop m) txt) scanner0
                  = Some (stop m + List.length w)).
  { rewrite Es. unfold scanner0.
    destruct (scan_code (Some "("%char) w Hw (stop m) 0%Z None (c :: post))
      as (sc' & E1); [ lia | ].
    rewrite E1. cbn [scan].
    destruct (body_close c (last_opt (Some "("%char) w) 0 sc' Hc)
      as (E2 & E3).
    rewrite E2, E3. reflexivity. }
  split.
  - unfold findEndpointsBlock. rewrite E. cbv zeta. rewrite Ef, Ep, Escan.
    reflexivity.
  - destruct (scan_break_first_negative (skipn (stop m) txt) (stop m)
                (Some "("%char) scanner0 _ (Z.le_refl 0) Escan)
      as (j & Ej & Hj).
    replace (List.length w) with j by lia. exact Hj.
Qed.

Ltac other_unit :=
  let H := fresh "H" in
  apply CodePlain;
  [ intros [H | H]; discriminate H
  | intros [H | H]; discriminate H
  | intros [H | [H | H]]; discriminate H
  | ].

Ltac inside_unit :=
  let H := fresh "H" in
  apply LitChar; [ intro H; discriminate H | ].

Lemma ex_literals_code :
  Code (Some "("%char)
       (T "{ a: " ++ dquote :: T "x" ++ backslash :: dquote :: T "}{"
          ++ dquote :: T ", b: `)`, c: '(' }").
Proof.
  apply (@CodePair (Some "("%char) "{"%char
           (T " a: " ++ dquote :: T "x" ++ backslash :: dquote :: T "}{"
              ++ dquote :: T ", b: `)`, c: '(' ")
           "}"%char []);
    [ left; reflexivity | left; reflexivity | | constructor ].
  do 4 other_unit.
  apply (@CodeLiteral (Some " "%char) dquote
           (T "x" ++ backslash :: dquote :: T "}{")
           (T ", b: `)`, c: '(' "));
    [ left; reflexivity | discriminate | | ].
  { inside_unit. inside_unit.
    apply LitChar; [ intros _; reflexivity | ].
    inside_unit. inside_unit. apply LitEnd. discriminate. }
  do 5 other_unit.
  apply (@CodeLiteral (Some " "%char) "`"%char (T ")") (T ", c: '(' "));
    [ right; right; reflexivity | discriminate | | ].
  { inside_unit. apply LitEnd. discriminate. }
  do 5 other_unit.
  apply (@CodeLiteral (Some " "%char) "'"%char (T "(") (T " "));
    [ right; left; reflexivity | discriminate | | ].
  { inside_unit. apply LitEnd. discriminate. }
  other_unit. constructor.
Qed.

Lemma findEndpointsBlock_end_witness :
  findEndpointsBlock ex_literals = Some (Block 0 (19 + 30))
  /\ FirstNegative (Some "("%char) (skipn 19 ex_literals) scanner0 30.
Proof.
  exact (proj1 findEndpointsBlock_end ex_literals
           (T "{ a: " ++ dquote :: T "x" ++ backslash :: dquote :: T "}{"
              ++ dquote :: T ", b: `)`, c: '(' }")
           [] ")"%char (MResult 0 19 []) eq_refl eq_refl ex_literals_code
           (or_intror eq_refl)).
Defined.

(** The claim as written does not hold of every block whose brackets
    are balanced.  An apostrophe in a comment is taken for the start of
    a literal that never ends: the brackets after it are not counted,
    the counter never goes negative, and the block ends right after the
    marker, so that the declaration in the block is not found.  With a
    letter in the place of the apostrophe the block ends at its closing
    parenthesis and the declaration is found. *)
Lemma apostrophe_outside_a_literal :
  findEndpointsBlock ex_donut = Some (Block 0 72)
  /\ findEndpointDefinition (Document "api.ts" ex_donut) (T "getX")
     = Some (Loc "api.ts" 46)
  /\ nth_error ex_apostrophe 35 = Some "'"%char
  /\ firstn 35 ex_apostrophe = firstn 35 ex_donut
  /\ skipn 36 ex_apostrophe = skipn 36 ex_donut
  /\ NeverNegative (Some "("%char) (skipn 25 ex_apostrophe) scanner0
  /\ findEndpointsBlock ex_apostrophe = Some (Block 0 25)
  /\ fst (searchRegion ex_apostrophe) = T "endpoints: (builder) => ("
  /\ findEndpointDefinition (Document "api.ts" ex_apostrophe) (T "getX")
     = None.
Proof.
  split; [ vm_compute; reflexivity | ].
  split; [ vm_compute; reflexivity | ].
  split; [ vm_compute; reflexivity | ].
  split; [ vm_compute; reflexivity | ].
  split; [ vm_compute; reflexivity | ].
  split; [ | split; [ vm_compute; reflexivity
                    | split; vm_compute; reflexivity ] ].
  intros j Hj.
  do 48 (destruct j as [ | j]; [ vm_compute; discriminate | ]).
  vm_compute in Hj. lia.
Qed.

End BlockEnd.

(* ================================================================== *)
(** ** Where a location can lie *)

Module MatcherBounds.
Import RegexFacts BlockLocator DefinitionMatcher BlockBounds.

Lemma shape_length (region name : text) (i : nat) :
  UnquotedAt region name i \/ QuotedAt region name i ->
  i + List.length name < List.length region.
Proof.
  intros [(pre & ws1 & ws2 & tl & -> & <- & _)
         | (pre & q1 & q2 & tl & -> & <- & _)];
    repeat (rewrite ?length_app; cbn [List.length]); lia.
Qed.

Lemma substring_length (a b : nat) (s : text) :
  a <= b -> List.length (substring a b s) <= b - a.
Proof.
  intro H. unfold substring. rewrite length_firstn.
  replace (Nat.max a b) with b by lia. replace (Nat.min a b) with a by lia.
  lia.
Qed.

Lemma location_bounds (doc : document) (name : text) (loc : Location) :
  wordName name ->
  findEndpointDefinition doc name = Some loc ->
  loc_offset loc + List.length name < List.length (getText doc)
  /\ forall b, findEndpointsBlock (getText doc) = Some b ->
               start b <= loc_offset loc
               /\ loc_offset loc + List.length name < finish b.
Proof.
  intros Hw H. unfold findEndpointDefinition, searchRegion in H.
  destruct (findEndpointsBlock (getText doc)) as [b | ] eqn:Eb.
  - destruct (firstPattern (patterns name)
                (substring (start b) (finish b) (getText doc))) as [i | ] eqn:EF;
      [ | discriminate ].
    inversion H; subst loc; clear H. cbn [loc_offset].
    pose proof (shape_length _ _ _ (@firstPattern_shape _ _ _ Hw EF)) as HL.
    destruct (findEndpointsBlock_extent _ _ Eb)
      as (m & _ & _ & H15 & Hstop & Hfin & _).
    pose proof (substring_length (start b) (finish b) (getText doc)) as HS.
    split; [ lia | ].
    intros b' Eb'. inversion Eb'; subst b'. lia.
  - destruct (firstPattern (patterns name) (getText doc)) as [i | ] eqn:EF;
      [ | discriminate ].
    inversion H; subst loc; clear H. cbn [loc_offset].
    pose proof (shape_length _ _ _ (@firstPattern_shape _ _ _ Hw EF)) as HL.
    split; [ lia | intros b' Eb'; discriminate ].
Qed.

(** X6.  A location returned for a one-word candidate leaves room for
    the candidate in the document, and when the document has an
    endpoints block the candidate lies inside it, between the marker and
    the end of the block.  What is declared after the end of the first
    block, in a second block for one, is never returned. *)
Theorem location_in_block :
  (forall doc name loc,
      wordName name ->
      findEndpointDefinition doc name = Some loc ->
      loc_offset loc + List.length name < List.length (getText doc)
      /\ forall b, findEndpointsBlock (getText doc) = Some b ->
                   start b <= loc_offset loc
                   /\ loc_offset loc + List.length name < finish b)
  /\ findEndpointsBlock ex_two_blocks = Some (Block 33 96)
  /\ UnquotedDeclAt ex_two_blocks ex_endpoint 166
  /\ findEndpointDefinition (Document "api.ts" ex_two_blocks) ex_endpoint
     = None.
Proof.
  split; [ exact location_bounds | ].
  split; [ vm_compute; reflexivity | ].
  split; [ | vm_compute; reflexivity ].
  exists (firstn 166 ex_two_blocks), [], [" "%char], (T "er"), (T "query"),
         (skipn 195 ex_two_blocks).
  split; [ vm_compute; reflexivity | ].
  split; [ vm_compute; reflexivity | ].
  split; [ vm_compute; reflexivity | ].
  split; [ constructor | ]. split; [ repeat constructor | ].
  split; [ right; reflexivity | left; reflexivity ].
Qed.

Lemma ex_endpoint_word : wordName ex_endpoint.
Proof. split; [ discriminate | repeat constructor ]. Qed.

Lemma location_in_block_witness :
  84 + List.length ex_endpoint < List.length ex_api
  /\ forall b, findEndpointsBlock ex_api = Some b ->
               start b <= 84 /\ 84 + List.length ex_endpoint < finish b.
Proof.
  exact (proj1 location_in_block (Document "src/api/alerts.ts" ex_api)
           ex_endpoint (Loc "src/api/alerts.ts" 84) ex_endpoint_word eq_refl).
Defined.

(** X7.  A declaration written with whitespace around the dot of the
    builder call is enough for the lookup to succeed; where neither the
    unquoted nor the quoted pattern finds anything, the location returned
    is that of the first such declaration. *)
Theorem spaced_declaration_found (doc : document) (name : text) (i : nat) :
  wordName name ->
  SpacedDeclAt (fst (searchRegion (getText doc))) name i ->
  (exists loc, findEndpointDefinition doc name = Some loc)
  /\ (exec (unquotedPattern name) (fst (searchRegion (getText doc))) = None ->
      exec (quotedPattern name) (fst (searchRegion (getText doc))) = None ->
      exists m,
        exec (spacedPattern name) (fst (searchRegion (getText doc))) = Some m
        /\ index m <= i
        /\ findEndpointDefinition doc name
           = Some (Loc (uri doc)
                       (snd (searchRegion (getText doc)) + index m))).
Proof.
  intros Hw HD.
  destruct (spaced_decl_matches _ _ _ Hw HD) as (m & Em & Hm).
  rewrite findEndpointDefinition_byPriority. unfold byPriority. split.
  - destruct (exec (unquotedPattern name) _); [ eexists; reflexivity | ].
    destruct (exec (quotedPattern name) _); [ eexists; reflexivity | ].
    rewrite Em. eexists; reflexivity.
  - intros -> ->. exists m. rewrite Em. auto.
Qed.

Lemma ex_spaced_decl :
  SpacedDeclAt (fst (searchRegion ex_spaced)) ex_endpoint 6.
Proof.
  exists (T "x = { "), [" "%char], [" "%char], (T "er"), [" "%char],
         [" "%char], (T "query"), (T "({}) }").
  split; [ vm_compute; reflexivity | ].
  split; [ reflexivity | ]. split; [ reflexivity | ].
  do 4 (split; [ repeat constructor | ]).
  split; [ right; reflexivity | left; reflexivity ].
Qed.

Lemma spaced_declaration_found_witness :
  (exists loc,
      findEndpointDefinition (Document "api.ts" ex_spaced) ex_endpoint
      = Some loc)
  /\ (exec (unquotedPattern ex_endpoint) (fst (searchRegion ex_spaced)) = None ->
      exec (quotedPattern ex_endpoint) (fst (searchRegion ex_spaced)) = None ->
      exists m,
        exec (spacedPattern ex_endpoint) (fst (searchRegion ex_spaced)) = Some m
        /\ index m <= 6
        /\ findEndpointDefinition (Document "api.ts" ex_spaced) ex_endpoint
           = Some (Loc "api.ts" (snd (searchRegion ex_spaced) + index m))).
Proof.
  exact (spaced_declaration_found (Document "api.ts" ex_spaced) ex_endpoint 6
           ex_endpoint_word ex_spaced_decl).
Defined.

End MatcherBounds.

(* ================================================================== *)
(** ** Runs of the workspace search *)

Module SearchRuns.

Lemma enumerated_app (a b : list (nat * Event)) :
  enumerated (a ++ b) = enumerated a ++ enumerated b.
Proof.
  induction a as [ | [t ev] a IH]; [ reflexivity | ].
  destruct ev; cbn [app enumerated]; rewrite IH; reflexivity.
Qed.

Lemma opened_app (a b : list (nat * Event)) :
  opened (a ++ b) = opened a ++ opened b.
Proof.
  induction a as [ | [t ev] a IH]; [ reflexivity | ].
  destruct ev; cbn [app opened]; rewrite IH; reflexivity.
Qed.

Lemma enumerated_reads (t : nat) (files : list string) :
  enumerated (map (fun f => (t, EvOpenTextDocument f)) files) = [].
Proof. induction files as [ | f files IH]; [ reflexivity | exact IH ]. Qed.

Lemma opened_reads (t : nat) (files : list string) :
  opened (map (fun f => (t, EvOpenTextDocument f)) files) = files.
Proof.
  induction files as [ | f files IH]; [ reflexivity | ].
  cbn [map opened]. rewrite IH. reflexivity.
Qed.

Lemma silent_reads (t : nat) (files : list string) :
  Forall (fun e => silent (snd e) = true)
         (map (fun f => (t, EvOpenTextDocument f)) files).
Proof. induction files; constructor; [ reflexivity | assumption ]. Qed.

(** One turn of the loop over the patterns. *)
Lemma searchBatches_step (h : Host) (name : text) (p : string)
  (more : list string) (w : World) :
  searchBatches h name (p :: more) w
  = match findFiles h p with
    | Throw e =>
        (Throw e,
         MkWorld (trace w ++ [(clock w, EvLog ("[Search] Pattern: " ++ p));
                              (clock w, EvFindFiles p)])
                 (clock w + findFilesTime h p))
    | Ok files =>
        let w2 :=
          MkWorld (trace w
                   ++ [(clock w, EvLog ("[Search] Pattern: " ++ p));
                       (clock w, EvFindFiles p);
                       (clock w + findFilesTime h p,
                        EvLog "[Search] Found files")]
                   ++ map (fun f => (clock w + findFilesTime h p,
                                     EvOpenTextDocument f)) files)
                  (clock w + findFilesTime h p + maxOpenTime h files) in
        match firstMatch h name files with
        | Some (file, loc) =>
            (Ok (Some loc),
             MkWorld (trace w2
                      ++ [(clock w2, EvLog ("[Search] Found in " ++ file))])
                     (clock w2))
        | None => searchBatches h name more w2
        end
    end.
Proof.
  cbn [searchBatches]. rewrite Effects.bind_log, Effects.bind_await.
  destruct (findFiles h p) as [files | e].
  - rewrite Effects.bind_log. cbn [trace clock]. destruct files as [ | f files].
    + cbn [firstMatch map maxOpenTime fold_right]. f_equal. f_equal.
      * rewrite <- !app_assoc. reflexivity.
      * lia.
    + unfold bind at 1. unfold scanBatch at 1. cbn [trace clock].
      rewrite BatchScan.batch_result.
      replace (((trace w ++ [(clock w, EvLog ("[Search] Pattern: " ++ p))])
                ++ [(clock w, EvFindFiles p)])
               ++ [(clock w + findFilesTime h p, EvLog "[Search] Found files")])
        with (trace w
              ++ [(clock w, EvLog ("[Search] Pattern: " ++ p));
                  (clock w, EvFindFiles p);
                  (clock w + findFilesTime h p, EvLog "[Search] Found files")])
        by (rewrite <- !app_assoc; reflexivity).
      rewrite <- app_assoc.
      destruct (firstMatch h name (f :: files)) as [[file loc] | ].
      * rewrite Effects.bind_log. reflexivity.
      * reflexivity.
  - cbn [trace clock]. rewrite <- app_assoc. reflexivity.
Qed.

Lemma searchBatches_nil (h : Host) (name : text) (w : World) :
  searchBatches h name [] w
  = (Ok None,
     MkWorld (trace w ++ [(clock w, EvLog "[Search] Not found")]) (clock w)).
Proof. cbn [searchBatches]. rewrite Effects.bind_log. reflexivity. Qed.

(** The loop returns what [answerOf] says, after [batchesTime]. *)
Lemma searchBatches_answer (h : Host) (name : text) (ps : list string) :
  forall w,
    fst (searchBatches h name ps w) = answerOf h name ps
    /\ clock (snd (searchBatches h name ps w))
       = clock w + batchesTime h name ps.
Proof.
  induction ps as [ | p ps IH]; intro w.
  - rewrite searchBatches_nil. cbn. split; [ reflexivity | lia ].
  - rewrite searchBatches_step. cbn [answerOf batchesTime].
    destruct (findFiles h p) as [files | e].
    + cbv zeta. destruct (firstMatch h name files) as [[file loc] | ].
      * cbn. split; [ reflexivity | lia ].
      * destruct (IH (MkWorld
                        (trace w
                         ++ [(clock w, EvLog ("[Search] Pattern: " ++ p));
                             (clock w, EvFindFiles p);
                             (clock w + findFilesTime h p,
                              EvLog "[Search] Found files")]
                         ++ map (fun f => (clock w + findFilesTime h p,
                                           EvOpenTextDocument f)) files)
                        (clock w + findFilesTime h p + maxOpenTime h files)))
          as (IH1 & IH2).
        split; [ exact IH1 | ]. rewrite IH2. cbn [clock]. lia.
    + cbn. split; [ reflexivity | lia ].
Qed.

(** The search as a whole, its two wrappers taken off. *)
Lemma searchInWorkspace_run (h : Host) (name : text) (w : World) :
  searchInWorkspace h name w
  = let w0 :=
      MkWorld (trace w ++ [(clock w, EvLog "[Search] Looking for endpoint");
                           (clock w, EvGetConfiguration)])
              (clock w) in
    match configuredPatterns h with
    | None =>
        (Ok None,
         MkWorld (trace w0 ++ [(clock w, EvLog "[Search] Error")]) (clock w))
    | Some ps =>
        match searchBatches h name ps w0 with
        | (Ok r, w') => (Ok r, w')
        | (Throw _, w') =>
            (Ok None,
             MkWorld (trace w' ++ [(clock w', EvLog "[Search] Error")])
                     (clock w'))
        end
    end.
Proof.
  unfold searchInWorkspace, configuredPatterns.
  rewrite Effects.bind_log. unfold try_catch. rewrite Effects.bind_await.
  cbn [trace clock]. rewrite <- app_assoc, Nat.add_0_r. cbn [app].
  destruct (searchPatternsSetting h) as [[l | ] | e].
  - destruct (searchBatches h name l _) as [[r | e] w']; [ reflexivity | ].
    rewrite Effects.bind_log. reflexivity.
  - destruct (searchBatches h name defaultSearchPatterns _) as [[r | e] w'];
      [ reflexivity | ].
    rewrite Effects.bind_log. reflexivity.
  - rewrite Effects.bind_log. reflexivity.
Qed.

Lemma searchInWorkspace_answer (h : Host) (name : text) (w : World) :
  fst (searchInWorkspace h name w) = Ok (workspaceAnswer h name)
  /\ clock (snd (searchInWorkspace h name w)) = clock w + searchTime h name.
Proof.
  rewrite searchInWorkspace_run. unfold workspaceAnswer, searchTime. cbv zeta.
  destruct (configuredPatterns h) as [ps | ].
  - match goal with
    | |- context [searchBatches h name ps ?w0] =>
        destruct (searchBatches_answer h name ps w0) as (E1 & E2);
        destruct (searchBatches h name ps w0) as [[r | e] w']
    end; cbn [fst snd clock] in *; rewrite <- E1; split; auto.
  - cbn. split; [ reflexivity | lia ].
Qed.

Lemma answerOf_same (h1 h2 : Host) (name : text) (ps : list string) :
  sameWorkspace h1 h2 -> answerOf h1 name ps = answerOf h2 name ps.
Proof.
  intros (Hf & Ho). induction ps as [ | p ps IH]; [ reflexivity | ].
  cbn [answerOf]. rewrite Hf. destruct (findFiles h2 p) as [files | e];
    [ | reflexivity ].
  rewrite (@BatchScan.firstMatch_same h1 h2 name files Ho), IH. reflexivity.
Qed.

Lemma ex_slow_same : sameWorkspace ex_host ex_slow.
Proof. split; intro; reflexivity. Qed.

(** X8.  The workspace search returns the location that the patterns,
    the files behind them and the contents of the files determine, and
    takes the time of the batches it goes through: what was logged
    before and how long the calls take play no part in the answer, so
    two editors with the same setting and the same workspace give the
    same answer. *)
Theorem search_answer :
  (forall h name w,
      fst (searchInWorkspace h name w) = Ok (workspaceAnswer h name)
      /\ clock (snd (searchInWorkspace h name w)) = clock w + searchTime h name)
  /\ (forall h1 h2 name w1 w2,
         sameWorkspace h1 h2 ->
         searchPatternsSetting h1 = searchPatternsSetting h2 ->
         fst (searchInWorkspace h1 name w1)
         = fst (searchInWorkspace h2 name w2)).
Proof.
  split; [ exact searchInWorkspace_answer | ].
  intros h1 h2 name w1 w2 Hs Hp.
  rewrite (proj1 (searchInWorkspace_answer h1 name w1)).
  rewrite (proj1 (searchInWorkspace_answer h2 name w2)).
  unfold workspaceAnswer, configuredPatterns. rewrite Hp.
  destruct (searchPatternsSetting h2) as [[l | ] | e]; try reflexivity;
    rewrite (answerOf_same h1 h2 name _ Hs); reflexivity.
Qed.

Lemma search_answer_witness :
  fst (searchInWorkspace ex_host ex_endpoint world0)
  = fst (searchInWorkspace ex_slow ex_endpoint
           (MkWorld [(7, EvLog "earlier")] 7)).
Proof.
  exact (proj2 search_answer ex_host ex_slow ex_endpoint world0
           (MkWorld [(7, EvLog "earlier")] 7) ex_slow_same eq_refl).
Defined.

(** Batches without the endpoint are gone through one after the other. *)
Lemma searchBatches_skip (h : Host) (name : text) (before : list string) :
  (forall q, In q before ->
     exists fs, findFiles h q = Ok fs /\ firstMatch h name fs = None) ->
  forall rest w, exists added t,
    searchBatches h name (before ++ rest) w
    = searchBatches h name rest (MkWorld (trace w ++ added) (clock w + t))
    /\ enumerated added = before
    /\ Forall (fun e => silent (snd e) = true) added.
Proof.
  induction before as [ | q before IH]; intros Hb rest w.
  - exists [], 0. rewrite app_nil_r, Nat.add_0_r. destruct w.
    split; [ reflexivity | split; [ reflexivity | constructor ] ].
  - destruct (Hb q (or_introl eq_refl)) as (fs & Ef & Em).
    cbn [app]. rewrite searchBatches_step, Ef, Em. cbv zeta.
    match goal with
    | |- context [searchBatches h name (before ++ rest) ?w2] =>
        destruct (IH (fun q' H => Hb q' (or_intror H)) rest w2)
          as (added & t & E & En & Hs)
    end.
    rewrite E. cbn [trace clock].
    exists (([(clock w, EvLog ("[Search] Pattern: " ++ q));
              (clock w, EvFindFiles q);
              (clock w + findFilesTime h q, EvLog "[Search] Found files")]
             ++ map (fun f => (clock w + findFilesTime h q,
                               EvOpenTextDocument f)) fs) ++ added),
           (findFilesTime h q + maxOpenTime h fs + t).
    split; [ | split ].
    + f_equal. f_equal; [ rewrite !app_assoc; reflexivity | lia ].
    + rewrite !enumerated_app, enumerated_reads, En. reflexivity.
    + apply Forall_app. split; [ | exact Hs ].
      apply Forall_app. split; [ | apply silent_reads ].
      repeat constructor.
Qed.

Lemma searchBatches_calls (h : Host) (name : text) (ps : list string) :
  forall w, exists added,
    trace (snd (searchBatches h name ps w)) = trace w ++ added
    /\ Forall (fun e => silent (snd e) = true) added
    /\ (exists rest, ps = enumerated added ++ rest)
    /\ (forall f, In f (opened added) ->
          exists p fs,
            In p (enumerated added) /\ findFiles h p = Ok fs /\ In f fs).
Proof.
  induction ps as [ | p ps IH]; intro w.
  - rewrite searchBatches_nil. eexists. split; [ reflexivity | ].
    split; [ repeat constructor | ].
    split; [ exists []; reflexivity | intros f [] ].
  - rewrite searchBatches_step. destruct (findFiles h p) as [fs | e] eqn:Ef.
    + cbv zeta. destruct (firstMatch h name fs) as [[file loc] | ].
      * cbn [snd trace clock]. rewrite <- !app_assoc.
        eexists. split; [ reflexivity | ].
        split; [ | split ].
        -- apply Forall_app. split; [ repeat constructor | ].
           apply Forall_app. split; [ apply silent_reads | repeat constructor ].
        -- exists ps. rewrite !enumerated_app, enumerated_reads. reflexivity.
        -- intros f Hf. rewrite !opened_app, opened_reads in Hf.
           cbn [opened app] in Hf. rewrite app_nil_r in Hf.
           exists p, fs. rewrite !enumerated_app. cbn [enumerated app].
           split; [ left; reflexivity | split; [ exact Ef | exact Hf ] ].
      * match goal with
        | |- context [searchBatches h name ps ?w2] =>
            destruct (IH w2) as (added & Et & Hs & (rest & Er) & Ho)
        end.
        rewrite Et. cbn [trace]. rewrite <- !app_assoc.
        eexists. split; [ reflexivity | ].
        split; [ | split ].
        -- apply Forall_app. split; [ repeat constructor | ].
           apply Forall_app. split; [ apply silent_reads | exact Hs ].
        -- exists rest. rewrite !enumerated_app, enumerated_reads.
           cbn [enumerated app]. rewrite <- Er. reflexivity.
        -- intros f Hf. rewrite !opened_app, opened_reads in Hf.
           cbn [opened app] in Hf. rewrite !enumerated_app, enumerated_reads.
           cbn [enumerated app].
           apply in_app_or in Hf. destruct Hf as [Hf | Hf].
           ++ exists p, fs.
              split; [ left; reflexivity | split; [ exact Ef | exact Hf ] ].
           ++ destruct (Ho f Hf) as (p' & fs' & Hp' & Ef' & Hf').
              exists p', fs'. split; [ right; exact Hp' | split; assumption ].
    + cbn [snd trace]. eexists. split; [ reflexivity | ].
      split; [ repeat constructor | ].
      split; [ exists ps; reflexivity | intros f [] ].
Qed.

Lemma searchInWorkspace_calls (h : Host) (name : text) (w : World) :
  exists added,
    trace (snd (searchInWorkspace h name w)) = trace w ++ added
    /\ Forall (fun e => silent (snd e) = true) added
    /\ (forall ps, configuredPatterns h = Some ps ->
          exists rest, ps = enumerated added ++ rest)
    /\ (configuredPatterns h = None -> enumerated added = [])
    /\ (forall f, In f (opened added) ->
          exists p fs,
            In p (enumerated added) /\ findFiles h p = Ok fs /\ In f fs).
Proof.
  rewrite searchInWorkspace_run. cbv zeta.
  destruct (configuredPatterns h) as [ps | ].
  - match goal with
    | |- context [searchBatches h name ps ?w0] =>
        destruct (searchBatches_calls h name ps w0)
          as (added & Et & Hs & (rest & Er) & Ho);
        destruct (searchBatches h name ps w0) as [[r | e] w']
    end; cbn [snd trace] in *; rewrite Et, <- ?app_assoc;
      (eexists; split; [ reflexivity | ]).
    + split; [ apply Forall_app; split; [ repeat constructor | exact Hs ] | ].
      split; [ intros ps' [= <-]; exists rest; exact Er | ].
      split; [ discriminate | exact Ho ].
    + split; [ apply Forall_app; split; [ repeat constructor | ];
               apply Forall_app; split; [ exact Hs | repeat constructor ] | ].
      rewrite !enumerated_app, !opened_app. cbn [enumerated opened app].
      rewrite !app_nil_r.
      split; [ intros ps' [= <-]; exists rest; exact Er | ].
      split; [ discriminate | exact Ho ].
  - cbn [snd trace]. rewrite <- app_assoc.
    eexists. split; [ reflexivity | ].
    split; [ repeat constructor | ].
    split; [ discriminate | ].
    split; [ reflexivity | intros f [] ].
Qed.

(** X9.  The patterns are gone through in order and the first batch with
    the endpoint ends the search: when the batches of the patterns
    before [p] have no file with the endpoint and the batch of [p] has
    one, the search returns the location in the first such file of that
    batch, and the patterns it has enumerated are those up to [p]; the
    patterns after [p] are never enumerated. *)
Theorem first_matching_batch_wins (h : Host) (name : text)
  (before after : list string) (p : string) (files : list string)
  (file : string) (loc : Location) (w : World) :
  configuredPatterns h = Some (before ++ p :: after) ->
  (forall q, In q before ->
     exists fs, findFiles h q = Ok fs /\ firstMatch h name fs = None) ->
  findFiles h p = Ok files ->
  firstMatch h name files = Some (file, loc) ->
  exists added c,
    searchInWorkspace h name w = (Ok (Some loc), MkWorld (trace w ++ added) c)
    /\ enumerated added = before ++ [p]
    /\ (forall f, In f files -> In f (opened added)).
Proof.
  intros Hps Hb Ef Em. rewrite searchInWorkspace_run, Hps. cbv zeta.
  match goal with
  | |- context [searchBatches h name _ ?w0] =>
      destruct (searchBatches_skip h name before Hb (p :: after) w0)
        as (added & t & E & En & _)
  end.
  rewrite E, searchBatches_step, Ef, Em. cbv zeta. cbn [trace clock].
  rewrite <- !app_assoc. do 2 eexists. split; [ reflexivity | ].
  rewrite !enumerated_app, !opened_app, enumerated_reads, opened_reads, En.
  cbn [enumerated opened app]. rewrite app_nil_r.
  split; [ reflexivity | ].
  intros f Hf. apply in_or_app. right. exact Hf.
Qed.

Lemma first_matching_batch_wins_witness :
  exists added c,
    searchInWorkspace ex_second ex_endpoint world0
    = (Ok (Some (Loc "src/api/alerts.ts" 84)),
       MkWorld (trace world0 ++ added) c)
    /\ enumerated added
       = ["**/features/**/api/*.{ts,tsx}"]%string
         ++ ["**/api/**/*.{ts,tsx}"]%string
    /\ (forall f, In f ["src/api/alerts.ts"]%string -> In f (opened added)).
Proof.
  apply (first_matching_batch_wins ex_second ex_endpoint
           ["**/features/**/api/*.{ts,tsx}"]%string
           ["**/services/**/*.{ts,tsx}"; "**/*api*.{ts,tsx}"]%string
           "**/api/**/*.{ts,tsx}"%string
           ["src/api/alerts.ts"]%string
           "src/api/alerts.ts"%string (Loc "src/api/alerts.ts" 84) world0).
  - reflexivity.
  - intros q [<- | []]. exists ["src/api/other.ts"]%string.
    split; vm_compute; reflexivity.
  - reflexivity.
  - vm_compute. reflexivity.
Defined.

(** X10.  A pattern that cannot be enumerated ends the whole search:
    when the batches before [p] have no file with the endpoint and
    [findFiles] throws on [p], the search logs the error and returns
    "not found", and the patterns after [p] are never enumerated,
    whatever lies behind them. *)
Theorem enumeration_failure_ends_search (h : Host) (name : text)
  (before after : list string) (p : string) (e : string) (w : World) :
  configuredPatterns h = Some (before ++ p :: after) ->
  (forall q, In q before ->
     exists fs, findFiles h q = Ok fs /\ firstMatch h name fs = None) ->
  findFiles h p = Throw e ->
  exists added c,
    searchInWorkspace h name w
    = (Ok None,
       MkWorld (trace w ++ added ++ [(c, EvLog "[Search] Error")]) c)
    /\ enumerated added = before ++ [p].
Proof.
  intros Hps Hb Ef. rewrite searchInWorkspace_run, Hps. cbv zeta.
  match goal with
  | |- context [searchBatches h name _ ?w0] =>
      destruct (searchBatches_skip h name before Hb (p :: after) w0)
        as (added & t & E & En & _)
  end.
  rewrite E, searchBatches_step, Ef. cbn [trace clock].
  rewrite <- !app_assoc.
  eexists (_ :: _ :: added ++ [_; _]), _. split.
  - cbn [app]. rewrite <- !app_assoc. reflexivity.
  - cbn [enumerated]. rewrite enumerated_app, En. reflexivity.
Qed.

Lemma enumeration_failure_ends_search_witness :
  exists added c,
    searchInWorkspace ex_broken ex_endpoint world0
    = (Ok None,
       MkWorld (trace world0 ++ added ++ [(c, EvLog "[Search] Error")]) c)
    /\ enumerated added = [] ++ ["**/features/**/api/*.{ts,tsx}"]%string.
Proof.
  apply (enumeration_failure_ends_search ex_broken ex_endpoint []
           ["**/api/**/*.{ts,tsx}"; "**/services/**/*.{ts,tsx}";
            "**/*api*.{ts,tsx}"]%string
           "**/features/**/api/*.{ts,tsx}"%string
           "cannot enumerate"%string world0).
  - reflexivity.
  - intros q [].
  - reflexivity.
Defined.

(** X11.  What a search does to the editor: it only adds to the log of
    calls; nothing it adds shows a document or a message; the patterns
    it enumerates are the first ones of the configured list, in order
    and each once (none when the setting cannot be read); and every file
    it opens was returned by one of the enumerations it made. *)
Theorem search_calls (h : Host) (name : text) (w : World) :
  exists added,
    trace (snd (searchInWorkspace h name w)) = trace w ++ added
    /\ Forall (fun e => silent (snd e) = true) added
    /\ (forall ps, configuredPatterns h = Some ps ->
          exists rest, ps = enumerated added ++ rest)
    /\ (configuredPatterns h = None -> enumerated added = [])
    /\ (forall f, In f (opened added) ->
          exists p fs,
            In p (enumerated added) /\ findFiles h p = Ok fs /\ In f fs).
Proof. exact (searchInWorkspace_calls h name w). Qed.

End SearchRuns.

(* ================================================================== *)
(** ** The click path and the command *)

Module Lookups.

Lemma world_eta (w : World) : MkWorld (trace w ++ []) (clock w) = w.
Proof. destruct w. cbn. rewrite app_nil_r. reflexivity. Qed.

(** X12.  A request that the editor has cancelled never reaches the
    workspace and takes no time; the cancellation is looked at only
    after the current document, so the request still returns the
    location of a declaration found there, and returns one in no other
    case. *)
Theorem cancelled_request (h : Host) (doc : document) (position : nat)
  (w : World) :
  isCancellationRequested h = true ->
  exists r added,
    provideDefinition h doc position w
    = (Ok r, MkWorld (trace w ++ added) (clock w))
    /\ Forall (fun e => workspaceEvent (snd e) = false) added
    /\ (forall loc,
          r = Some loc <->
          exists word name,
            wordAt h doc position = Ok (Some word)
            /\ hookNameToEndpointName word = Some name
            /\ findEndpointDefinition doc name = Some loc).
Proof.
  intro Hc. unfold provideDefinition, try_catch. rewrite Effects.bind_ask.
  destruct (wordAt h doc position) as [[word | ] | e].
  - destruct (looksLikeHook word) eqn:El; cbn [negb].
    + destruct (hookNameToEndpointName word) as [name | ] eqn:Eh.
      * rewrite Effects.bind_log.
        destruct (findEndpointDefinition doc name) as [loc | ] eqn:Ef.
        -- rewrite Effects.bind_log. unfold ret. cbn [trace clock].
           rewrite <- app_assoc.
           do 2 eexists. split; [ reflexivity | ].
           split; [ repeat constructor | ].
           intro loc'. split.
           ++ intros [= <-]. exists word, name. auto.
           ++ intros (word' & name' & [= <-] & Eh' & Ef').
              rewrite Eh in Eh'. injection Eh' as <-. rewrite Ef in Ef'.
              exact Ef'.
        -- rewrite Hc, Effects.bind_log. unfold ret. cbn [trace clock].
           rewrite <- app_assoc.
           do 2 eexists. split; [ reflexivity | ].
           split; [ repeat constructor | ].
           intro loc'. split; [ discriminate | ].
           intros (word' & name' & [= <-] & Eh' & Ef').
           rewrite Eh in Eh'. injection Eh' as <-. rewrite Ef in Ef'.
           discriminate.
      * unfold ret. exists None, []. rewrite world_eta.
        split; [ reflexivity | ]. split; [ constructor | ].
        intro loc'. split; [ discriminate | ].
        intros (word' & name' & [= <-] & Eh' & _). rewrite Eh in Eh'.
        discriminate.
    + unfold ret. exists None, []. rewrite world_eta.
      split; [ reflexivity | ]. split; [ constructor | ].
      intro loc'. split; [ discriminate | ].
      intros (word' & name' & [= <-] & Eh' & _).
      rewrite (@EntryPoints.hook_looksLikeHook word name' Eh') in El.
      discriminate.
  - unfold ret. exists None, []. rewrite world_eta.
    split; [ reflexivity | ]. split; [ constructor | ].
    intro loc'. split; [ discriminate | ].
    intros (word' & name' & E & _). discriminate.
  - rewrite Effects.bind_log. unfold ret.
    do 2 eexists. split; [ reflexivity | ].
    split; [ repeat constructor | ].
    intro loc'. split; [ discriminate | ].
    intros (word' & name' & E & _). discriminate.
Qed.

Lemma cancelled_request_witness :
  exists r added,
    provideDefinition ex_cancelled (Document "src/api/alerts.ts" ex_self) 230
                      world0
    = (Ok r, MkWorld (trace world0 ++ added) (clock world0))
    /\ Forall (fun e => workspaceEvent (snd e) = false) added
    /\ (forall loc,
          r = Some loc <->
          exists word name,
            wordAt ex_cancelled (Document "src/api/alerts.ts" ex_self) 230
            = Ok (Some word)
            /\ hookNameToEndpointName word = Some name
            /\ findEndpointDefinition (Document "src/api/alerts.ts" ex_self)
                                      name
               = Some loc).
Proof.
  exact (cancelled_request ex_cancelled (Document "src/api/alerts.ts" ex_self)
           230 world0 eq_refl).
Defined.

Lemma race_won (h : Host) (name : text) (w : World) :
  searchTime h name < 2000 ->
  exists w',
    raceTimeout 2000 (searchInWorkspace h name) w
    = (Ok (workspaceAnswer h name), w')
    /\ clock w' = clock w + searchTime h name.
Proof.
  intro Ht. unfold raceTimeout.
  destruct (SearchRuns.searchInWorkspace_answer h name w) as (E1 & E2).
  destruct (searchInWorkspace h name w) as [r w2]. cbn [fst snd] in E1, E2.
  subst r. replace (clock w2 - clock w <? 2000) with true
    by (symmetry; apply Nat.ltb_lt; lia).
  eexists. split; [ reflexivity | exact E2 ].
Qed.

(** X13.  The other side of the timer: when the word under the cursor is
    a hook whose endpoint is not declared in the current document, the
    request is not cancelled and the search of the workspace takes less
    than two seconds, the click path returns what the search returns,
    at the time the search is over. *)
Theorem search_within_the_timer (h : Host) (doc : document) (position : nat)
  (word name : text) (w : World) :
  wordAt h doc position = Ok (Some word) ->
  hookNameToEndpointName word = Some name ->
  findEndpointDefinition doc name = None ->
  isCancellationRequested h = false ->
  searchTime h name < 2000 ->
  fst (provideDefinition h doc position w) = Ok (workspaceAnswer h name)
  /\ clock (snd (provideDefinition h doc position w))
     = clock w + searchTime h name.
Proof.
  intros Hword Hhook Hfind Hcancel Ht.
  assert (H : exists w',
             provideDefinition h doc position w
             = (Ok (workspaceAnswer h name), w')
             /\ clock w' = clock w + searchTime h name).
  { unfold provideDefinition, try_catch.
    rewrite Effects.bind_ask, Hword,
      (@EntryPoints.hook_looksLikeHook _ _ Hhook).
    cbn [negb].
    rewrite Hhook, Effects.bind_log, Hfind, Hcancel, Effects.bind_log.
    unfold bind at 1.
    match goal with
    | |- context [raceTimeout 2000 _ ?w1] =>
        destruct (race_won h name w1 Ht) as (w' & E & Ec); rewrite E
    end.
    cbn [clock] in Ec.
    destruct (workspaceAnswer h name) as [loc | ];
      rewrite Effects.bind_log; unfold ret;
      (eexists; split; [ reflexivity | exact Ec ]). }
  destruct H as (w' & E & Ec). rewrite E. split; [ reflexivity | exact Ec ].
Qed.

Lemma search_within_the_timer_witness :
  fst (provideDefinition ex_host (Document "src/Alert.tsx" ex_component) 60
                         world0)
  = Ok (workspaceAnswer ex_host ex_endpoint)
  /\ clock (snd (provideDefinition ex_host
                   (Document "src/Alert.tsx" ex_component) 60 world0))
     = clock world0 + searchTime ex_host ex_endpoint.
Proof.
  apply (search_within_the_timer ex_host
           (Document "src/Alert.tsx" ex_component) 60 ex_hook ex_endpoint
           world0 eq_refl eq_refl eq_refl eq_refl).
  apply Nat.ltb_lt. vm_compute. reflexivity.
Defined.

(** What a location returned by the click path comes from. *)
Lemma click_result_origin (h : Host) (doc : document) (position : nat)
  (loc : Location) (w : World) :
  fst (provideDefinition h doc position w) = Ok (Some loc) ->
  exists word name,
    wordAt h doc position = Ok (Some word)
    /\ hookNameToEndpointName word = Some name
    /\ (findEndpointDefinition doc name = Some loc
        \/ (findEndpointDefinition doc name = None
            /\ isCancellationRequested h = false
            /\ workspaceAnswer h name = Some loc
            /\ searchTime h name < 2000)).
Proof.
  unfold provideDefinition, try_catch. rewrite Effects.bind_ask.
  destruct (wordAt h doc position) as [[word | ] | e];
    [ | discriminate | rewrite Effects.bind_log; discriminate ].
  destruct (looksLikeHook word); cbn [negb]; [ | discriminate ].
  destruct (hookNameToEndpointName word) as [name | ] eqn:Eh;
    [ | discriminate ].
  rewrite Effects.bind_log.
  destruct (findEndpointDefinition doc name) as [loc' | ] eqn:Ef.
  { rewrite Effects.bind_log. unfold ret. intros [= <-].
    exists word, name. auto. }
  destruct (isCancellationRequested h) eqn:Ec;
    [ rewrite Effects.bind_log; discriminate | ].
  rewrite Effects.bind_log. unfold bind at 1. unfold raceTimeout.
  match goal with
  | |- context [searchInWorkspace h name ?w1] =>
      destruct (SearchRuns.searchInWorkspace_answer h name w1) as (E1 & E2);
      destruct (searchInWorkspace h name w1) as [r w2]
  end.
  cbn [fst snd clock] in E1, E2. subst r.
  destruct (clock w2 - _ <? 2000) eqn:Et.
  - apply Nat.ltb_lt in Et. cbn [clock] in Et.
    destruct (workspaceAnswer h name) as [loc' | ] eqn:Ea;
      rewrite Effects.bind_log; unfold ret; cbn [fst]; [ | discriminate ].
    intros [= <-]. exists word, name.
    split; [ reflexivity | split; [ exact Eh | right ] ].
    split; [ exact Ef | split; [ reflexivity | split; [ exact Ea | lia ] ] ].
  - rewrite Effects.bind_log. discriminate.
Qed.

(** X14.  The two entry points agree where the click path succeeds: a
    location returned for a click at the cursor of the active editor is
    the location the command hands to [showTextDocument] when it is run
    there, whatever was logged before and whenever it is run. *)
Theorem command_shows_what_the_click_returns (h : Host) (doc : document)
  (position : nat) (loc : Location) (w1 w2 : World) :
  activeTextEditor h = Some (doc, position) ->
  fst (provideDefinition h doc position w1) = Ok (Some loc) ->
  exists t,
    In (t, EvShowTextDocument loc) (trace (snd (navigateToEndpoint h w2))).
Proof.
  intros Hed Hclick.
  destruct (click_result_origin h doc position loc w1 Hclick)
    as (word & name & Hword & Hhook & Hfrom).
  unfold navigateToEndpoint. rewrite Hed, Effects.bind_ask, Hword.
  rewrite (@EntryPoints.hook_looksLikeHook _ _ Hhook). cbn [negb].
  rewrite Hhook. unfold showInformationMessage at 1. rewrite Effects.bind_emit.
  destruct Hfrom as [Hdoc | (Hdoc & _ & Hans & _)]; rewrite Hdoc.
  - rewrite Effects.bind_ret, Effects.bind_await.
    destruct (showTextDocument h loc) as [[] | e].
    + unfold showInformationMessage, emit. cbn [snd trace clock].
      eexists. apply in_or_app. left. apply in_or_app. right. left.
      reflexivity.
    + cbn [snd trace]. eexists. apply in_or_app. right. left. reflexivity.
  - unfold bind at 1.
    match goal with
    | |- context [searchInWorkspace h name ?w0] =>
        destruct (SearchRuns.searchInWorkspace_answer h name w0) as (E1 & _);
        destruct (searchInWorkspace h name w0) as [r w3]
    end.
    cbn [fst] in E1. subst r. rewrite Hans, Effects.bind_await.
    destruct (showTextDocument h loc) as [[] | e].
    + unfold showInformationMessage, emit. cbn [snd trace clock].
      eexists. apply in_or_app. left. apply in_or_app. right. left.
      reflexivity.
    + cbn [snd trace]. eexists. apply in_or_app. right. left. reflexivity.
Qed.

Lemma command_shows_what_the_click_returns_witness :
  exists t,
    In (t, EvShowTextDocument (Loc "src/api/alerts.ts" 84))
       (trace (snd (navigateToEndpoint ex_host
                      (MkWorld [(5, EvLog "earlier")] 5)))).
Proof.
  apply (command_shows_what_the_click_returns ex_host
           (Document "src/Alert.tsx" ex_component) 60
           (Loc "src/api/alerts.ts" 84) world0
           (MkWorld [(5, EvLog "earlier")] 5)).
  - reflexivity.
  - vm_compute. reflexivity.
Defined.

Lemma silent_preliminary (tr : list (nat * Event)) :
  Forall (fun e => silent (snd e) = true) tr ->
  Forall (fun e => preliminary (snd e) = true) tr.
Proof.
  apply Forall_impl. intros [t ev]. destruct ev; cbn; congruence.
Qed.

Lemma silent_notAnError (tr : list (nat * Event)) :
  Forall (fun e => silent (snd e) = true) tr ->
  Forall (fun e => notAnError (snd e) = true) tr.
Proof.
  apply Forall_impl. intros [t ev]. destruct ev; cbn; congruence.
Qed.

Lemma verdict_of_error (h : Host) (msg : string) (w : World) :
  exists r added c,
    showErrorMessage msg w = (r, MkWorld (trace w ++ added) c)
    /\ commandOutcome h r added.
Proof.
  exists (Ok tt), [(clock w, EvShowErrorMessage msg)], (clock w).
  split; [ reflexivity | ]. left. exists [], (clock w), msg.
  split; [ reflexivity | split; [ reflexivity | constructor ] ].
Qed.

(** The end of the command once the location is known. *)
Lemma verdict_of_location (h : Host) (name : string)
  (location : option Location) (pre : list (nat * Event)) (w : World)
  (c : nat) :
  Forall (fun e => silent (snd e) = true \/ exists m, snd e = EvShowInformationMessage m) pre ->
  exists r added c',
    match location with
    | Some loc =>
        await (EvShowTextDocument loc) 0 (showTextDocument h loc) ;;;
        showInformationMessage ("Found: " ++ name)
    | None => showErrorMessage ("Endpoint not found: " ++ name)
    end (MkWorld (trace w ++ pre) c)
    = (r, MkWorld (trace w ++ added) c')
    /\ commandOutcome h r added.
Proof.
  intro Hpre.
  assert (Hp : Forall (fun e => preliminary (snd e) = true) pre).
  { revert Hpre. apply Forall_impl. intros [t ev] [H | (m & H)]; cbn in *.
    - destruct ev; cbn in *; congruence.
    - subst ev. reflexivity. }
  assert (Hn : Forall (fun e => notAnError (snd e) = true) pre).
  { revert Hpre. apply Forall_impl. intros [t ev] [H | (m & H)]; cbn in *.
    - destruct ev; cbn in *; congruence.
    - subst ev. reflexivity. }
  destruct location as [loc | ].
  - rewrite Effects.bind_await.
    destruct (showTextDocument h loc) as [[] | e] eqn:Es.
    + unfold showInformationMessage, emit. cbn [trace clock].
      rewrite <- !app_assoc. do 3 eexists. split; [ reflexivity | ].
      right. left. exists pre, c, loc, ("Found: " ++ name)%string.
      rewrite Nat.add_0_r.
      split; [ reflexivity | split; [ reflexivity | split; assumption ] ].
    + cbn [trace clock]. rewrite <- !app_assoc.
      do 3 eexists. split; [ reflexivity | ].
      right. right. exists e. split; [ reflexivity | ].
      split; [ apply Forall_app; split; [ exact Hn | repeat constructor ] | ].
      right. exists loc. exact Es.
  - unfold showErrorMessage, emit. cbn [trace clock]. rewrite <- !app_assoc.
    do 3 eexists. split; [ reflexivity | ].
    left. exists pre, c, ("Endpoint not found: " ++ name)%string.
    split; [ reflexivity | split; [ reflexivity | exact Hp ] ].
Qed.

Lemma navigateToEndpoint_run (h : Host) (w : World) :
  exists r added c,
    navigateToEndpoint h w = (r, MkWorld (trace w ++ added) c)
    /\ commandOutcome h r added.
Proof.
  unfold navigateToEndpoint.
  destruct (activeTextEditor h) as [[doc position] | ] eqn:Ed;
    [ | apply verdict_of_error ].
  rewrite Effects.bind_ask.
  destruct (wordAt h doc position) as [[word | ] | e] eqn:Ew.
  - destruct (negb (looksLikeHook word)); [ apply verdict_of_error | ].
    destruct (hookNameToEndpointName word) as [name | ];
      [ | apply verdict_of_error ].
    unfold showInformationMessage at 1. rewrite Effects.bind_emit.
    destruct (findEndpointDefinition doc name) as [loc | ].
    + rewrite Effects.bind_ret.
      apply (verdict_of_location h (string_of_list_ascii name) (Some loc)
               [(clock w, EvShowInformationMessage
                            ("Searching for endpoint: "
                             ++ string_of_list_ascii name ++ "..."))]
               w (clock w)).
      constructor; [ right; eexists; reflexivity | constructor ].
    + unfold bind at 1.
      match goal with
      | |- context [searchInWorkspace h name ?w0] =>
          destruct (SearchRuns.searchInWorkspace_calls h name w0)
            as (added & Et & Hs & _);
          destruct (SearchRuns.searchInWorkspace_answer h name w0) as (E1 & _);
          destruct (searchInWorkspace h name w0) as [r [tr2 c2]]
      end.
      cbn [fst snd trace] in Et, E1. subst r tr2. rewrite <- app_assoc.
      apply (verdict_of_location h (string_of_list_ascii name)
               (workspaceAnswer h name)).
      apply Forall_app. split.
      * constructor; [ right; eexists; reflexivity | constructor ].
      * revert Hs. apply Forall_impl. intros a Ha. left. exact Ha.
  - apply verdict_of_error.
  - exists (Throw e), [], (clock w). rewrite world_eta.
    split; [ reflexivity | ].
    right. right. exists e. split; [ reflexivity | split; [ constructor | ] ].
    left. exists doc, position. split; [ exact Ed | exact Ew ].
Qed.

(** X15.  A run of the command only adds to the log of calls and ends in
    one of three ways: it returns with an error message as its last
    call, no file displayed before; it returns with the display of the
    location followed by the message that the endpoint was found; or it
    throws, with no error message shown, and what it throws was thrown
    by the lookup of the word under the cursor or by the display of a
    file. *)
Theorem command_outcomes (h : Host) (w : World) :
  exists added,
    trace (snd (navigateToEndpoint h w)) = trace w ++ added
    /\ commandOutcome h (fst (navigateToEndpoint h w)) added.
Proof.
  destruct (navigateToEndpoint_run h w) as (r & added & c & E & H).
  rewrite E. exists added. split; [ reflexivity | exact H ].
Qed.

End Lookups.

(* ================================================================== *)
(** ** The diagnostic command *)

Module Diagnostics.

Section Report.

Variable findFiles200 : string -> Outcome (list string).
Variable asRelativePath : string -> string.

Lemma fold_appendLine_frame (f : string -> string) (l : list string) :
  forall o,
    lines (fold_left (fun o' x => appendLine (f x) o') l o)
    = lines o ++ map f l
    /\ shown (fold_left (fun o' x => appendLine (f x) o') l o) = shown o
    /\ messages (fold_left (fun o' x => appendLine (f x) o') l o)
       = messages o.
Proof.
  induction l as [ | x l IH]; intro o; cbn [fold_left map].
  - rewrite app_nil_r. auto.
  - destruct (IH (appendLine (f x) o)) as (E1 & E2 & E3).
    rewrite E1, E2, E3. cbn [appendLine lines shown messages].
    rewrite <- app_assoc. auto.
Qed.

(** A batch adds lines and nothing else; the lines that list files are
    those of its first ten files. *)
Lemma reportFiles_frame (files : list string) (o : Output) :
  exists added,
    lines (reportFiles asRelativePath files o) = lines o ++ added
    /\ shown (reportFiles asRelativePath files o) = shown o
    /\ messages (reportFiles asRelativePath files o) = messages o
    /\ filter fileLine added
       = map (fun file => "    - " ++ asRelativePath file)%string
             (firstn 10 files).
Proof.
  unfold reportFiles. cbv zeta.
  match goal with
  | |- context [fold_left ?g (firstn 10 files) ?o1] =>
      destruct (fold_appendLine_frame
                  (fun file => "    - " ++ asRelativePath file)%string
                  (firstn 10 files) o1) as (E1 & E2 & E3)
  end.
  assert (Hf : forall l : list string,
             filter fileLine
               (map (fun file => "    - " ++ asRelativePath file)%string l)
             = map (fun file => "    - " ++ asRelativePath file)%string l).
  { induction l as [ | x l IH]; [ reflexivity | ].
    cbn [map filter].
    replace (fileLine ("    - " ++ asRelativePath x)) with true
      by reflexivity.
    rewrite IH. reflexivity. }
  destruct (10 <? List.length files).
  - cbn [appendLine lines shown messages]. rewrite E1, E2, E3.
    cbn [appendLine lines shown messages]. rewrite <- !app_assoc.
    eexists. split; [ reflexivity | ]. split; [ reflexivity | ].
    split; [ reflexivity | ].
    cbn [app filter]. rewrite filter_app, Hf. cbn. rewrite app_nil_r.
    reflexivity.
  - rewrite E1, E2, E3. cbn [appendLine lines shown messages].
    rewrite <- !app_assoc.
    eexists. split; [ reflexivity | ]. split; [ reflexivity | ].
    split; [ reflexivity | ].
    cbn [app filter]. rewrite Hf. reflexivity.
Qed.

(** The loop when every enumeration answers. *)
Lemma reportPatterns_total (ps : list string) :
  (forall p, In p ps -> exists fs, findFiles200 p = Ok fs) ->
  forall total o, exists added,
    reportPatterns findFiles200 asRelativePath ps total o
    = (Ok (total + list_sum (map (batchSize findFiles200) ps)),
       MkOutput (lines o ++ added) (shown o) (messages o))
    /\ List.length (filter fileLine added) <= 10 * List.length ps.
Proof.
  induction ps as [ | p ps IH]; intros Hall total o.
  - exists []. cbn. rewrite app_nil_r, Nat.add_0_r. destruct o.
    split; [ reflexivity | lia ].
  - destruct (Hall p (or_introl eq_refl)) as (fs & Ef).
    assert (Hall' : forall q, In q ps -> exists fs', findFiles200 q = Ok fs')
      by (intros q Hq; apply Hall; right; exact Hq).
    cbn [reportPatterns map].
    change (list_sum (batchSize findFiles200 p
                      :: map (batchSize findFiles200) ps))
      with (batchSize findFiles200 p
            + list_sum (map (batchSize findFiles200) ps)).
    unfold batchSize at 1.
    rewrite Ef. cbv zeta.
    destruct (0 <? List.length fs) eqn:El.
    + destruct (reportFiles_frame fs (appendLine ("Searching: " ++ p) o))
        as (a1 & L1 & S1 & M1 & F1).
      destruct (IH Hall' (total + List.length fs)
                  (appendLine ""
                     (reportFiles asRelativePath fs
                        (appendLine ("Searching: " ++ p) o))))
        as (a2 & E2 & F2).
      rewrite E2. cbn [appendLine lines shown messages].
      rewrite L1, S1, M1. cbn [appendLine lines shown messages].
      exists (("Searching: " ++ p)%string :: a1 ++ ""%string :: a2).
      split.
      * f_equal; [ f_equal; lia | ]. f_equal.
        rewrite <- !app_assoc. reflexivity.
      * cbn [filter]. replace (fileLine ("Searching: " ++ p)) with false
          by reflexivity.
        rewrite filter_app. cbn [filter].
        replace (fileLine "") with false by reflexivity.
        rewrite length_app, F1, length_map, length_firstn.
        cbn [List.length]. lia.
    + apply Nat.ltb_ge in El.
      destruct (IH Hall' total
                  (appendLine ""
                     (appendLine ("  " ++ ballot_x ++ " No files found")
                        (appendLine ("Searching: " ++ p) o))))
        as (a2 & E2 & F2).
      rewrite E2. cbn [appendLine lines shown messages].
      exists (("Searching: " ++ p)%string
              :: ("  " ++ ballot_x ++ " No files found")%string
              :: ""%string :: a2).
      split.
      * f_equal; [ f_equal; lia | ]. f_equal.
        rewrite <- !app_assoc. reflexivity.
      * cbn [filter]. replace (fileLine ("Searching: " ++ p)) with false
          by reflexivity.
        replace (fileLine ("  " ++ ballot_x ++ " No files found")) with false
          by reflexivity.
        replace (fileLine "") with false by reflexivity.
        cbn [List.length]. lia.
Qed.

(** The loop when an enumeration throws. *)
Lemma reportPatterns_throw (before : list string) :
  (forall q, In q before -> exists fs, findFiles200 q = Ok fs) ->
  forall p after e total o,
    findFiles200 p = Throw e ->
    exists added,
      reportPatterns findFiles200 asRelativePath (before ++ p :: after) total o
      = (Throw e,
         MkOutput (lines o ++ added ++ [("Searching: " ++ p)%string])
                  (shown o) (messages o)).
Proof.
  induction before as [ | q before IH]; intros Hall p after e total o Ep.
  - exists []. cbn [app reportPatterns]. rewrite Ep. reflexivity.
  - destruct (Hall q (or_introl eq_refl)) as (fs & Ef).
    assert (Hall' : forall q', In q' before ->
                               exists fs', findFiles200 q' = Ok fs')
      by (intros q' Hq; apply Hall; right; exact Hq).
    cbn [app reportPatterns]. rewrite Ef. cbv zeta.
    destruct (0 <? List.length fs).
    + destruct (reportFiles_frame fs (appendLine ("Searching: " ++ q) o))
        as (a1 & L1 & S1 & M1 & _).
      match goal with
      | |- context [reportPatterns _ _ _ ?t ?o'] =>
          destruct (IH Hall' p after e t o' Ep) as (a2 & E2)
      end.
      rewrite E2. cbn [appendLine lines shown messages].
      rewrite L1, S1, M1. cbn [appendLine lines shown messages].
      exists (("Searching: " ++ q)%string :: a1 ++ ""%string :: a2).
      f_equal. f_equal. rewrite <- !app_assoc. cbn [app].
      rewrite <- !app_assoc. reflexivity.
    + match goal with
      | |- context [reportPatterns _ _ _ ?t ?o'] =>
          destruct (IH Hall' p after e t o' Ep) as (a2 & E2)
      end.
      rewrite E2. cbn [appendLine lines shown messages].
      exists (("Searching: " ++ q)%string
              :: ("  " ++ ballot_x ++ " No files found")%string
              :: ""%string :: a2).
      f_equal. f_equal. rewrite <- !app_assoc. reflexivity.
Qed.

End Report.

Lemma setting_patterns (h : Host) (ps : list string) :
  configuredPatterns h = Some ps ->
  exists setting,
    searchPatternsSetting h = Ok setting
    /\ match setting with Some l => l | None => defaultSearchPatterns end = ps.
Proof.
  unfold configuredPatterns.
  destruct (searchPatternsSetting h) as [[l | ] | e]; intros [= <-];
    eexists; split; reflexivity.
Qed.

(** X16.  The diagnostic command, when the setting can be read and every
    pattern can be enumerated: it returns; the channel is shown and
    holds only what this run wrote, the lines of earlier runs gone; the
    total it reports, in the channel and in its one message, is the sum
    of the sizes of the batches, so that a file returned for two
    patterns is counted twice; and it lists at most ten files for each
    pattern. *)
Theorem diagnostic_total (h : Host)
  (findFiles200 : string -> Outcome (list string))
  (asRelativePath : string -> string) (ps : list string) (o : Output) :
  configuredPatterns h = Some ps ->
  (forall p, In p ps -> exists fs, findFiles200 p = Ok fs) ->
  exists body,
    findApiFiles h findFiles200 asRelativePath o
    = (Ok tt,
       MkOutput
         (body
          ++ ["======================";
              "Total API files found: "
              ++ decimal (list_sum (map (batchSize findFiles200) ps));
              "======================"]%string)
         true
         (messages o
          ++ [("Found "
               ++ decimal (list_sum (map (batchSize findFiles200) ps))
               ++ " API files. Check Output panel for details.")%string]))
    /\ List.length (filter fileLine body) <= 10 * List.length ps.
Proof.
  intros Hps Hall.
  destruct (setting_patterns h ps Hps) as (setting & Es & El).
  unfold findApiFiles. rewrite Es. cbv zeta. rewrite El.
  match goal with
  | |- context [reportPatterns _ _ ps 0 ?o3] =>
      destruct (reportPatterns_total findFiles200 asRelativePath ps Hall 0 o3)
        as (added & E & Hf)
  end.
  rewrite E. cbn [appendLine lines shown messages Nat.add].
  destruct (fold_appendLine_frame (fun pattern => "  - " ++ pattern)%string ps
              (appendLine "Search Patterns:"
                 (appendLine
                    ("=== RTK Query Navigator - API Files Diagnostic ==="
                     ++ newline)
                    (MkOutput [] true (messages o)))))
    as (L & S & M).
  rewrite L, S, M. cbn [appendLine lines shown messages app].
  exists (("=== RTK Query Navigator - API Files Diagnostic ===" ++ newline)
          :: "Search Patterns:"
          :: map (fun pattern => "  - " ++ pattern) ps ++ "" :: added)%string.
  split.
  - f_equal. f_equal. cbn [app]. rewrite <- !app_assoc. reflexivity.
  - cbn [filter].

    replace (fileLine ("=== RTK Query Navigator - API Files Diagnostic ==="
                       ++ newline)) with false by reflexivity.
    replace (fileLine "Search Patterns:") with false by reflexivity.
    rewrite filter_app. cbn [filter].
    replace (fileLine "") with false by reflexivity.
    assert (Hn : forall l : list string,
               filter fileLine (map (fun pattern => "  - " ++ pattern)%string l)
               = []).
    { induction l as [ | x l IH]; [ reflexivity | exact IH ]. }
    rewrite Hn. exact Hf.
Qed.

Lemma diagnostic_total_witness :
  exists body,
    findApiFiles ex_host ex_overlap (fun f => f) output0
    = (Ok tt,
       MkOutput
         (body
          ++ ["======================";
              "Total API files found: "
              ++ decimal (list_sum (map (batchSize ex_overlap)
                                        defaultSearchPatterns));
              "======================"]%string)
         true
         (messages output0
          ++ [("Found "
               ++ decimal (list_sum (map (batchSize ex_overlap)
                                         defaultSearchPatterns))
               ++ " API files. Check Output panel for details.")%string]))
    /\ List.length (filter fileLine body)
       <= 10 * List.length defaultSearchPatterns.
Proof.
  apply (diagnostic_total ex_host ex_overlap (fun f => f)
           defaultSearchPatterns output0 eq_refl).
  intros p Hp. unfold ex_overlap.
  destruct (String.eqb p "**/features/**/api/*.{ts,tsx}");
    [ eexists; reflexivity | ].
  destruct (String.eqb p "**/api/**/*.{ts,tsx}"); eexists; reflexivity.
Defined.

(** X17.  The diagnostic command has no handler: when a pattern cannot
    be enumerated, the patterns before it having been, the command
    throws what the enumeration threw; the channel, cleared and shown,
    ends with the line of the pattern that failed; no total is written
    and no message is shown. *)
Theorem diagnostic_failure (h : Host)
  (findFiles200 : string -> Outcome (list string))
  (asRelativePath : string -> string) (before after : list string)
  (p e : string) (o : Output) :
  configuredPatterns h = Some (before ++ p :: after) ->
  (forall q, In q before -> exists fs, findFiles200 q = Ok fs) ->
  findFiles200 p = Throw e ->
  exists body,
    findApiFiles h findFiles200 asRelativePath o
    = (Throw e,
       MkOutput (body ++ [("Searching: " ++ p)%string]) true (messages o)).
Proof.
  intros Hps Hall Ep.
  destruct (setting_patterns h _ Hps) as (setting & Es & El).
  unfold findApiFiles. rewrite Es. cbv zeta. rewrite El.
  match goal with
  | |- context [reportPatterns _ _ _ 0 ?o3] =>
      destruct (reportPatterns_throw findFiles200 asRelativePath before Hall
                  p after e 0 o3 Ep) as (added & E)
  end.
  rewrite E. cbn [appendLine lines shown messages].
  destruct (fold_appendLine_frame (fun pattern => "  - " ++ pattern)%string
              (before ++ p :: after)
              (appendLine "Search Patterns:"
                 (appendLine
                    ("=== RTK Query Navigator - API Files Diagnostic ==="
                     ++ newline)
                    (MkOutput [] true (messages o)))))
    as (L & S & M).
  rewrite L, S, M. cbn [appendLine lines shown messages app].
  exists (("=== RTK Query Navigator - API Files Diagnostic ===" ++ newline)
          :: "Search Patterns:"
          :: (map (fun pattern => "  - " ++ pattern) (before ++ p :: after)
              ++ [""]) ++ added)%string.
  f_equal. f_equal. cbn [app]. rewrite <- !app_assoc. reflexivity.
Qed.

Lemma diagnostic_failure_witness :
  exists body,
    findApiFiles ex_host ex_failing (fun f => f) output0
    = (Throw "cannot enumerate",
       MkOutput (body ++ ["Searching: **/api/**/*.{ts,tsx}"]%string) true
                (messages output0)).
Proof.
  apply (diagnostic_failure ex_host ex_failing (fun f => f)
           ["**/features/**/api/*.{ts,tsx}"]%string
           ["**/services/**/*.{ts,tsx}"; "**/*api*.{ts,tsx}"]%string
           "**/api/**/*.{ts,tsx}"%string "cannot enumerate"%string output0
           eq_refl).
  - intros q [<- | []]. eexists. reflexivity.
  - reflexivity.
Defined.

End Diagnostics.

(* ================================================================== *)
(** ** The third pattern covers the first *)

Module PatternCover.

Lemma builderCall_spaced (s s' : mstate) :
  matches (builderCall false) s s' -> matches (builderCall true) s s'.
Proof.
  unfold builderCall. intro H.
  inversion H as [ | | a b x s1 y H1 H2 | | | | | | | | ]; subst.
  inversion H2 as [ | | a b x s2 y H3 H4 | | | | | | | | ]; subst.
  inversion H4 as [ | | a b x s3 y H5 H6 | | | | | | | | ]; subst.
  inversion H6 as [ | | a b x s4 y H7 H8 | | | | | | | | ]; subst.
  inversion H8 as [ | | a b x s5 y H9 H10 | | | | | | | | ]; subst.
  inversion H5; subst. inversion H9; subst.
  eapply MSeq; [ exact H1 | ].
  eapply MSeq; [ exact H3 | ].
  eapply MSeq; [ apply MStarStop | ].
  eapply MSeq; [ exact H7 | ].
  eapply MSeq; [ apply MStarStop | exact H10 ].
Qed.

Lemma unquoted_spaced (name : text) (s s' : mstate) :
  matches (unquotedPattern name) s s' -> matches (spacedPattern name) s s'.
Proof.
  unfold unquotedPattern, spacedPattern. intro H.
  inversion H as [ | | a b x s1 y H1 H2 | | | | | | | | ]; subst.
  inversion H2 as [ | | a b x s2 y H3 H4 | | | | | | | | ]; subst.
  inversion H4 as [ | | a b x s3 y H5 H6 | | | | | | | | ]; subst.
  inversion H6 as [ | | a b x s4 y H7 H8 | | | | | | | | ]; subst.
  inversion H8 as [ | | a b x s5 y H9 H10 | | | | | | | | ]; subst.
  eapply MSeq; [ exact H1 | ].
  eapply MSeq; [ exact H3 | ].
  eapply MSeq; [ exact H5 | ].
  eapply MSeq; [ exact H7 | ].
  eapply MSeq; [ exact H9 | ].
  apply builderCall_spaced. exact H10.
Qed.

Lemma spaced_covers (name region : text) (m : mresult) :
  exec (unquotedPattern name) region = Some m ->
  exists m',
    exec (spacedPattern name) region = Some m' /\ index m' <= index m.
Proof.
  intro H. apply RegexFacts.exec_sound in H.
  destruct H as (u & v & s' & -> & Ei & Hm & _). rewrite Ei.
  apply (@RegexFacts.exec_complete (spacedPattern name) u v s').
  apply unquoted_spaced. exact Hm.
Qed.

(** X18.  The third pattern covers the first: wherever the unquoted
    pattern matches, the pattern that allows whitespace around the dot
    matches too, no later in the text.  So the first pattern never
    decides whether a declaration is found, only where: the lookup finds
    nothing exactly when the quoted pattern and the third pattern find
    nothing. *)
Theorem third_pattern_covers_first :
  (forall name region m,
      exec (unquotedPattern name) region = Some m ->
      exists m',
        exec (spacedPattern name) region = Some m' /\ index m' <= index m)
  /\ (forall doc name,
         findEndpointDefinition doc name = None
         <-> exec (quotedPattern name) (fst (searchRegion (getText doc))) = None
             /\ exec (spacedPattern name) (fst (searchRegion (getText doc)))
                = None).
Proof.
  split; [ exact spaced_covers | ].
  intros doc name. rewrite DefinitionMatcher.findEndpointDefinition_byPriority.
  unfold byPriority.
  destruct (exec (unquotedPattern name) _) as [m | ] eqn:E1.
  - destruct (spaced_covers _ _ _ E1) as (m' & E3 & _). rewrite E3.
    cbn. split; [ discriminate | intros (_ & H); discriminate ].
  - destruct (exec (quotedPattern name) _) as [m | ];
      [ cbn; split; [ discriminate | intros (H & _); discriminate ] | ].
    destruct (exec (spacedPattern name) _) as [m | ]; cbn.
    + split; [ discriminate | intros (_ & H); discriminate ].
    + split; auto.
Qed.

Lemma third_pattern_covers_first_witness :
  exists m',
    exec (spacedPattern ex_endpoint) ex_api = Some m' /\ index m' <= 84.
Proof.
  apply (proj1 third_pattern_covers_first ex_endpoint ex_api
           {| index := 84; stop := 113; groups := [(1, (108, 113))] |}).
  vm_compute. reflexivity.
Defined.

End PatternCover.
